(** * Faramesh Node SDK: canonicalization, request hashing and the action
      lifecycle client, embedded from the TypeScript sources.

    - [src/canonicalization.ts]: [normalizeFloat], [serializeString],
      [serializeObject], [serializeArray], [serializeValue], [canonicalize],
      [canonicalizeActionPayload], [computeRequestHash], [computeHash].
    - [src/client.ts]: [configure], [getConfig], [makeRequest], [getAction],
      [approveAction], [denyAction], [blockUntilApproved], [gateDecide],
      [listActions], [replayDecision].

    JavaScript strings are sequences of UTF-16 code units; they are modelled
    as lists of [N].  JSON-compatible values are an inductive type; objects
    are association lists in property enumeration order. *)

From Stdlib Require Import List Bool Ascii String NArith ZArith QArith Lia.
From Stdlib Require Import Permutation Sorted DecimalN DecimalNat.

Set Warnings "-register-all".
Import ListNotations.

Close Scope Q_scope.
Open Scope list_scope.
Open Scope N_scope.

(* ------------------------------------------------------------------------- *)
(** ** JavaScript strings *)

Definition jsString := list N.

(** String literals of the source, read as code units (ASCII only). *)
Definition js (s : string) : jsString :=
  map N_of_ascii (list_ascii_of_string s).

Module Str.

Fixpoint eqb (s t : jsString) : bool :=
    match s, t with
    | [], [] => true
    | a :: s', b :: t' => (a =? b) && eqb s' t'
    | _, _ => false
    end.

  (** [x < y] on strings: lexicographic on code units, a proper prefix first
      (ECMA-262 IsLessThan on strings, the default of Array.prototype.sort). *)
Fixpoint ltb (s t : jsString) : bool :=
    match s, t with
    | [], [] => false
    | [], _ :: _ => true
    | _ :: _, [] => false
    | a :: s', b :: t' =>
        if a <? b then true else if b <? a then false else ltb s' t'
    end.

Definition leb (s t : jsString) : bool := negb (ltb t s).

Fixpoint startsWith (s p : jsString) : bool :=
    match p, s with
    | [], _ => true
    | _ :: _, [] => false
    | b :: p', a :: s' => (a =? b) && startsWith s' p'
    end.

  (** [s.includes(sub)] *)
Fixpoint includes (s sub : jsString) : bool :=
    startsWith s sub ||
    match s with
    | [] => false
    | _ :: s' => includes s' sub
    end.

  (** [c.repeat(n)] for a one-unit string [c] *)
Definition repeat (c : N) (n : nat) : jsString := List.repeat c n.

  (** [s.slice(a, b)] and [s.slice(a)] for indices within [0, length] *)
Definition slice (s : jsString) (a b : nat) : jsString :=
    firstn (b - a) (skipn a s).
Definition sliceFrom (s : jsString) (a : nat) : jsString := skipn a s.

  (** [s.split(c)] for a one-unit separator [c] *)
Fixpoint split (c : N) (s : jsString) : list jsString :=
    match s with
    | [] => [[]]
    | a :: s' =>
        if a =? c then [] :: split c s'
        else match split c s' with
             | [] => [[a]]
             | p :: ps => (a :: p) :: ps
             end
    end.

  (** [s.replace(c, "")] for a one-unit pattern string [c]: first occurrence *)
Fixpoint removeFirst (c : N) (s : jsString) : jsString :=
    match s with
    | [] => []
    | a :: s' => if a =? c then s' else a :: removeFirst c s'
    end.

  (** [parts.join(sep)] *)
Fixpoint join (sep : jsString) (parts : list jsString) : jsString :=
    match parts with
    | [] => []
    | [p] => p
    | p :: ps => p ++ sep ++ join sep ps
    end.

  (** [s.padStart(n, c)] for a one-unit filler [c] *)
Definition padStart (s : jsString) (n : nat) (c : N) : jsString :=
    List.repeat c (n - List.length s) ++ s.

  (** [s.toLowerCase()] on the ASCII letters (the only letters that reach it) *)
Definition toLowerCase (s : jsString) : jsString :=
    map (fun a => if (65 <=? a) && (a <=? 90) then a + 32 else a) s.

End Str.

(** Decimal digits of a natural number, most significant first. *)
Fixpoint uint_units (u : Decimal.uint) : jsString :=
  match u with
  | Decimal.Nil => []
  | Decimal.D0 u => 48 :: uint_units u
  | Decimal.D1 u => 49 :: uint_units u
  | Decimal.D2 u => 50 :: uint_units u
  | Decimal.D3 u => 51 :: uint_units u
  | Decimal.D4 u => 52 :: uint_units u
  | Decimal.D5 u => 53 :: uint_units u
  | Decimal.D6 u => 54 :: uint_units u
  | Decimal.D7 u => 55 :: uint_units u
  | Decimal.D8 u => 56 :: uint_units u
  | Decimal.D9 u => 57 :: uint_units u
  end.

Definition decimalOfN (n : N) : jsString := uint_units (N.to_uint n).

Definition decimalOfZ (z : Z) : jsString :=
  match z with
  | Zneg p => 45 :: decimalOfN (Npos p)
  | _ => decimalOfN (Z.to_N z)
  end.

(** The longest prefix of decimal digits of a string, and what it denotes. *)
Fixpoint digits_uint (s : jsString) : Decimal.uint :=
  match s with
  | [] => Decimal.Nil
  | a :: s' =>
      if a =? 48 then Decimal.D0 (digits_uint s')
      else if a =? 49 then Decimal.D1 (digits_uint s')
      else if a =? 50 then Decimal.D2 (digits_uint s')
      else if a =? 51 then Decimal.D3 (digits_uint s')
      else if a =? 52 then Decimal.D4 (digits_uint s')
      else if a =? 53 then Decimal.D5 (digits_uint s')
      else if a =? 54 then Decimal.D6 (digits_uint s')
      else if a =? 55 then Decimal.D7 (digits_uint s')
      else if a =? 56 then Decimal.D8 (digits_uint s')
      else if a =? 57 then Decimal.D9 (digits_uint s')
      else Decimal.Nil
  end.

Definition isWhite (a : N) : bool :=
  (a =? 32) || ((9 <=? a) && (a <=? 13)).

Fixpoint trimStart (s : jsString) : jsString :=
  match s with
  | a :: s' => if isWhite a then trimStart s' else s
  | [] => []
  end.

(** [parseInt(s, 10)]: leading white space, an optional sign, then the longest
    run of decimal digits; [None] is NaN (no digit at all). *)
Definition parseInt (s : jsString) : option Z :=
  let t := trimStart s in
  let '(neg, body) :=
    match t with
    | 45 :: r => (true, r)
    | 43 :: r => (false, r)
    | _ => (false, t)
    end in
  match digits_uint body with
  | Decimal.Nil => None
  | u => let m := Z.of_N (N.of_uint u) in
         Some (if neg then (- m)%Z else m)
  end.

(* ------------------------------------------------------------------------- *)
(** ** JavaScript numbers

    A finite non-zero double is given by the decimal data that
    [Number.prototype.toString] is defined on (ECMA-262, Number::toString):
    its sign, the digits [d1 ... dk] of the shortest round-tripping decimal
    (first and last digit non-zero) and the exponent [n], denoting
    [0.d1...dk * 10^n]. *)

Inductive JsNumber :=
| NaN
| Infinity (neg : bool)
| Zero (neg : bool)
| Finite (neg : bool) (digits : list N) (n : Z).

Definition isNaN (x : JsNumber) : bool :=
  match x with NaN => true | _ => false end.

Definition isFinite (x : JsNumber) : bool :=
  match x with NaN | Infinity _ => false | _ => true end.

Definition isZero (x : JsNumber) : bool :=
  match x with Zero _ => true | _ => false end.

Definition isNegative (x : JsNumber) : bool :=
  match x with
  | Infinity b | Finite b _ _ => b
  | _ => false
  end.

Definition wfDigits (ds : list N) : Prop :=
  ds <> [] /\ Forall (fun d => d < 10) ds /\
  hd 0 ds <> 0 /\ last ds 0 <> 0.

Definition wfNumber (x : JsNumber) : Prop :=
  match x with
  | Finite _ ds _ => wfDigits ds
  | _ => True
  end.

Definition digitUnits (ds : list N) : jsString := map (fun d => 48 + d) ds.

(** [x.toString()], following the steps of Number::toString for radix 10. *)
Definition toStringPos (ds : list N) (n : Z) : jsString :=
  let k := Z.of_nat (List.length ds) in
  let s := digitUnits ds in
  if ((k <=? n) && (n <=? 21))%Z then
    s ++ Str.repeat 48 (Z.to_nat (n - k))
  else if ((0 <? n) && (n <=? 21))%Z then
    firstn (Z.to_nat n) s ++ [46] ++ skipn (Z.to_nat n) s
  else if ((-6 <? n) && (n <=? 0))%Z then
    [48; 46] ++ Str.repeat 48 (Z.to_nat (- n)) ++ s
  else
    let e := (n - 1)%Z in
    let sign := if (e <? 0)%Z then 45 else 43 in
    let expo := decimalOfN (Z.to_N (Z.abs e)) in
    match s with
    | [d] => [d] ++ [101] ++ [sign] ++ expo
    | d :: rest => [d] ++ [46] ++ rest ++ [101] ++ [sign] ++ expo
    | [] => []
    end.

Definition toString (x : JsNumber) : jsString :=
  match x with
  | NaN => js "NaN"
  | Infinity false => js "Infinity"
  | Infinity true => js "-Infinity"
  | Zero _ => js "0"
  | Finite false ds n => toStringPos ds n
  | Finite true ds n => 45 :: toStringPos ds n
  end.

(* ------------------------------------------------------------------------- *)
(** ** Values, exceptions and results *)

(** The values [canonicalize] and the client see: JSON data, plus [undefined]
    and the non-finite numbers a caller can put into a payload. *)
Inductive JsValue :=
| JNull
| JUndefined
| JBool (b : bool)
| JNum (x : JsNumber)
| JStr (s : jsString)
| JArr (items : list JsValue)
| JObj (props : list (jsString * JsValue)).

(** The subclasses of [FarameshError] in [types.ts]. *)
Inductive FarameshClass :=
| FarameshError
| FarameshAuthError
| FarameshNotFoundError
| FarameshPolicyError
| FarameshTimeoutError
| FarameshConnectionError
| FarameshValidationError
| FarameshServerError
| FarameshDeniedError.

(** What a [throw] can carry.  [SyntaxError] and [TypeError] come from the
    engine (their messages are engine-specific and left out); [AxiosError] is
    what the HTTP transport rejects with. *)
Inductive Exn :=
| CanonicalizeError (message : jsString)
| SyntaxError
| TypeError
| OtherError (message : jsString)
| Faramesh (cls : FarameshClass) (message : jsString) (statusCode : option N)
| AxiosError (response : option (N * JsValue)) (code : option jsString)
    (message : jsString).

Inductive Result (A : Type) :=
| Ok (a : A)
| Throw (e : Exn).
Arguments Ok {A} a.
Arguments Throw {A} e.

Definition bindR {A B} (r : Result A) (k : A -> Result B) : Result B :=
  match r with
  | Ok a => k a
  | Throw e => Throw e
  end.

(** The entries of an object are unique by key. *)
Definition keys (props : list (jsString * JsValue)) : list jsString :=
  map fst props.

(** [obj[key]] on the entries of an object, [mapped] through [f];
    a missing key reads as [undefined]. *)
Fixpoint lookupWith {A B} (f : A -> B) (undef : B) (key : jsString)
    (props : list (jsString * A)) : B :=
  match props with
  | [] => undef
  | (k, v) :: rest =>
      if Str.eqb k key then f v else lookupWith f undef key rest
  end.

Definition lookup (key : jsString) (props : list (jsString * JsValue))
  : JsValue :=
  lookupWith (fun v => v) JUndefined key props.

(** [obj[key] = value]: an existing property keeps its place, a new one is
    appended. *)
Fixpoint objSet (props : list (jsString * JsValue)) (key : jsString)
    (value : JsValue) : list (jsString * JsValue) :=
  match props with
  | [] => [(key, value)]
  | (k, v) :: rest =>
      if Str.eqb k key then (k, value) :: rest
      else (k, v) :: objSet rest key value
  end.

(* ------------------------------------------------------------------------- *)
(** ** canonicalization.ts *)

Definition ACTION_EXCLUDE_FIELDS : list jsString :=
  map js
    [ "id"; "approval_token"; "created_at"; "updated_at"; "tenant_id";
      "project_id"; "version"; "decision"; "status"; "reason"; "risk_level";
      "policy_version"; "policy_hash"; "runtime_version"; "profile_id";
      "profile_version"; "profile_hash"; "provenance_id"; "outcome";
      "reason_code"; "reason_details"; "request_hash" ]%string.

(** [str.replace(/\.?0+$/, "")]: the leftmost position from which an optional
    dot and then one or more zeros run to the end of the string is cut off. *)
Fixpoint zerosToEnd (s : jsString) : bool :=
  match s with
  | [] => false
  | [a] => a =? 48
  | a :: s' => (a =? 48) && zerosToEnd s'
  end.

Definition matchesDotZeros (s : jsString) : bool :=
  match s with
  | 46 :: r => zerosToEnd r
  | _ => zerosToEnd s
  end.

Fixpoint stripTrailingZeros (s : jsString) : jsString :=
  if matchesDotZeros s then []
  else match s with
       | [] => []
       | a :: s' => a :: stripTrailingZeros s'
       end.

(** The [if (exponent > 0) { ... } else { ... }] of [normalizeFloat]: the
    decimal point moved right or left.  A NaN exponent ([None]) fails both
    comparisons; [slice(0, NaN)] is empty and [slice(NaN)] the whole string. *)
Definition shiftPoint (intPart fracPart : jsString) (exponent : option Z)
  : jsString :=
  match exponent with
  | Some exponent =>
      if (0 <? exponent)%Z then
        let e := Z.to_nat exponent in
        if (List.length fracPart <=? e)%nat then
          intPart ++ fracPart ++ Str.repeat 48 (e - List.length fracPart)
        else
          intPart ++ Str.slice fracPart 0 e ++ [46] ++ Str.sliceFrom fracPart e
      else
        let absExp := Z.to_nat (Z.abs exponent) in
        let allDigits := intPart ++ fracPart in
        if (List.length allDigits <=? absExp)%nat then
          js "0." ++ Str.repeat 48 (absExp - List.length allDigits)
             ++ allDigits
        else
          Str.slice allDigits 0 (List.length allDigits - absExp) ++ [46]
            ++ Str.sliceFrom allDigits (List.length allDigits - absExp)
  | None => [46] ++ intPart ++ fracPart
  end.

(** The body of [if (str.includes("e") || str.includes("E")) { ... }]. *)
Definition expandExponent (value : JsNumber) (str : jsString) : jsString :=
  let pieces := Str.split 101 (Str.toLowerCase str) in
  let mantissa := nth 0 pieces [] in
  let exponent :=
    match nth_error pieces 1 with
    | Some exponentStr => parseInt exponentStr
    | None => None
    end in
  let parts := Str.split 46 mantissa in
  let intPart := Str.removeFirst 45 (nth 0 parts []) in
  let fracPart := nth 1 parts [] in
  let str := shiftPoint intPart fracPart exponent in
  if isNegative value && negb (Str.startsWith str (js "-")) then 45 :: str
  else str.

Definition normalizeFloat (value : JsNumber) : Result jsString :=
  if isNaN value then
    Throw (CanonicalizeError (js "NaN is not allowed in canonical JSON"))
  else if negb (isFinite value) then
    Throw (CanonicalizeError (js "Infinity is not allowed in canonical JSON"))
  else if isZero value then Ok (js "0")
  else
    let str := toString value in
    let str :=
      if Str.includes str (js "e") || Str.includes str (js "E")
      then expandExponent value str else str in
    let str :=
      if Str.includes str (js ".") then stripTrailingZeros str else str in
    Ok str.

(** A number whose value is an integer: all of its digits are in front of
    the decimal point. *)
Definition isIntegral (x : JsNumber) : bool :=
  match x with
  | Zero _ => true
  | Finite _ ds n => (Z.of_nat (List.length ds) <=? n)%Z
  | _ => false
  end.

(** [code.toString(16)] *)
Fixpoint hex_units (u : Hexadecimal.uint) : jsString :=
  match u with
  | Hexadecimal.Nil => []
  | Hexadecimal.D0 u => 48 :: hex_units u
  | Hexadecimal.D1 u => 49 :: hex_units u
  | Hexadecimal.D2 u => 50 :: hex_units u
  | Hexadecimal.D3 u => 51 :: hex_units u
  | Hexadecimal.D4 u => 52 :: hex_units u
  | Hexadecimal.D5 u => 53 :: hex_units u
  | Hexadecimal.D6 u => 54 :: hex_units u
  | Hexadecimal.D7 u => 55 :: hex_units u
  | Hexadecimal.D8 u => 56 :: hex_units u
  | Hexadecimal.D9 u => 57 :: hex_units u
  | Hexadecimal.Da u => 97 :: hex_units u
  | Hexadecimal.Db u => 98 :: hex_units u
  | Hexadecimal.Dc u => 99 :: hex_units u
  | Hexadecimal.Dd u => 100 :: hex_units u
  | Hexadecimal.De u => 101 :: hex_units u
  | Hexadecimal.Df u => 102 :: hex_units u
  end.

Definition hexOfN (n : N) : jsString := hex_units (N.to_hex_uint n).

(** One step of the loop of [serializeString].  The loop walks the string by
    code point; a surrogate pair has both units at or above 0xD800, so it takes
    the last branch and is appended as it is, which is what walking by code
    unit does too. *)
Definition escapeUnit (code : N) : jsString :=
  if code =? 34 then [92; 34]            (* backslash, quote *)
  else if code =? 92 then [92; 92]       (* backslash, backslash *)
  else if code =? 8 then [92; 98]        (* backslash, b *)
  else if code =? 12 then [92; 102]      (* backslash, f *)
  else if code =? 10 then [92; 110]      (* backslash, n *)
  else if code =? 13 then [92; 114]      (* backslash, r *)
  else if code =? 9 then [92; 116]       (* backslash, t *)
  else if code <? 32 then [92; 117] ++ Str.padStart (hexOfN code) 4 48
  else [code].

Definition serializeString (value : jsString) : jsString :=
  [34] ++ flat_map escapeUnit value ++ [34].

(** [Object.keys(value).sort()]: the default sort orders strings by [Str.ltb];
    insertion keeps it stable. *)
Fixpoint insertKey (k : jsString) (sorted : list jsString) : list jsString :=
  match sorted with
  | [] => [k]
  | h :: t => if Str.leb k h then k :: h :: t else h :: insertKey k t
  end.

Fixpoint sortKeys (ks : list jsString) : list jsString :=
  match ks with
  | [] => []
  | k :: rest => insertKey k (sortKeys rest)
  end.

(** The loop of [serializeObject] over the sorted keys; [valueOf key] is
    [serializeValue(value[key])]. *)
Fixpoint serializeEntries (valueOf : jsString -> Result jsString)
    (ks : list jsString) : Result (list jsString) :=
  match ks with
  | [] => Ok []
  | key :: rest =>
      let keyStr := serializeString key in
      bindR (valueOf key) (fun valStr =>
      bindR (serializeEntries valueOf rest) (fun parts =>
      Ok ((keyStr ++ js ":" ++ valStr) :: parts)))
  end.

(** [value.map((item) => serializeValue(item))], stopping at the first throw. *)
Fixpoint mapR {A B} (f : A -> Result B) (l : list A) : Result (list B) :=
  match l with
  | [] => Ok []
  | x :: rest =>
      bindR (f x) (fun y => bindR (mapR f rest) (fun ys => Ok (y :: ys)))
  end.

Fixpoint serializeValue (value : JsValue) : Result jsString :=
  match value with
  | JNull => Ok (js "null")
  | JUndefined => Ok (js "null")
  | JBool b => Ok (if b then js "true" else js "false")
  | JNum x => normalizeFloat x
  | JStr s => Ok (serializeString s)
  | JArr items =>
      (* serializeArray *)
      bindR (mapR serializeValue items) (fun parts =>
      Ok (js "[" ++ Str.join (js ",") parts ++ js "]"))
  | JObj props =>
      (* serializeObject *)
      let ks := sortKeys (keys props) in
      bindR (serializeEntries
               (fun key => lookupWith serializeValue (Ok (js "null")) key props)
               ks) (fun parts =>
      Ok (js "{" ++ Str.join (js ",") parts ++ js "}"))
  end.

Definition serializeArray (value : list JsValue) : Result jsString :=
  serializeValue (JArr value).

Definition serializeObject (value : list (jsString * JsValue))
  : Result jsString :=
  serializeValue (JObj value).

(** [JSON.parse(JSON.stringify(v))] for a value [v] inside an array or an
    object (ECMA-262, SerializeJSONProperty and JSON.parse): a non-finite
    number and [undefined] are written as [null], [-0] as [0], and an object
    property whose value is [undefined] is left out; everything else reads
    back as it was written. *)
Fixpoint jsonCopy (v : JsValue) : JsValue :=
  match v with
  | JNull => JNull
  | JUndefined => JNull
  | JBool b => JBool b
  | JNum x =>
      if isFinite x
      then JNum (match x with Zero _ => Zero false | _ => x end)
      else JNull
  | JStr s => JStr s
  | JArr items => JArr (map jsonCopy items)
  | JObj props =>
      JObj ((fix copyProps (ps : list (jsString * JsValue)) :=
               match ps with
               | [] => []
               | (k, JUndefined) :: rest => copyProps rest
               | (k, v) :: rest => (k, jsonCopy v) :: copyProps rest
               end) props)
  end.

(** The entries of the copy of an object, as [jsonCopy] computes them. *)
Definition copyProps (ps : list (jsString * JsValue))
  : list (jsString * JsValue) :=
  flat_map (fun entry =>
              match snd entry with
              | JUndefined => []
              | v => [(fst entry, jsonCopy v)]
              end) ps.

(** [JSON.stringify(undefined)] is [undefined], which [JSON.parse] rejects. *)
Definition jsonRoundTrip (obj : JsValue) : Result JsValue :=
  match obj with
  | JUndefined => Throw SyntaxError
  | _ => Ok (jsonCopy obj)
  end.

Definition canonicalize (obj : JsValue) : Result jsString :=
  bindR (jsonRoundTrip obj) (fun objCopy => serializeValue objCopy).

(** [Buffer.from(str, "utf-8")]: a surrogate pair is one code point of four
    bytes, a lone surrogate is replaced by U+FFFD. *)
Definition isHighSurrogate (c : N) : bool := (0xD800 <=? c) && (c <=? 0xDBFF).
Definition isLowSurrogate (c : N) : bool := (0xDC00 <=? c) && (c <=? 0xDFFF).

Definition utf8CodePoint (cp : N) : list N :=
  if cp <? 0x80 then [cp]
  else if cp <? 0x800 then [0xC0 + cp / 64; 0x80 + cp mod 64]
  else if cp <? 0x10000 then
    [0xE0 + cp / 4096; 0x80 + (cp / 64) mod 64; 0x80 + cp mod 64]
  else
    [0xF0 + cp / 262144; 0x80 + (cp / 4096) mod 64;
     0x80 + (cp / 64) mod 64; 0x80 + cp mod 64].

Fixpoint utf8 (s : jsString) : list N :=
  match s with
  | [] => []
  | a :: s' =>
      if isHighSurrogate a then
        match s' with
        | b :: s'' =>
            if isLowSurrogate b then
              utf8CodePoint (0x10000 + (a - 0xD800) * 1024 + (b - 0xDC00))
                ++ utf8 s''
            else [0xEF; 0xBF; 0xBD] ++ utf8 s'
        | [] => [0xEF; 0xBF; 0xBD]
        end
      else if isLowSurrogate a then [0xEF; 0xBF; 0xBD] ++ utf8 s'
      else utf8CodePoint a ++ utf8 s'
  end.

(** A payload without the fields that [computeRequestHash] is said to leave
    out: the fixed set of ephemeral fields and every field whose name starts
    with an underscore. *)
Definition isEphemeralField (key : jsString) : bool :=
  existsb (Str.eqb key) ACTION_EXCLUDE_FIELDS.

Definition isUnderscoreField (key : jsString) : bool :=
  match key with
  | 95 :: _ => true
  | _ => false
  end.

Definition stripEphemeral (payload : list (jsString * JsValue))
  : list (jsString * JsValue) :=
  filter (fun entry =>
            negb (isEphemeralField (fst entry))
            && negb (isUnderscoreField (fst entry))) payload.




Section Hashing.

  (** [crypto.createHash("sha256").update(bytes).digest("hex")] *)
Variable sha256 : list N -> jsString.

Definition isExcludedKey (key : jsString) : bool :=
    existsb (Str.eqb key) ACTION_EXCLUDE_FIELDS || Str.startsWith key (js "_").

  (** The loop of [canonicalizeActionPayload] over [Object.entries(payload)]. *)
Definition cleanPayload (payload : list (jsString * JsValue))
    : list (jsString * JsValue) :=
    fold_left
      (fun clean entry =>
         let '(key, value) := entry in
         if isExcludedKey key then clean else objSet clean key value)
      payload [].

Definition canonicalizeActionPayload (payload : list (jsString * JsValue))
    : Result jsString :=
    canonicalize (JObj (cleanPayload payload)).

Definition computeRequestHash (payload : list (jsString * JsValue))
    : Result jsString :=
    bindR (canonicalizeActionPayload payload) (fun canonicalStr =>
    let canonicalBytes := utf8 canonicalStr in
    Ok (sha256 canonicalBytes)).

Definition computeHash (obj : JsValue) : Result jsString :=
    bindR (canonicalize obj) (fun canonicalStr =>
    let canonicalBytes := utf8 canonicalStr in
    Ok (sha256 canonicalBytes)).

End Hashing.

(* ------------------------------------------------------------------------- *)
(** ** JavaScript operators on values *)

(** [ToBoolean] *)
Definition truthy (v : JsValue) : bool :=
  match v with
  | JNull | JUndefined => false
  | JBool b => b
  | JNum x => negb (isNaN x || isZero x)
  | JStr s => negb (Str.eqb s [])
  | JArr _ | JObj _ => true
  end.

(** [a || b] *)
Definition orElse (a b : JsValue) : JsValue := if truthy a then a else b.

Definition numEqb (x y : JsNumber) : bool :=
  match x, y with
  | Zero _, Zero _ => true
  | Infinity a, Infinity b => Bool.eqb a b
  | Finite a ds n, Finite b es m =>
      Bool.eqb a b && Str.eqb ds es && (n =? m)%Z
  | _, _ => false
  end.

(** [a === b].  Arrays and objects are compared by identity; every such
    comparison in the client is between a value read from a response body and
    a literal, or between values read from two different response bodies, so
    two arrays or objects are never the same one. *)
Definition strictEq (a b : JsValue) : bool :=
  match a, b with
  | JNull, JNull => true
  | JUndefined, JUndefined => true
  | JBool x, JBool y => Bool.eqb x y
  | JNum x, JNum y => numEqb x y
  | JStr s, JStr t => Str.eqb s t
  | _, _ => false
  end.

(** [String(v)], as a template literal applies it. *)
Fixpoint toStr (v : JsValue) : jsString :=
  match v with
  | JNull => js "null"
  | JUndefined => js "undefined"
  | JBool b => if b then js "true" else js "false"
  | JNum x => toString x
  | JStr s => s
  | JArr items =>
      Str.join (js ",")
        (map (fun item =>
                match item with
                | JNull | JUndefined => []
                | _ => toStr item
                end) items)
  | JObj _ => js "[object Object]"
  end.

(** [typeof v === "object"] *)
Definition typeofObject (v : JsValue) : bool :=
  match v with
  | JNull | JArr _ | JObj _ => true
  | _ => false
  end.

(** [v.name] for the property names the client reads (none of them is
    inherited or built in): own properties of an object, [undefined] on any
    other value. *)
Definition prop (v : JsValue) (name : string) : JsValue :=
  match v with
  | JObj props => lookup (js name) props
  | _ => JUndefined
  end.

(** [v.name] where [v] may be [null] or [undefined], which throws. *)
Definition getProp (v : JsValue) (name : string) : Result JsValue :=
  match v with
  | JNull | JUndefined => Throw TypeError
  | _ => Ok (prop v name)
  end.

(** [v?.name] *)
Definition optProp (v : JsValue) (name : string) : JsValue :=
  match v with
  | JNull | JUndefined => JUndefined
  | _ => prop v name
  end.

(* ------------------------------------------------------------------------- *)
(** ** client.ts: configuration *)

(** An installed instrumentation function, known by its identity. *)
Inductive Callback := CallbackId (id : nat).

(** [ClientConfig]; [None] is an absent field ([undefined], and for the
    numeric fields also NaN, which behaves the same in every use). *)
Record ClientConfig := {
  baseUrl : option jsString;
  token : option jsString;
  timeoutMs : option Z;
  maxRetries : option Z;
  retryBackoffFactor : option Q;
  onRequestStart : option Callback;
  onRequestEnd : option Callback;
  onError : option Callback
}.

Definition noOptions : ClientConfig :=
  {| baseUrl := None; token := None; timeoutMs := None; maxRetries := None;
     retryBackoffFactor := None; onRequestStart := None; onRequestEnd := None;
     onError := None |}.

(** [process.env] *)
Record Env := {
  FARAMESH_BASE_URL : option jsString;
  FARA_API_BASE : option jsString;
  FARAMESH_TOKEN : option jsString;
  FARA_AUTH_TOKEN : option jsString;
  FARAMESH_RETRIES : option jsString;
  FARAMESH_RETRY_BACKOFF : option jsString
}.

(** [a || b] on optional strings, integers, rationals and functions. *)
Definition strOr (a b : option jsString) : option jsString :=
  match a with
  | Some (_ :: _) => a
  | _ => b
  end.

Definition intOr (a b : option Z) : option Z :=
  match a with
  | Some 0%Z | None => b
  | Some _ => a
  end.

Definition ratOr (a b : option Q) : option Q :=
  match a with
  | Some q => if Qeq_bool q 0 then b else a
  | None => b
  end.

Definition cbOr (a b : option Callback) : option Callback :=
  match a with
  | Some _ => a
  | None => b
  end.

Definition orDefault (a : option jsString) (d : jsString) : jsString :=
  match strOr a (Some d) with
  | Some s => s
  | None => d
  end.

Inductive Method := GET | POST | PUT | DELETE.

Definition methodEqb (a b : Method) : bool :=
  match a, b with
  | GET, GET | POST, POST | PUT, PUT | DELETE, DELETE => true
  | _, _ => false
  end.

(** What one physical attempt of the transport ([client.request]) gives:
    a response the transport accepts (2xx), a rejection with an AxiosError
    (with the response, when one arrived), or any other error. *)
Inductive Outcome :=
| Resolved (status : N) (data : JsValue)
| RejectedAxios (response : option (N * JsValue)) (code : option jsString)
    (message : jsString)
| RejectedOther (message : jsString).

(** What the client does to the outside, in order. *)
Inductive Event :=
| EvRequest (method : Method) (url : jsString) (data params : JsValue)
| EvSleep (ms : option Q)
| EvRequestStart (cb : Callback) (method : Method) (fullUrl : jsString)
| EvRequestEnd (cb : Callback) (method : Method) (fullUrl : jsString)
    (statusCode : N) (durationMs : Z)
| EvError (cb : Callback) (error : Exn).

Record World := {
  globalConfig : option ClientConfig;
  attempts : nat;        (* physical requests issued so far *)
  clockReads : nat;      (* calls of Date.now() so far *)
  log : list Event       (* oldest first *)
}.

(** Computations of the client: state passing over [World], with [throw]. *)
Definition M (A : Type) : Type := World -> Result A * World.

Definition ret {A} (a : A) : M A := fun w => (Ok a, w).
Definition throw {A} (e : Exn) : M A := fun w => (Throw e, w).
Definition lift {A} (r : Result A) : M A := fun w => (r, w).

Definition bind {A B} (m : M A) (k : A -> M B) : M B :=
  fun w =>
    match m w with
    | (Ok a, w') => k a w'
    | (Throw e, w') => (Throw e, w')
    end.

(** [try { body } catch (error) { handler }] *)
Definition tryCatch {A} (body : M A) (handler : Exn -> M A) : M A :=
  fun w =>
    match body w with
    | (Ok a, w') => (Ok a, w')
    | (Throw e, w') => handler e w'
    end.

Declare Scope client_scope.
Delimit Scope client_scope with client.
Notation "x <- m ;; k" := (bind m (fun x => k))
  (at level 61, m at next level, right associativity) : client_scope.
Notation "m ;;; k" := (bind m (fun _ => k))
  (at level 61, right associativity) : client_scope.
Open Scope client_scope.

Definition emit (ev : Event) : M unit :=
  fun w =>
    (Ok tt,
     {| globalConfig := globalConfig w; attempts := attempts w;
        clockReads := clockReads w; log := log w ++ [ev] |}).

(** [if (cb) { try { cb(...) } catch (e) {} }]: a callback never changes the
    flow of the request. *)
Definition notify (cb : option Callback) (ev : Callback -> Event) : M unit :=
  match cb with
  | Some c => emit (ev c)
  | None => ret tt
  end.

(** The message of a caught error; the engine's own errors do not occur as
    transport rejections. *)
Definition exnMessage (e : Exn) : jsString :=
  match e with
  | CanonicalizeError m | OtherError m | Faramesh _ m _ | AxiosError _ _ m => m
  | SyntaxError | TypeError => []
  end.

Definition numStr (n : option Z) : jsString :=
  match n with
  | Some z => decimalOfZ z
  | None => js "NaN"
  end.

Section Client.

  (** The surroundings of the client: the process environment, the built-in
      [parseFloat] (its result as an exact rational, [None] for NaN), the
      outcome of the i-th physical request, and the i-th reading of the
      clock. *)
Variable env : Env.
Variable parseFloat : jsString -> option Q.
Variable transport : nat -> Outcome.
Variable clock : nat -> Z.

  (** The object literal that [configure] assigns to [globalConfig]. *)
Definition configured (options : ClientConfig)
      (existingConfig : option ClientConfig) : ClientConfig :=
    {| baseUrl :=
         strOr (baseUrl options)
           (strOr (FARAMESH_BASE_URL env)
              (strOr (FARA_API_BASE env) (Some (js "http://127.0.0.1:8000"))));
       token :=
         strOr (token options) (strOr (FARAMESH_TOKEN env) (FARA_AUTH_TOKEN env));
       timeoutMs := intOr (timeoutMs options) (Some 30000%Z);
       maxRetries :=
         intOr (maxRetries options)
           (parseInt (orDefault (FARAMESH_RETRIES env) (js "3")));
       retryBackoffFactor :=
         ratOr (retryBackoffFactor options)
           (parseFloat (orDefault (FARAMESH_RETRY_BACKOFF env) (js "0.5")));
       onRequestStart :=
         cbOr (onRequestStart options)
           (match existingConfig with
            | Some c => onRequestStart c
            | None => None
            end);
       onRequestEnd :=
         cbOr (onRequestEnd options)
           (match existingConfig with
            | Some c => onRequestEnd c
            | None => None
            end);
       onError :=
         cbOr (onError options)
           (match existingConfig with
            | Some c => onError c
            | None => None
            end) |}.

Definition configure (options : ClientConfig) : M unit :=
    fun w =>
      let existingConfig := globalConfig w in
      (Ok tt,
       {| globalConfig := Some (configured options existingConfig);
          attempts := attempts w; clockReads := clockReads w; log := log w |}).

Definition getConfig : M ClientConfig :=
    fun w =>
      match globalConfig w with
      | Some c => (Ok c, w)
      | None =>
          match configure noOptions w with
          | (_, w') =>
              match globalConfig w' with
              | Some c => (Ok c, w')
              | None => (Throw TypeError, w')
              end
          end
      end.

  (** [Date.now()] *)
Definition now : M Z :=
    fun w =>
      (Ok (clock (clockReads w)),
       {| globalConfig := globalConfig w; attempts := attempts w;
          clockReads := S (clockReads w); log := log w |}).

  (** [await new Promise((resolve) => setTimeout(resolve, ms))] *)
Definition sleep (ms : option Q) : M unit := emit (EvSleep ms).

  (** [await client.request({ method, url, data, params })]; the axios
      instance of [createAxiosInstance] is part of the transport. *)
Definition request (method : Method) (url : jsString) (data params : JsValue)
    : M (N * JsValue) :=
    fun w =>
      let w' :=
        {| globalConfig := globalConfig w; attempts := S (attempts w);
           clockReads := clockReads w;
           log := log w ++ [EvRequest method url data params] |} in
      match transport (attempts w) with
      | Resolved status data => (Ok (status, data), w')
      | RejectedAxios response code message =>
          (Throw (AxiosError response code message), w')
      | RejectedOther message => (Throw (OtherError message), w')
      end.

  (** [config.retryBackoffFactor * Math.pow(2, attempt) * 1000], in exact
      rational arithmetic. *)
Definition waitTime (config : ClientConfig) (attempt : nat) : option Q :=
    match retryBackoffFactor config with
    | Some f => Some (f * inject_Z (2 ^ Z.of_nat attempt) * inject_Z 1000)%Q
    | None => None
    end.

  (** [attempt < config.maxRetries] *)
Definition retriesLeft (config : ClientConfig) (attempt : nat) : bool :=
    match maxRetries config with
    | Some m => (Z.of_nat attempt <? m)%Z
    | None => false
    end.

  (** [maxRetries + 1] as a number of iterations of the attempt loop *)
Definition attemptBound (config : ClientConfig) : nat :=
    match maxRetries config with
    | Some m => Z.to_nat (m + 1)
    | None => 0
    end.

Section MakeRequest.

Variable config : ClientConfig.
Variable method : Method.
Variable path : jsString.
Variable fullUrl : jsString.
Variable startTime : Z.

    (** The two policy-denial branches share this tail. *)
Definition denyByPolicy (status : N) (durationMs : Z)
        (responseData : JsValue) : M JsValue :=
      let error :=
        Faramesh FarameshPolicyError
          (toStr (orElse (prop responseData "reason")
                    (JStr (js "Action denied by policy")))) None in
      notify (onError config) (fun cb => EvError cb error) ;;;
      notify (onRequestEnd config)
        (fun cb => EvRequestEnd cb method fullUrl status durationMs) ;;;
      throw error.

    (** The [try] block from the response on. *)
Definition onResponse (status : N) (responseData : JsValue) : M JsValue :=
      t <- now ;;
      let durationMs := (t - startTime)%Z in
      if methodEqb method POST && Str.eqb path (js "/v1/actions")
         && truthy responseData && typeofObject responseData
      then
        if strictEq (prop responseData "status") (JStr (js "denied")) then
          denyByPolicy status durationMs responseData
        else if strictEq (prop responseData "decision") (JStr (js "deny"))
                && negb (strictEq (prop responseData "status")
                           (JStr (js "pending_approval")))
        then denyByPolicy status durationMs responseData
        else
          notify (onRequestEnd config)
            (fun cb => EvRequestEnd cb method fullUrl status durationMs) ;;;
          ret responseData
      else
        notify (onRequestEnd config)
          (fun cb => EvRequestEnd cb method fullUrl status durationMs) ;;;
        ret responseData.

    (** [throw err] after the two callbacks, as the terminal branches do. *)
Definition surface (err : Exn) (statusCode : N) (durationMs : Z)
      : M (option Exn) :=
      notify (onError config) (fun cb => EvError cb err) ;;;
      notify (onRequestEnd config)
        (fun cb => EvRequestEnd cb method fullUrl statusCode durationMs) ;;;
      throw err.

Definition responseStatus (response : option (N * JsValue)) : option N :=
      option_map fst response.

Definition responseData (response : option (N * JsValue)) : JsValue :=
      match response with
      | Some (_, d) => d
      | None => JUndefined
      end.

Definition statusIs (response : option (N * JsValue)) (code : N) : bool :=
      match response with
      | Some (s, _) => s =? code
      | None => false
      end.

Definition codeIs (code : option jsString) (name : string) : bool :=
      match code with
      | Some c => Str.eqb c (js name)
      | None => false
      end.

    (** The unknown-error tail of the [catch] clause: remember the error and,
        when attempts are left, wait. *)
Definition retryUnknown (attempt : nat) (error : Exn) : M (option Exn) :=
      if retriesLeft config attempt then
        sleep (waitTime config attempt) ;;;
        ret (Some error)
      else ret (Some error).

    (** The [catch] clause.  It throws, or ends the iteration with the new
        value of [lastError]. *)
Definition onCatch (attempt : nat) (error : Exn) : M (option Exn) :=
      t <- now ;;
      let durationMs := (t - startTime)%Z in
      match error with
      | AxiosError response code message =>
          if statusIs response 401 then
            surface
              (Faramesh FarameshAuthError
                 (js "Authentication failed (401) on " ++ path ++ js ": "
                    ++ toStr (orElse (responseData response) (JStr message)))
                 (Some 401)) 401 durationMs
          else if statusIs response 404 then
            surface
              (Faramesh FarameshNotFoundError
                 (js "Resource not found (404) on " ++ path) (Some 404))
              404 durationMs
          else if statusIs response 422 then
            let detail :=
              orElse (optProp (responseData response) "detail")
                (orElse (responseData response) (JStr message)) in
            surface
              (Faramesh FarameshValidationError
                 (js "Validation error (422) on " ++ path ++ js ": "
                    ++ toStr detail) (Some 422)) 422 durationMs
          else if retriesLeft config attempt
                  && match responseStatus response with
                     | Some s => 500 <=? s
                     | None => false
                     end
          then
            let err :=
              Faramesh FarameshServerError
                (js "Server error ("
                   ++ decimalOfN (match responseStatus response with
                                  | Some s => s
                                  | None => 0
                                  end)
                   ++ js ") on " ++ path ++ js ": " ++ message) (Some 500) in
            notify (onError config) (fun cb => EvError cb err) ;;;
            sleep (waitTime config attempt) ;;;
            ret (Some error)
          else if codeIs code "ECONNABORTED"
                  || Str.includes message (js "timeout")
          then
            surface
              (Faramesh FarameshTimeoutError
                 (js "Request timed out after " ++ numStr (timeoutMs config)
                    ++ js "ms: " ++ fullUrl) None) 0 durationMs
          else
            (* The branch for ECONNREFUSED, ENOTFOUND and ETIMEDOUT builds a
               FarameshConnectionError and does nothing with it; control
               falls into "Other HTTP errors". *)
            let status :=
              match responseStatus response with
              | Some s => s
              | None => 0
              end in
            let msg :=
              orElse (optProp (responseData response) "detail")
                (orElse (responseData response) (JStr message)) in
            throw (Faramesh FarameshError
                     (js "Request failed: " ++ toStr msg) (Some status))
      | Faramesh FarameshAuthError _ _
      | Faramesh FarameshNotFoundError _ _
      | Faramesh FarameshPolicyError _ _
      | Faramesh FarameshValidationError _ _
      | Faramesh FarameshTimeoutError _ _
      | Faramesh FarameshConnectionError _ _ => throw error
      | _ => retryUnknown attempt error
      end.

    (** What one iteration of the [for] loop leaves behind. *)
Inductive Step :=
    | Done (responseData : JsValue)
    | Next (lastError : option Exn).

Definition iteration (data params : JsValue) (url : jsString)
        (attempt : nat) : M Step :=
      tryCatch
        (response <- request method url data params ;;
         d <- onResponse (fst response) (snd response) ;;
         ret (Done d))
        (fun error =>
           lastError <- onCatch attempt error ;;
           ret (Next lastError)).

    (** After the loop. *)
Definition afterLoop (lastError : option Exn) : M JsValue :=
      match lastError with
      | Some e =>
          throw (Faramesh FarameshError
                   (js "Request failed after "
                      ++ numStr (option_map Z.succ (maxRetries config))
                      ++ js " attempts: " ++ exnMessage e) None)
      | None =>
          t <- now ;;
          let durationMs := (t - startTime)%Z in
          let err :=
            Faramesh FarameshError
              (js "Request failed after "
                 ++ numStr (option_map Z.succ (maxRetries config))
                 ++ js " attempts on " ++ path) None in
          notify (onError config) (fun cb => EvError cb err) ;;;
          notify (onRequestEnd config)
            (fun cb => EvRequestEnd cb method fullUrl 0 durationMs) ;;;
          throw err
      end.

    (** [for (let attempt = 0; attempt <= config.maxRetries; attempt++)],
        with [remaining] iterations to go. *)
Fixpoint attemptLoop (data params : JsValue) (url : jsString)
        (remaining attempt : nat) (lastError : option Exn) : M JsValue :=
      match remaining with
      | O => afterLoop lastError
      | S remaining' =>
          step <- iteration data params url attempt ;;
          match step with
          | Done d => ret d
          | Next lastError' =>
              attemptLoop data params url remaining' (S attempt) lastError'
          end
      end.

End MakeRequest.

Definition makeRequest (method : Method) (path : jsString)
    (data params : JsValue) : M JsValue :=
  config <- getConfig ;;
  let url := if Str.startsWith path (js "/") then path else js "/" ++ path in
  let fullUrl :=
    match baseUrl config with
    | Some b => b
    | None => js "undefined"
    end ++ url in
  notify (onRequestStart config) (fun cb => EvRequestStart cb method fullUrl) ;;;
  startTime <- now ;;
  attemptLoop config method path fullUrl startTime data params url
    (attemptBound config) 0 None.

Definition getAction (actionId : jsString) : M JsValue :=
  makeRequest GET (js "/v1/actions/" ++ actionId) JUndefined JUndefined.

(** [ListActionsOptions] *)
Record ListActionsOptions := {
  lo_limit : option Z;
  lo_offset : option Z;
  lo_agent_id : option jsString;
  lo_tool : option jsString;
  lo_status : option jsString
}.

(** An integer as a number value: its decimal digits without the trailing
    zeros, and their full count as the exponent. *)
Fixpoint dropLeadingZeros (ds : list N) : list N :=
  match ds with
  | 0 :: rest => dropLeadingZeros rest
  | _ => ds
  end.

Definition intValue (z : Z) : JsValue :=
  let ds := map (fun u => u - 48) (decimalOfN (Z.to_N (Z.abs z))) in
  match z with
  | Z0 => JNum (Zero false)
  | _ =>
      JNum (Finite (z <? 0)%Z (rev (dropLeadingZeros (rev ds)))
              (Z.of_nat (List.length ds)))
  end.

Definition optField (name : string) (v : option jsString)
  : list (jsString * JsValue) :=
  match strOr v None with
  | Some s => [(js name, JStr s)]
  | None => []
  end.

Definition listActions (options : ListActionsOptions) : M JsValue :=
  let params :=
    JObj ([ (js "limit",
             match intOr (lo_limit options) (Some 20%Z) with
             | Some z => intValue z
             | None => JUndefined
             end);
            (js "offset",
             match intOr (lo_offset options) (Some 0%Z) with
             | Some z => intValue z
             | None => JUndefined
             end) ]
          ++ optField "agent_id" (lo_agent_id options)
          ++ optField "tool" (lo_tool options)
          ++ optField "status" (lo_status options)) in
  response <- makeRequest GET (js "/v1/actions") JUndefined params ;;
  match response with
  | JArr _ => ret response
  | _ =>
      actions <- lift (getProp response "actions") ;;
      ret (orElse actions (JArr []))
  end.

(** The body of the approval request: [{ token, approve, ...(reason ? { reason } : {}) }] *)
Definition approvalPayload (token : JsValue) (approve : bool)
    (reason : JsValue) : JsValue :=
  JObj ([ (js "token", token); (js "approve", JBool approve) ]
        ++ if truthy reason then [(js "reason", reason)] else []).

Definition notPendingMessage (actionId : jsString) (status : JsValue)
  : jsString :=
  js "Action " ++ actionId ++ js " is not pending approval (status: "
    ++ toStr status ++ js ")".

Definition approveAction (actionId : jsString) (token reason : JsValue)
  : M JsValue :=
  token <-
    (if negb (truthy token) then
       action <- getAction actionId ;;
       status <- lift (getProp action "status") ;;
       if negb (strictEq status (JStr (js "pending_approval"))) then
         throw (Faramesh FarameshError (notPendingMessage actionId status) None)
       else
         approval_token <- lift (getProp action "approval_token") ;;
         if negb (truthy approval_token) then
           throw (Faramesh FarameshError
                    (js "Approval token not found for action " ++ actionId)
                    None)
         else ret approval_token
     else ret token) ;;
  let payload := approvalPayload token true reason in
  makeRequest POST (js "/v1/actions/" ++ actionId ++ js "/approval") payload
    JUndefined.

Definition denyAction (actionId : jsString) (token reason : JsValue)
  : M JsValue :=
  token <-
    (if negb (truthy token) then
       action <- getAction actionId ;;
       status <- lift (getProp action "status") ;;
       if negb (strictEq status (JStr (js "pending_approval"))) then
         throw (Faramesh FarameshError (notPendingMessage actionId status) None)
       else
         approval_token <- lift (getProp action "approval_token") ;;
         if negb (truthy approval_token) then
           throw (Faramesh FarameshError
                    (js "Approval token not found for action " ++ actionId)
                    None)
         else ret approval_token
     else ret token) ;;
  let payload := approvalPayload token false reason in
  makeRequest POST (js "/v1/actions/" ++ actionId ++ js "/approval") payload
    JUndefined.

(** The [while (true)] loop of [blockUntilApproved], run for at most [fuel]
    iterations; [None] when the loop is still polling after them. *)
Fixpoint blockLoop (actionId : jsString) (pollIntervalMs timeoutMs : Z)
    (startTime : Z) (fuel : nat) : M (option JsValue) :=
  match fuel with
  | O => ret None
  | S fuel' =>
      t <- now ;;
      let elapsed := (t - startTime)%Z in
      if (timeoutMs <? elapsed)%Z then
        throw (Faramesh FarameshTimeoutError
                 (js "Timeout waiting for approval after "
                    ++ decimalOfZ timeoutMs ++ js "ms") None)
      else
        action <- getAction actionId ;;
        status <- lift (getProp action "status") ;;
        if strictEq status (JStr (js "approved")) then ret (Some action)
        else if strictEq status (JStr (js "denied")) then
          reason <- lift (getProp action "reason") ;;
          let reason := orElse reason (JStr (js "Action denied")) in
          throw (Faramesh FarameshDeniedError
                   (js "Action denied: " ++ toStr reason) None)
        else if strictEq status (JStr (js "allowed"))
                || strictEq status (JStr (js "succeeded"))
                || strictEq status (JStr (js "failed"))
        then ret (Some action)
        else
          sleep (Some (inject_Z pollIntervalMs)) ;;;
          blockLoop actionId pollIntervalMs timeoutMs startTime fuel'
  end.

Definition blockUntilApproved (actionId : jsString)
    (pollIntervalMsOpt timeoutMsOpt : option Z) (fuel : nat)
  : M (option JsValue) :=
  let pollIntervalMs :=
    match intOr pollIntervalMsOpt (Some 2000%Z) with
    | Some z => z
    | None => 2000%Z
    end in
  let timeoutMs :=
    match intOr timeoutMsOpt (Some 300000%Z) with
    | Some z => z
    | None => 300000%Z
    end in
  startTime <- now ;;
  blockLoop actionId pollIntervalMs timeoutMs startTime fuel.

Definition gateDecide (agentId tool operation params context : JsValue)
  : M JsValue :=
  let payload :=
    JObj [ (js "agent_id", agentId); (js "tool", tool);
           (js "operation", operation); (js "params", params);
           (js "context", context) ] in
  makeRequest POST (js "/v1/gate/decide") payload JUndefined.

(** [ReplayResult] *)
Record ReplayResult := {
  success : bool;
  originalOutcome : JsValue;
  replayedOutcome : JsValue;
  originalReasonCode : JsValue;
  replayedReasonCode : JsValue;
  requestHashMatch : bool;
  policyHashMatch : bool;
  profileHashMatch : bool;
  runtimeVersionMatch : bool;
  mismatches : list jsString
}.

(** [if (!match) { mismatches.push(entry) }] *)
Definition pushUnless (matches : bool) (entry : jsString)
    (mismatches : list jsString) : list jsString :=
  if matches then mismatches else mismatches ++ [entry].

(** "Compare results" in [replayDecision], on two objects. *)
Definition compareDecisions (original replayed : JsValue) : ReplayResult :=
  let mismatches := [] in
  let originalOutcome := orElse (prop original "outcome") (JStr []) in
  let replayedOutcome := orElse (prop replayed "outcome") (JStr []) in
  let mismatches :=
    pushUnless (strictEq originalOutcome replayedOutcome)
      (js "outcome: " ++ toStr originalOutcome ++ js " != "
         ++ toStr replayedOutcome) mismatches in
  let originalReasonCode := orElse (prop original "reason_code") (JStr []) in
  let replayedReasonCode := orElse (prop replayed "reason_code") (JStr []) in
  let mismatches :=
    pushUnless (strictEq originalReasonCode replayedReasonCode)
      (js "reason_code: " ++ toStr originalReasonCode ++ js " != "
         ++ toStr replayedReasonCode) mismatches in
  let requestHashMatch :=
    strictEq (prop original "request_hash") (prop replayed "request_hash") in
  let mismatches :=
    pushUnless requestHashMatch (js "request_hash mismatch") mismatches in
  let policyHashMatch :=
    strictEq (prop original "policy_hash") (prop replayed "policy_hash") in
  let mismatches :=
    pushUnless policyHashMatch
      (js "policy_hash mismatch (policy may have changed)") mismatches in
  let profileHashMatch :=
    strictEq (prop original "profile_hash") (prop replayed "profile_hash") in
  let mismatches :=
    pushUnless profileHashMatch
      (js "profile_hash mismatch (profile may have changed)") mismatches in
  let runtimeVersionMatch :=
    strictEq (prop original "runtime_version")
      (prop replayed "runtime_version") in
  let mismatches :=
    pushUnless runtimeVersionMatch
      (js "runtime_version: " ++ toStr (prop original "runtime_version")
         ++ js " != " ++ toStr (prop replayed "runtime_version")) mismatches in
  {| success := (List.length mismatches =? 0)%nat;
     originalOutcome := originalOutcome;
     replayedOutcome := replayedOutcome;
     originalReasonCode := originalReasonCode;
     replayedReasonCode := replayedReasonCode;
     requestHashMatch := requestHashMatch;
     policyHashMatch := policyHashMatch;
     profileHashMatch := profileHashMatch;
     runtimeVersionMatch := runtimeVersionMatch;
     mismatches := mismatches |}.

(** [actions.filter((a) => a.provenance_id === provenanceId)] *)
Fixpoint filterByProvenance (provenanceId : jsString) (actions : list JsValue)
  : Result (list JsValue) :=
  match actions with
  | [] => Ok []
  | a :: rest =>
      bindR (getProp a "provenance_id") (fun p =>
      bindR (filterByProvenance provenanceId rest) (fun matches =>
      Ok (if strictEq p (JStr provenanceId) then a :: matches else matches)))
  end.

Definition replayDecision (actionId provenanceId : option jsString)
  : M ReplayResult :=
  match strOr actionId None, strOr provenanceId None with
  | None, None =>
      throw (Faramesh FarameshError
               (js "Must provide either actionId or provenanceId") None)
  | _, _ =>
      original <-
        match strOr provenanceId None with
        | Some pid =>
            actions <-
              listActions {| lo_limit := Some 1000%Z; lo_offset := None;
                             lo_agent_id := None; lo_tool := None;
                             lo_status := None |} ;;
            match actions with
            | JArr items =>
                matches <- lift (filterByProvenance pid items) ;;
                match matches with
                | [] =>
                    throw (Faramesh FarameshNotFoundError
                             (js "No action found with provenance_id '" ++ pid
                                ++ js "'") (Some 404))
                | first :: _ => ret first
                end
            | _ => throw TypeError
            end
        | None =>
            getAction (match actionId with Some a => a | None => [] end)
        end ;;
      agent_id <- lift (getProp original "agent_id") ;;
      replayed <-
        gateDecide agent_id (prop original "tool") (prop original "operation")
          (orElse (prop original "params") (JObj []))
          (orElse (prop original "context") (JObj [])) ;;
      _ <- lift (getProp replayed "outcome") ;;
      ret (compareDecisions original replayed)
  end.

End Client.

(* ------------------------------------------------------------------------- *)
(** ** Vocabulary of the statements *)

(** The order of the default sort, as a relation. *)
Definition str_le (s t : jsString) : Prop := Str.leb s t = true.


(** Code units of decimal digits. *)
Definition isDigitUnit (c : N) : Prop := 48 <= c <= 57.

Definition digitOrDot (c : N) : Prop := isDigitUnit c \/ c = 46.

(** What [normalizeFloat] builds before the sign: digits and at most a dot,
    a digit in front, and, when there is a dot, the given digit at the end. *)
Definition plainShape (lastUnit : N) (body : jsString) : Prop :=
  Forall digitOrDot body /\
  (exists c rest, body = c :: rest /\ isDigitUnit c) /\
  (In 46 body -> last body 0 = lastUnit).

(** The mantissa and the exponent part that [toString] writes in exponent
    form for the digits [ds] and the exponent [n]. *)
Definition mantissaOf (ds : list N) : jsString :=
  match digitUnits ds with
  | [] => []
  | [d] => [d]
  | d :: rest => d :: 46 :: rest
  end.

Definition exponentPart (n : Z) : jsString :=
  (if (n - 1 <? 0)%Z then 45 else 43)
    :: decimalOfN (Z.to_N (Z.abs (n - 1))).

Definition signPrefix (neg : bool) : jsString := if neg then [45] else [].

(** What a run of the client did, read off its log. *)
Definition sleepsOf (l : list Event) : list (option Q) :=
  flat_map (fun ev => match ev with EvSleep ms => [ms] | _ => [] end) l.

Definition requestsOf (l : list Event) : list (Method * jsString * JsValue) :=
  flat_map (fun ev =>
              match ev with
              | EvRequest m url data _ => [(m, url, data)]
              | _ => []
              end) l.

(** A response of the submission endpoint that [makeRequest] turns into a
    policy rejection. *)
Definition isPolicyDenial (method : Method) (path : jsString)
    (responseData : JsValue) : bool :=
  methodEqb method POST && Str.eqb path (js "/v1/actions")
  && truthy responseData && typeofObject responseData
  && (strictEq (prop responseData "status") (JStr (js "denied"))
      || (strictEq (prop responseData "decision") (JStr (js "deny"))
          && negb (strictEq (prop responseData "status")
                     (JStr (js "pending_approval"))))).

(** A rejection that carries a response with a 5xx status. *)
Definition isServerError (o : Outcome) : Prop :=
  exists s d code message,
    o = RejectedAxios (Some (s, d)) code message /\ 500 <= s.

(** The wait before the retry that follows attempt [i], in milliseconds:
    [backoffFactor * 2^i] seconds. *)
Definition backoffMs (factor : Q) (i : nat) : option Q :=
  Some (factor * inject_Z (2 ^ Z.of_nat i) * inject_Z 1000)%Q.

(** Fixtures: an empty environment, a fresh process, a fixed clock. *)
Definition noEnv : Env :=
  {| FARAMESH_BASE_URL := None; FARA_API_BASE := None; FARAMESH_TOKEN := None;
     FARA_AUTH_TOKEN := None; FARAMESH_RETRIES := None;
     FARAMESH_RETRY_BACKOFF := None |}.

Definition freshWorld : World :=
  {| globalConfig := None; attempts := 0; clockReads := 0; log := [] |}.

Definition parseHalf (s : jsString) : option Q :=
  if Str.eqb s (js "0.5") then Some (1 # 2)%Q else None.

Definition stoppedClock (i : nat) : Z := 0%Z.

(** A callback leaves the configuration, the count of attempts and the
    sleeps as they are. *)
Definition sameRun (w w' : World) : Prop :=
  globalConfig w' = globalConfig w /\ attempts w' = attempts w /\
  sleepsOf (log w') = sleepsOf (log w).


(** The generic error that any other failed attempt is surfaced as. *)
Definition requestFailed (response : option (N * JsValue))
    (message : jsString) : Exn :=
  Faramesh FarameshError
    (js "Request failed: "
       ++ toStr (orElse (optProp (responseData response) "detail")
                   (orElse (responseData response) (JStr message))))
    (Some (match response with Some (s, _) => s | None => 0 end)).

(** An AxiosError that the [catch] clause reads as a timeout. *)
Definition looksLikeTimeout (code : option jsString) (message : jsString)
  : bool :=
  codeIs code "ECONNABORTED" || Str.includes message (js "timeout").

(** A stretch of a run that issued [n] physical requests and slept the waits
    [sl], in this order, under an unchanged configuration. *)
Definition ranWith (n : nat) (sl : list (option Q)) (w w' : World) : Prop :=
  globalConfig w' = globalConfig w /\
  attempts w' = (attempts w + n)%nat /\
  sleepsOf (log w') = sleepsOf (log w) ++ sl.

(** What an attempt's outcome is to the [try] block. *)
Definition outcomeResult (o : Outcome) : Result (N * JsValue) :=
  match o with
  | Resolved status data => Ok (status, data)
  | RejectedAxios response code message =>
      Throw (AxiosError response code message)
  | RejectedOther message => Throw (OtherError message)
  end.

(** The configuration of a process that never called [configure], and a
    world that has it installed. *)
Definition defaultConfig : ClientConfig := configured noEnv parseHalf noOptions None.

Definition readyWorld : World :=
  {| globalConfig := Some defaultConfig; attempts := 0; clockReads := 0;
     log := [] |}.


(** A transport that cannot connect. *)
Definition refusedTransport (i : nat) : Outcome :=
  RejectedAxios None (Some (js "ECONNREFUSED"))
    (js "connect ECONNREFUSED 127.0.0.1:8000").

Definition unresolvedTransport (i : nat) : Outcome :=
  RejectedAxios None (Some (js "ENOTFOUND"))
    (js "getaddrinfo ENOTFOUND faramesh.invalid").

(* ------------------------------------------------------------------------- *)
(** ** Further functions of client.ts, snapshot.ts and policy.ts *)

(** [verifyRequestHash(payload, expectedHash)] *)
Definition verifyRequestHash (sha256 : list N -> jsString)
    (payload : list (jsString * JsValue)) (expectedHash : jsString)
  : Result bool :=
  bindR (computeRequestHash sha256 payload) (fun computed =>
  Ok (Str.eqb computed expectedHash)).

(** The value of a lower-case hexadecimal digit. *)
Definition hexDigitValue (c : N) : option N :=
  if (48 <=? c) && (c <=? 57) then Some (c - 48)
  else if (97 <=? c) && (c <=? 102) then Some (c - 87)
  else None.

(** Reading back the body of a JSON string literal up to its closing quote,
    as [JSON.parse] reads the escapes that [serializeString] writes. *)
Fixpoint readStringBody (s : jsString) : option jsString :=
  match s with
  | [] => None
  | 34 :: rest => match rest with [] => Some [] | _ => None end
  | 92 :: rest =>
      match rest with
      | 34 :: rest' => option_map (cons 34) (readStringBody rest')
      | 92 :: rest' => option_map (cons 92) (readStringBody rest')
      | 98 :: rest' => option_map (cons 8) (readStringBody rest')
      | 102 :: rest' => option_map (cons 12) (readStringBody rest')
      | 110 :: rest' => option_map (cons 10) (readStringBody rest')
      | 114 :: rest' => option_map (cons 13) (readStringBody rest')
      | 116 :: rest' => option_map (cons 9) (readStringBody rest')
      | 117 :: a :: b :: c :: d :: rest' =>
          match hexDigitValue a, hexDigitValue b, hexDigitValue c,
                hexDigitValue d with
          | Some x3, Some x2, Some x1, Some x0 =>
              option_map (cons (x3 * 4096 + x2 * 256 + x1 * 16 + x0))
                (readStringBody rest')
          | _, _, _, _ => None
          end
      | _ => None
      end
  | c :: rest => option_map (cons c) (readStringBody rest)
  end.

Definition readString (s : jsString) : option jsString :=
  match s with
  | 34 :: body => readStringBody body
  | _ => None
  end.

(** A code unit that [serializeString] writes as it is. *)
Definition isPlainUnit (c : N) : Prop := 32 <= c /\ c <> 34 /\ c <> 92.

Definition isUndefined (v : JsValue) : bool :=
  match v with JUndefined => true | _ => false end.


(** The [url] and [fullUrl] that [makeRequest] computes from its path. *)
Definition urlOf (path : jsString) : jsString :=
  if Str.startsWith path (js "/") then path else js "/" ++ path.

Definition fullUrlOf (config : ClientConfig) (path : jsString) : jsString :=
  match baseUrl config with
  | Some b => b
  | None => js "undefined"
  end ++ urlOf path.

(** An attempt that [makeRequest] answers with a wait and another attempt
    while attempts are left: a 5xx response, or an error that is not an
    AxiosError. *)
Definition isTransient (o : Outcome) : Prop :=
  isServerError o \/ exists message, o = RejectedOther message.

(** An error of the SDK's own classes. *)
Definition isFarameshExn (e : Exn) : Prop :=
  match e with
  | Faramesh _ _ _ => True
  | _ => False
  end.


(** The error that a policy denial of the submission endpoint is raised as. *)
Definition policyError (responseData : JsValue) : Exn :=
  Faramesh FarameshPolicyError
    (toStr (orElse (prop responseData "reason")
              (JStr (js "Action denied by policy")))) None.



Definition denyingTransport (i : nat) : Outcome :=
  Resolved 200
    (JObj [ (js "id", JStr (js "a1")); (js "status", JStr (js "denied"));
            (js "reason", JStr (js "too risky")) ]).

Definition brokenTransport (i : nat) : Outcome :=
  RejectedOther (js "socket hang up").

(** What one pass through the [catch] clause, or through the response branch,
    may do: no request, and at most the one wait of a retry. *)
Definition handled (config : ClientConfig) (attempt : nat)
    (r : Result (option Exn)) (w w' : World) : Prop :=
  globalConfig w' = globalConfig w /\
  attempts w' = attempts w /\
  requestsOf (log w') = requestsOf (log w) /\
  match r with
  | Throw e => isFarameshExn e /\ sleepsOf (log w') = sleepsOf (log w)
  | Ok _ =>
      sleepsOf (log w')
      = sleepsOf (log w)
          ++ (if retriesLeft config attempt then [waitTime config attempt]
              else [])
  end.

(** The envelope of a whole run of [makeRequest] under [m] retries: [n]
    identical physical requests and the first [j] backoff waits. *)
Definition withinBounds (config : ClientConfig) (m : nat)
    (request : Method * jsString * JsValue) (w w' : World) : Prop :=
  exists n j,
    (1 <= n <= m + 1)%nat /\ (j <= m)%nat /\ (j < n)%nat /\
    attempts w' = (attempts w + n)%nat /\
    requestsOf (log w') = requestsOf (log w) ++ List.repeat request n /\
    sleepsOf (log w')
    = sleepsOf (log w) ++ map (waitTime config) (seq 0 j).

(** A request that the server answered at once: one physical request, no
    wait, and the two readings of the clock that time it. *)
Definition answered (request : Method * jsString * JsValue) (w w' : World)
  : Prop :=
  globalConfig w' = globalConfig w /\
  attempts w' = S (attempts w) /\
  clockReads w' = (clockReads w + 2)%nat /\
  requestsOf (log w') = requestsOf (log w) ++ [request] /\
  sleepsOf (log w') = sleepsOf (log w).

(** How a call without a token goes on after the fetch of the action. *)
Definition afterFetch (actionId : jsString) (action : JsValue)
    (withToken : JsValue -> M JsValue) : M JsValue :=
  match getProp action "status" with
  | Throw e => throw e
  | Ok status =>
      if strictEq status (JStr (js "pending_approval")) then
        if truthy (prop action "approval_token")
        then withToken (prop action "approval_token")
        else throw (Faramesh FarameshError
                      (js "Approval token not found for action " ++ actionId)
                      None)
      else throw (Faramesh FarameshError (notPendingMessage actionId status)
                    None)
  end.

(** The body of an answer of the server. *)
Definition responseOf (o : Outcome) : JsValue :=
  match o with
  | Resolved _ d => d
  | _ => JUndefined
  end.

(** The statuses at which [blockUntilApproved] stops polling. *)
Definition decisive (status : JsValue) : bool :=
  strictEq status (JStr (js "approved"))
  || strictEq status (JStr (js "denied"))
  || strictEq status (JStr (js "allowed"))
  || strictEq status (JStr (js "succeeded"))
  || strictEq status (JStr (js "failed")).

(** An answer of the server after which [blockUntilApproved] polls again. *)
Definition polledAgain (o : Outcome) : Prop :=
  exists s action status,
    o = Resolved s action /\ getProp action "status" = Ok status /\
    decisive status = false.

(** The fetch of an action, as a physical request. *)
Definition fetchOf (actionId : jsString) : Method * jsString * JsValue :=
  (GET, js "/v1/actions/" ++ actionId, JUndefined).

(** The error that [blockUntilApproved] throws for a denied action. *)
Definition deniedError (action : JsValue) : Exn :=
  Faramesh FarameshDeniedError
    (js "Action denied: "
       ++ toStr (orElse (prop action "reason") (JStr (js "Action denied"))))
    None.


(** A server that answers every fetch with an action that is executing, and
    a clock that advances one second with every reading. *)
Definition executingTransport (i : nat) : Outcome :=
  Resolved 200
    (JObj [ (js "id", JStr (js "a1")); (js "status", JStr (js "executing")) ]).

Definition approvingTransport (i : nat) : Outcome :=
  match i with
  | 0%nat | 1%nat => executingTransport i
  | _ =>
      Resolved 200
        (JObj [ (js "id", JStr (js "a1")); (js "status", JStr (js "approved")) ])
  end.

Definition tickingClock (i : nat) : Z := (1000 * Z.of_nat i)%Z.


(** A server that knows the action a1 and decides its replay under another
    request hash. *)
Definition replayTransport (i : nat) : Outcome :=
  match i with
  | 0%nat =>
      Resolved 200
        (JObj [ (js "id", JStr (js "a1")); (js "agent_id", JStr (js "agent"));
                (js "tool", JStr (js "http")); (js "operation", JStr (js "get"));
                (js "outcome", JStr (js "EXECUTE"));
                (js "request_hash", JStr (js "h1")) ])
  | _ =>
      Resolved 200
        (JObj [ (js "outcome", JStr (js "EXECUTE"));
                (js "request_hash", JStr (js "h2")) ])
  end.

(* ------------------------------------------------------------------------- *)
(** ** policy.ts *)

(** [Object.keys(v).length] for a value that is neither [null] nor
    [undefined]: the own properties of an object, the indices of an array or
    of a string, nothing for a number or a boolean. *)
Definition keyCount (v : JsValue) : nat :=
  match v with
  | JObj props => List.length props
  | JArr items => List.length items
  | JStr s => List.length s
  | _ => 0
  end.

(** [v === true] *)
Definition isTrue (v : JsValue) : bool :=
  match v with
  | JBool true => true
  | _ => false
  end.

(** [errors.push(entry)] under a condition. *)
Definition pushIf (condition : bool) (entry : jsString)
    (errors : list jsString) : list jsString :=
  if condition then errors ++ [entry] else errors.

(** ["Rule ${index + 1}"] *)
Definition ruleLabel (index : nat) : jsString :=
  js "Rule " ++ decimalOfN (N.of_nat (index + 1)).

(** The callback of [policy.rules.forEach] in [validatePolicy]. *)
Definition validateRule (rule : JsValue) (index : nat)
    (errors : list jsString) : Result (list jsString) :=
  bindR (getProp rule "description") (fun description =>
  let errors :=
    pushIf (negb (truthy description))
      (ruleLabel index ++ js ": description is required") errors in
  let matchKeys := keyCount (orElse (prop rule "match") (JObj [])) in
  let errors :=
    pushIf (matchKeys =? 0)%nat
      (ruleLabel index ++ js ": match conditions cannot be empty") errors in
  let effects :=
    List.length
      (filter (fun b : bool => b)
         [ isTrue (prop rule "allow"); isTrue (prop rule "deny");
           isTrue (prop rule "require_approval") ]) in
  let errors :=
    pushIf (negb (effects =? 1)%nat)
      (ruleLabel index
         ++ js ": must have exactly one effect (allow, deny, or require_approval)")
      errors in
  Ok errors).

Fixpoint forEachRule (rules : list JsValue) (index : nat)
    (errors : list jsString) : Result (list jsString) :=
  match rules with
  | [] => Ok errors
  | rule :: rest =>
      bindR (validateRule rule index errors) (fun errors =>
      forEachRule rest (S index) errors)
  end.

(** [validatePolicy(policy)].  A value of [policy.rules] that is not an array
    has no [forEach], so the call throws a TypeError whatever was pushed
    before. *)
Definition validatePolicy (policy : JsValue) : Result (list jsString) :=
  bindR (getProp policy "rules") (fun rules =>
  match rules with
  | JArr items =>
      let errors :=
        pushIf (negb (truthy rules) || (List.length items =? 0)%nat)
          (js "Policy must have at least one rule") [] in
      forEachRule items 0 errors
  | _ => Throw TypeError
  end).

(** A rule that [validatePolicy] finds nothing wrong with. *)
Definition ruleAccepted (rule : JsValue) : bool :=
  truthy (prop rule "description")
  && negb (keyCount (orElse (prop rule "match") (JObj [])) =? 0)%nat
  && (match isTrue (prop rule "allow"), isTrue (prop rule "deny"),
            isTrue (prop rule "require_approval") with
      | true, false, false | false, true, false | false, false, true => true
      | _, _, _ => false
      end).

(** A value that has properties to read: anything but [null] and
    [undefined]. *)
Definition readable (v : JsValue) : bool :=
  match v with
  | JNull | JUndefined => false
  | _ => true
  end.

(* ========================================================================= *)
(** * Properties *)

(** ** Strings *)

Lemma str_eqb_refl : forall s, Str.eqb s s = true.
Proof.
  induction s as [|a s IH]; simpl; [reflexivity|].
  now rewrite N.eqb_refl, IH.
Qed.

Lemma str_eqb_eq : forall s t, Str.eqb s t = true <-> s = t.
Proof.
  induction s as [|a s IH]; destruct t as [|b t]; simpl; split; intro H;
    try reflexivity; try discriminate.
  - apply andb_true_iff in H as [Hab Hst].
    apply N.eqb_eq in Hab. apply IH in Hst. now subst.
  - injection H as -> ->. now rewrite N.eqb_refl, str_eqb_refl.
Qed.

Lemma str_eqb_neq : forall s t, Str.eqb s t = false <-> s <> t.
Proof.
  intros s t. split.
  - intros H E. apply str_eqb_eq in E. congruence.
  - intros H. destruct (Str.eqb s t) eqn:E; [|reflexivity].
    apply str_eqb_eq in E. contradiction.
Qed.

Lemma str_eqb_sym : forall s t, Str.eqb s t = Str.eqb t s.
Proof.
  intros s t. destruct (Str.eqb s t) eqn:E.
  - apply str_eqb_eq in E. subst. now rewrite str_eqb_refl.
  - symmetry. apply str_eqb_neq. apply str_eqb_neq in E. congruence.
Qed.

(** The order of the default sort is a total order on strings. *)

Lemma str_ltb_irrefl : forall s, Str.ltb s s = false.
Proof.
  induction s as [|a s IH]; simpl; [reflexivity|].
  now rewrite N.ltb_irrefl.
Qed.

Lemma str_ltb_trichotomy :
  forall s t, Str.ltb s t = true \/ s = t \/ Str.ltb t s = true.
Proof.
  induction s as [|a s IH]; destruct t as [|b t]; simpl; auto.
  destruct (N.ltb_spec a b) as [Hab|Hab]; auto.
  destruct (N.ltb_spec b a) as [Hba|Hba]; auto.
  assert (a = b) by lia. subst b.
  destruct (IH t) as [H|[H|H]]; auto.
  subst. auto.
Qed.

Lemma str_ltb_asym : forall s t, Str.ltb s t = true -> Str.ltb t s = false.
Proof.
  induction s as [|a s IH]; destruct t as [|b t]; simpl; intros H;
    try discriminate; try reflexivity.
  destruct (N.ltb_spec a b) as [Hab|Hab].
  - destruct (N.ltb_spec b a); [lia|reflexivity].
  - destruct (N.ltb_spec b a) as [Hba|Hba]; [discriminate|].
    now apply IH.
Qed.

Lemma str_ltb_trans :
  forall s t u, Str.ltb s t = true -> Str.ltb t u = true -> Str.ltb s u = true.
Proof.
  induction s as [|a s IH]; destruct t as [|b t]; destruct u as [|c u];
    simpl; intros H1 H2; try discriminate; try reflexivity.
  destruct (N.ltb_spec a b) as [Hab|Hab];
    destruct (N.ltb_spec b c) as [Hbc|Hbc].
  - destruct (N.ltb_spec a c); [reflexivity|lia].
  - destruct (N.ltb_spec c b); [discriminate|].
    assert (b = c) by lia. subst c.
    destruct (N.ltb_spec a b); [reflexivity|lia].
  - destruct (N.ltb_spec b a); [discriminate|].
    assert (a = b) by lia. subst b.
    destruct (N.ltb_spec a c); [reflexivity|lia].
  - destruct (N.ltb_spec b a); [discriminate|].
    destruct (N.ltb_spec c b); [discriminate|].
    assert (a = b) by lia. assert (b = c) by lia. subst.
    rewrite N.ltb_irrefl. eapply IH; eassumption.
Qed.

Lemma str_le_refl : forall s, str_le s s.
Proof. intros s. unfold str_le, Str.leb. now rewrite str_ltb_irrefl. Qed.

Lemma str_le_total : forall s t, str_le s t \/ str_le t s.
Proof.
  intros s t. unfold str_le, Str.leb.
  destruct (Str.ltb t s) eqn:E; [right|left; reflexivity].
  now rewrite (str_ltb_asym _ _ E).
Qed.

Lemma str_le_antisym : forall s t, str_le s t -> str_le t s -> s = t.
Proof.
  unfold str_le, Str.leb. intros s t H1 H2.
  apply negb_true_iff in H1, H2.
  destruct (str_ltb_trichotomy s t) as [H|[H|H]]; congruence.
Qed.

Lemma str_le_trans : forall s t u, str_le s t -> str_le t u -> str_le s u.
Proof.
  unfold str_le, Str.leb. intros s t u H1 H2.
  apply negb_true_iff in H1, H2. apply negb_true_iff.
  destruct (Str.ltb u s) eqn:E; [|reflexivity].
  destruct (str_ltb_trichotomy t s) as [H|[H|H]].
  - congruence.
  - subst. congruence.
  - rewrite (str_ltb_trans _ _ _ E H) in H2. discriminate.
Qed.

(** ** The sort of [serializeObject] *)

Section SortedBy.

Variable le : jsString -> jsString -> Prop.
Hypothesis le_refl : forall s, le s s.
Hypothesis le_antisym : forall s t, le s t -> le t s -> s = t.

Lemma sorted_head_least :
  forall a l x, StronglySorted le (a :: l) -> In x (a :: l) -> le a x.
Proof.
  intros a l x Hs Hin. inversion Hs as [|? ? _ Hall]; subst.
  destruct Hin as [->|Hin]; [apply le_refl|].
  rewrite Forall_forall in Hall. now apply Hall.
Qed.

Lemma sorted_permutation_unique :
  forall l1 l2,
    StronglySorted le l1 -> StronglySorted le l2 -> Permutation l1 l2 ->
    l1 = l2.
Proof.
  induction l1 as [|a l1 IH]; intros l2 H1 H2 HP.
  - apply Permutation_nil in HP. now subst.
  - destruct l2 as [|b l2].
    + apply Permutation_sym, Permutation_nil in HP. discriminate.
    + assert (a = b) as ->.
      { apply le_antisym.
        - apply (sorted_head_least a l1); [assumption|].
          apply (Permutation_in b (Permutation_sym HP)). now left.
        - apply (sorted_head_least b l2); [assumption|].
          apply (Permutation_in a HP). now left. }
      f_equal. apply IH.
      * now inversion H1.
      * now inversion H2.
      * eapply Permutation_cons_inv; eassumption.
Qed.

End SortedBy.

Lemma insertKey_perm : forall k l, Permutation (k :: l) (insertKey k l).
Proof.
  intros k l. induction l as [|h t IH]; simpl; [reflexivity|].
  destruct (Str.leb k h); [reflexivity|].
  rewrite perm_swap. now constructor.
Qed.

Lemma sortKeys_perm : forall l, Permutation l (sortKeys l).
Proof.
  induction l as [|k l IH]; simpl; [constructor|].
  rewrite <- insertKey_perm. now constructor.
Qed.

Lemma insertKey_sorted :
  forall k l, StronglySorted str_le l -> StronglySorted str_le (insertKey k l).
Proof.
  intros k l Hs. induction Hs as [|h t Hs IH Hall]; simpl.
  - repeat constructor.
  - destruct (Str.leb k h) eqn:E.
    + constructor; [now constructor|].
      constructor; [exact E|].
      eapply Forall_impl; [|exact Hall].
      intros x Hx. eapply str_le_trans; [exact E|exact Hx].
    + constructor; [exact IH|].
      assert (Hhk : str_le h k).
      { destruct (str_le_total k h) as [H|H]; [|exact H].
        unfold str_le in H. congruence. }
      eapply Permutation_Forall; [apply insertKey_perm|].
      now constructor.
Qed.

Lemma sortKeys_sorted : forall l, StronglySorted str_le (sortKeys l).
Proof.
  induction l as [|k l IH]; simpl; [constructor|].
  now apply insertKey_sorted.
Qed.

Lemma sortKeys_permutation_invariant :
  forall l1 l2, Permutation l1 l2 -> sortKeys l1 = sortKeys l2.
Proof.
  intros l1 l2 HP.
  apply (sorted_permutation_unique str_le str_le_refl str_le_antisym).
  - apply sortKeys_sorted.
  - apply sortKeys_sorted.
  - rewrite <- (sortKeys_perm l1), <- (sortKeys_perm l2). exact HP.
Qed.

(** ** Objects as association lists *)

Lemma lookupWith_permutation :
  forall (A B : Type) (f : A -> B) (d : B) key (p1 p2 : list (jsString * A)),
    Permutation p1 p2 -> NoDup (map fst p1) ->
    lookupWith f d key p1 = lookupWith f d key p2.
Proof.
  intros A B f d key p1 p2 HP. induction HP as
    [| [k v] l l' HP IH | [k1 v1] [k2 v2] l | l l' l'' HP1 IH1 HP2 IH2];
    intros Hnd; simpl in *.
  - reflexivity.
  - destruct (Str.eqb k key); [reflexivity|].
    apply IH. now inversion Hnd.
  - destruct (Str.eqb k1 key) eqn:E1; destruct (Str.eqb k2 key) eqn:E2;
      try reflexivity.
    apply str_eqb_eq in E1, E2. subst.
    inversion Hnd as [|? ? Hnin _]; subst. exfalso. apply Hnin. now left.
  - rewrite IH1 by assumption. apply IH2.
    eapply Permutation_NoDup; [|exact Hnd].
    now apply Permutation_map.
Qed.

Lemma serializeEntries_ext :
  forall f g ks,
    (forall k, In k ks -> f k = g k) ->
    serializeEntries f ks = serializeEntries g ks.
Proof.
  intros f g ks. induction ks as [|k ks IH]; intros H; simpl; [reflexivity|].
  rewrite (H k) by now left.
  rewrite IH; [reflexivity|].
  intros k' Hk'. apply H. now right.
Qed.

Lemma jsonCopy_obj :
  forall props, jsonCopy (JObj props) = JObj (copyProps props).
Proof.
  intros props. simpl. f_equal.
  induction props as [|[k v] rest IH]; [reflexivity|].
  destruct v; rewrite IH; reflexivity.
Qed.

Lemma copyProps_permutation :
  forall p1 p2, Permutation p1 p2 -> Permutation (copyProps p1) (copyProps p2).
Proof.
  intros p1 p2 HP. unfold copyProps.
  induction HP; simpl.
  - constructor.
  - now apply Permutation_app_head.
  - rewrite !app_assoc. apply Permutation_app_tail, Permutation_app_comm.
  - etransitivity; eassumption.
Qed.

Lemma copyProps_keys_in :
  forall p k, In k (keys (copyProps p)) -> In k (keys p).
Proof.
  induction p as [|[k0 v0] p IH]; intros k Hin; [exact Hin|].
  unfold copyProps, keys in *. simpl in *.
  rewrite map_app in Hin. apply in_app_or in Hin as [Hin|Hin].
  - left. destruct v0; simpl in Hin; intuition.
  - right. now apply IH.
Qed.

Lemma copyProps_keys_nodup :
  forall p, NoDup (keys p) -> NoDup (keys (copyProps p)).
Proof.
  induction p as [|[k0 v0] p IH]; intros Hnd; [constructor|].
  inversion Hnd as [|? ? Hnin Hnd']; subst.
  specialize (IH Hnd').
  assert (Hk : ~ In k0 (keys (copyProps p))).
  { intros Hin. apply Hnin. now apply copyProps_keys_in. }
  unfold copyProps, keys in *. simpl.
  rewrite map_app.
  destruct v0; simpl; try exact IH; now constructor.
Qed.

Lemma serializeValue_obj :
  forall props,
    serializeValue (JObj props) =
    bindR (serializeEntries
             (fun key => lookupWith serializeValue (Ok (js "null")) key props)
             (sortKeys (keys props)))
          (fun parts => Ok (js "{" ++ Str.join (js ",") parts ++ js "}")).
Proof. reflexivity. Qed.

Lemma serializeObject_permutation :
  forall p1 p2,
    NoDup (keys p1) -> Permutation p1 p2 ->
    serializeValue (JObj p1) = serializeValue (JObj p2).
Proof.
  intros p1 p2 Hnd HP.
  rewrite !serializeValue_obj.
  rewrite (sortKeys_permutation_invariant (keys p1) (keys p2))
    by (now apply Permutation_map).
  f_equal. apply serializeEntries_ext. intros k _.
  now apply lookupWith_permutation.
Qed.

Lemma canonicalize_permutation :
  forall m1 m2,
    NoDup (keys m1) -> Permutation m1 m2 ->
    canonicalize (JObj m1) = canonicalize (JObj m2).
Proof.
  intros m1 m2 Hnd HP.
  unfold canonicalize, jsonRoundTrip, bindR.
  rewrite !jsonCopy_obj.
  apply serializeObject_permutation.
  - now apply copyProps_keys_nodup.
  - now apply copyProps_permutation.
Qed.

(** ** UTF-8 and the order of code units *)







(** ** Induction on values *)

Lemma JsValue_nested_ind (P : JsValue -> Prop) :
  P JNull -> P JUndefined -> (forall b, P (JBool b)) ->
  (forall x, P (JNum x)) -> (forall s, P (JStr s)) ->
  (forall items, Forall P items -> P (JArr items)) ->
  (forall props, Forall (fun entry => P (snd entry)) props -> P (JObj props)) ->
  forall v, P v.
Proof.
  intros Hnull Hundef Hbool Hnum Hstr Harr Hobj.
  fix IH 1. intros [ | | b | x | s | items | props ].
  - exact Hnull.
  - exact Hundef.
  - apply Hbool.
  - apply Hnum.
  - apply Hstr.
  - apply Harr. induction items as [|v items IHitems]; constructor.
    + apply IH.
    + exact IHitems.
  - apply Hobj. induction props as [|[k v] props IHprops]; constructor.
    + apply IH.
    + exact IHprops.
Qed.

(** ** The deep copy leaves nothing for the serializer to reject *)

Lemma normalizeFloat_finite_ok :
  forall x, isFinite x = true -> exists s, normalizeFloat x = Ok s.
Proof.
  intros x Hx. unfold normalizeFloat.
  destruct x; simpl in *; try discriminate; eauto.
Qed.

Lemma mapR_ok :
  forall (f : JsValue -> Result jsString) l,
    Forall (fun v => exists s, f v = Ok s) l -> exists ss, mapR f l = Ok ss.
Proof.
  intros f l H. induction H as [|v l [s Hs] _ [ss Hss]]; simpl.
  - eauto.
  - rewrite Hs, Hss. simpl. eauto.
Qed.

Lemma lookupWith_ok :
  forall (f : JsValue -> Result jsString) d key props,
    Forall (fun entry => exists s, f (snd entry) = Ok s) props ->
    exists s, lookupWith f (Ok d) key props = Ok s.
Proof.
  intros f d key props H. induction H as [|[k v] props Hv _ IH]; simpl.
  - eauto.
  - destruct (Str.eqb k key); [exact Hv|exact IH].
Qed.

Lemma serializeEntries_ok :
  forall f ks,
    (forall k, exists s, f k = Ok s) -> exists parts, serializeEntries f ks = Ok parts.
Proof.
  intros f ks H. induction ks as [|k ks [parts IH]]; simpl.
  - eauto.
  - destruct (H k) as [s ->]. rewrite IH. simpl. eauto.
Qed.

Lemma serializeValue_jsonCopy_ok :
  forall v, exists s, serializeValue (jsonCopy v) = Ok s.
Proof.
  induction v as [ | | b | x | s | items IH | props IH ]
    using JsValue_nested_ind.
  - simpl. eauto.
  - simpl. eauto.
  - simpl. eauto.
  - simpl. destruct (isFinite x) eqn:E; [|simpl; eauto].
    simpl. apply normalizeFloat_finite_ok. now destruct x.
  - simpl. eauto.
  - simpl.
    destruct (mapR_ok serializeValue (map jsonCopy items)) as [ss Hss].
    { rewrite Forall_map. exact IH. }
    rewrite Hss. simpl. eauto.
  - rewrite jsonCopy_obj, serializeValue_obj.
    destruct (serializeEntries_ok
                (fun key => lookupWith serializeValue (Ok (js "null")) key
                              (copyProps props))
                (sortKeys (keys (copyProps props)))) as [parts Hparts].
    { intros k. apply lookupWith_ok.
      unfold copyProps. rewrite Forall_flat_map.
      eapply Forall_impl; [|exact IH].
      intros [k0 v0] Hv0. simpl in *.
      destruct v0; constructor; simpl; auto. }
    rewrite Hparts. simpl. eauto.
Qed.

(** [canonicalize] never throws a [CanonicalizeError]: it returns a string for
    every value but a top-level [undefined]. *)
Lemma canonicalize_total :
  forall v, v <> JUndefined -> exists s, canonicalize v = Ok s.
Proof.
  intros v Hv. unfold canonicalize.
  assert (H : jsonRoundTrip v = Ok (jsonCopy v))
    by (destruct v; try reflexivity; contradiction).
  rewrite H. unfold bindR. apply serializeValue_jsonCopy_ok.
Qed.

(** ** The payload of [canonicalizeActionPayload] *)

Lemma isExcludedKey_spec :
  forall key,
    isExcludedKey key = isEphemeralField key || isUnderscoreField key.
Proof.
  intros key. unfold isExcludedKey, isEphemeralField. f_equal.
  destruct key as [|a key]; [reflexivity|].
  change (js "_") with [95]. simpl.
  assert (Hnil : Str.startsWith key [] = true) by (now destruct key).
  rewrite Hnil, andb_true_r. destruct a as [|p]; [reflexivity|].
  destruct (N.eqb_spec (N.pos p) 95) as [Heq|Hne];
    [injection Heq as ->; reflexivity|].
  do 7 (destruct p as [p|p|]; try reflexivity); exfalso; now apply Hne.
Qed.

Lemma objSet_fresh :
  forall props key value,
    ~ In key (keys props) -> objSet props key value = props ++ [(key, value)].
Proof.
  induction props as [|[k v] props IH]; intros key value Hnin; simpl.
  - reflexivity.
  - destruct (Str.eqb k key) eqn:E.
    + apply str_eqb_eq in E. subst. exfalso. apply Hnin. now left.
    + rewrite IH; [reflexivity|]. intros Hin. apply Hnin. now right.
Qed.

Lemma cleanPayload_fold :
  forall payload acc,
    NoDup (keys (acc ++ payload)) ->
    fold_left
      (fun clean entry =>
         let '(key, value) := entry in
         if isExcludedKey key then clean else objSet clean key value)
      payload acc
    = acc ++ stripEphemeral payload.
Proof.
  induction payload as [|[k v] payload IH]; intros acc Hnd; simpl.
  - now rewrite app_nil_r.
  - unfold keys in Hnd. rewrite map_app in Hnd. simpl in Hnd.
    rewrite isExcludedKey_spec, <- negb_orb.
    destruct (isEphemeralField k || isUnderscoreField k); simpl.
    + apply IH. unfold keys. rewrite map_app.
      eapply NoDup_remove_1. exact Hnd.
    + rewrite objSet_fresh.
      * rewrite IH; [now rewrite <- app_assoc|].
        unfold keys. rewrite <- app_assoc, map_app. exact Hnd.
      * intros Hin. apply NoDup_remove_2 in Hnd. apply Hnd.
        apply in_or_app. now left.
Qed.

Lemma cleanPayload_strips :
  forall payload,
    NoDup (keys payload) -> cleanPayload payload = stripEphemeral payload.
Proof.
  intros payload Hnd. unfold cleanPayload.
  now rewrite cleanPayload_fold.
Qed.

Lemma stripEphemeral_objSet :
  forall payload key value,
    isEphemeralField key || isUnderscoreField key = true ->
    stripEphemeral (objSet payload key value) = stripEphemeral payload.
Proof.
  intros payload key value Hex.
  rewrite <- negb_false_iff, negb_orb in Hex.
  induction payload as [|[k v] payload IH]; simpl.
  - now rewrite Hex.
  - destruct (Str.eqb k key) eqn:E.
    + apply str_eqb_eq in E. subst k. simpl. now rewrite Hex.
    + simpl. now rewrite IH.
Qed.

Lemma objSet_keys_in :
  forall payload key value x,
    In x (keys (objSet payload key value)) -> x = key \/ In x (keys payload).
Proof.
  induction payload as [|[k v] payload IH]; intros key value x Hin; simpl in *.
  - destruct Hin as [Hin|[]]; auto.
  - destruct (Str.eqb k key) eqn:E; simpl in Hin.
    + destruct Hin as [Hin|Hin]; auto.
    + destruct Hin as [Hin|Hin]; auto.
      apply IH in Hin. tauto.
Qed.

Lemma objSet_keys_nodup :
  forall payload key value,
    NoDup (keys payload) -> NoDup (keys (objSet payload key value)).
Proof.
  induction payload as [|[k v] payload IH]; intros key value Hnd; simpl.
  - repeat constructor. intros [].
  - inversion Hnd as [|? ? Hnin Hnd']; subst.
    destruct (Str.eqb k key) eqn:E; simpl.
    + now constructor.
    + constructor; [|now apply IH].
      intros Hin. apply objSet_keys_in in Hin as [Hin|Hin]; [|contradiction].
      subst. now rewrite str_eqb_refl in E.
Qed.

(** ** Strings of digits *)

Lemma includes_unit_false :
  forall c s, ~ In c s -> Str.includes s [c] = false.
Proof.
  intros c s. induction s as [|a s IH]; intros Hnin; simpl.
  - reflexivity.
  - destruct (N.eqb_spec a c) as [->|Hne].
    + exfalso. apply Hnin. now left.
    + simpl. apply IH. intros Hin. apply Hnin. now right.
Qed.

Lemma includes_unit_true :
  forall c s, In c s -> Str.includes s [c] = true.
Proof.
  intros c s. induction s as [|a s IH]; intros Hin; simpl.
  - destruct Hin.
  - destruct Hin as [->|Hin].
    + rewrite N.eqb_refl. now destruct s.
    + rewrite IH by assumption. apply orb_true_r.
Qed.

Lemma toLowerCase_id :
  forall s, Forall (fun c => c < 65 \/ 90 < c) s -> Str.toLowerCase s = s.
Proof.
  intros s H. unfold Str.toLowerCase.
  induction H as [|a s Ha _ IH]; simpl; [reflexivity|].
  rewrite IH. f_equal.
  destruct (N.leb_spec 65 a); destruct (N.leb_spec a 90); simpl;
    try reflexivity; lia.
Qed.

Lemma split_none :
  forall c s, ~ In c s -> Str.split c s = [s].
Proof.
  intros c s. induction s as [|a s IH]; intros Hnin; simpl; [reflexivity|].
  destruct (N.eqb_spec a c) as [->|Hne].
  - exfalso. apply Hnin. now left.
  - rewrite IH; [reflexivity|]. intros Hin. apply Hnin. now right.
Qed.

Lemma split_at :
  forall c a b, ~ In c a -> Str.split c (a ++ c :: b) = a :: Str.split c b.
Proof.
  intros c a b. induction a as [|x a IH]; intros Hnin; simpl.
  - now rewrite N.eqb_refl.
  - destruct (N.eqb_spec x c) as [->|Hne].
    + exfalso. apply Hnin. now left.
    + rewrite IH; [reflexivity|]. intros Hin. apply Hnin. now right.
Qed.

Lemma uint_units_digits : forall u, Forall isDigitUnit (uint_units u).
Proof.
  induction u; simpl; constructor; auto; unfold isDigitUnit; lia.
Qed.

Lemma digits_uint_units : forall u, digits_uint (uint_units u) = u.
Proof.
  induction u; simpl; try reflexivity; now rewrite IHu.
Qed.

Lemma to_uint_not_nil : forall m, N.to_uint m <> Decimal.Nil.
Proof.
  intros m H.
  assert (E : N.of_uint (N.to_uint m) = m) by apply DecimalN.Unsigned.of_to.
  destruct m as [|p]; [discriminate|].
  simpl in H. now apply DecimalPos.Unsigned.to_uint_nonnil in H.
Qed.

Lemma parseInt_plus :
  forall m, parseInt (43 :: decimalOfN m) = Some (Z.of_N m).
Proof.
  intros m. unfold parseInt, decimalOfN. simpl trimStart. cbv iota beta.
  rewrite digits_uint_units.
  pose proof (to_uint_not_nil m) as Hn.
  pose proof (DecimalN.Unsigned.of_to m) as Hm.
  destruct (N.to_uint m); try contradiction; now rewrite Hm.
Qed.

Lemma parseInt_minus :
  forall m, parseInt (45 :: decimalOfN m) = Some (- Z.of_N m)%Z.
Proof.
  intros m. unfold parseInt, decimalOfN. simpl trimStart. cbv iota beta.
  rewrite digits_uint_units.
  pose proof (to_uint_not_nil m) as Hn.
  pose proof (DecimalN.Unsigned.of_to m) as Hm.
  destruct (N.to_uint m); try contradiction; now rewrite Hm.
Qed.

Lemma digits_no_dot : forall l, Forall isDigitUnit l -> ~ In 46 l.
Proof.
  intros l H Hin. rewrite Forall_forall in H.
  specialize (H _ Hin). unfold isDigitUnit in H. lia.
Qed.

Lemma digits_digitOrDot : forall l, Forall isDigitUnit l -> Forall digitOrDot l.
Proof. intros l H. eapply Forall_impl; [|exact H]. intros c Hc. now left. Qed.

Lemma digitUnits_digits :
  forall ds, Forall (fun d => d < 10) ds -> Forall isDigitUnit (digitUnits ds).
Proof.
  intros ds H. unfold digitUnits. rewrite Forall_map.
  eapply Forall_impl; [|exact H]. intros d Hd. unfold isDigitUnit.
  cbv beta in Hd. lia.
Qed.

Lemma zeros_digits : forall n, Forall isDigitUnit (Str.repeat 48 n).
Proof.
  intros n. unfold Str.repeat. induction n; simpl; constructor; auto.
  unfold isDigitUnit. lia.
Qed.

Lemma Forall_firstn_units :
  forall (P : N -> Prop) n l, Forall P l -> Forall P (firstn n l).
Proof.
  intros P n. induction n as [|n IH]; intros l H; [constructor|].
  destruct H; simpl; constructor; auto.
Qed.

Lemma Forall_skipn_units :
  forall (P : N -> Prop) n l, Forall P l -> Forall P (skipn n l).
Proof.
  intros P n. induction n as [|n IH]; intros l H; [exact H|].
  destruct H; simpl; [constructor|auto].
Qed.

Lemma last_app_nonempty :
  forall (x y : jsString) d, y <> [] -> last (x ++ y) d = last y d.
Proof.
  induction x as [|a x IH]; intros y d Hy; [reflexivity|].
  simpl. destruct (x ++ y) eqn:E.
  - apply app_eq_nil in E as [_ ->]. contradiction.
  - rewrite <- E. now apply IH.
Qed.

Lemma last_skipn :
  forall i (l : jsString) d,
    (i < List.length l)%nat -> last (skipn i l) d = last l d.
Proof.
  induction i as [|i IH]; intros l d Hi; [reflexivity|].
  destruct l as [|a l]; [simpl in Hi; lia|].
  simpl in Hi. simpl skipn. rewrite IH by lia.
  destruct l; [simpl in Hi; lia|reflexivity].
Qed.

Lemma skipn_nonempty :
  forall i (l : jsString), (i < List.length l)%nat -> skipn i l <> [].
Proof.
  intros i l Hi E.
  assert (H : List.length (skipn i l) = 0%nat) by now rewrite E.
  rewrite length_skipn in H. lia.
Qed.

Lemma last_digitUnits :
  forall ds, ds <> [] -> last (digitUnits ds) 0 = 48 + last ds 0.
Proof.
  induction ds as [|d ds IH]; intros Hne; [contradiction|].
  destruct ds as [|d' ds]; [reflexivity|].
  change (last (digitUnits (d :: d' :: ds)) 0)
    with (last (digitUnits (d' :: ds)) 0).
  now rewrite IH.
Qed.

Lemma stripTrailingZeros_id :
  forall s, last s 0 <> 48 -> stripTrailingZeros s = s.
Proof.
  assert (Hz : forall t, zerosToEnd t = true -> last t 0 = 48).
  { induction t as [|a t IH]; intros H; [discriminate|].
    destruct t as [|b t].
    - simpl in H. now apply N.eqb_eq in H.
    - change (zerosToEnd (a :: b :: t))
        with ((a =? 48) && zerosToEnd (b :: t)) in H.
      apply andb_true_iff in H as [_ H]. now apply IH in H. }
  assert (Hm : forall t, matchesDotZeros t = true -> last t 0 = 48).
  { intros t H. unfold matchesDotZeros in H.
    destruct t as [|a t]; [discriminate|].
    destruct (N.eqb_spec a 46) as [->|Hne].
    - destruct t as [|b t]; [discriminate|].
      now apply Hz in H.
    - apply Hz.
      destruct a as [|p]; [exact H|].
      do 6 (destruct p as [p|p|]; try exact H); exfalso; now apply Hne. }
  induction s as [|a s IH]; intros Hl.
  - reflexivity.
  - change (stripTrailingZeros (a :: s))
      with (if matchesDotZeros (a :: s) then []
            else a :: stripTrailingZeros s).
    destruct (matchesDotZeros (a :: s)) eqn:E.
    + apply Hm in E. contradiction.
    + f_equal. destruct s as [|b s]; [reflexivity|]. now apply IH.
Qed.

Lemma shiftPoint_shape :
  forall D R e,
    isDigitUnit D -> Forall isDigitUnit R -> e <> 0%Z ->
    plainShape (last (D :: R) 0) (shiftPoint [D] R (Some e)) /\
    ((0 < e)%Z -> (Z.of_nat (List.length R) <= e)%Z ->
     ~ In 46 (shiftPoint [D] R (Some e))).
Proof.
  intros D R e HD HR He.
  assert (Hall : Forall isDigitUnit (D :: R)) by now constructor.
  unfold shiftPoint.
  destruct (Z.ltb_spec 0 e) as [Hpos|Hneg].
  - destruct (Nat.leb_spec (List.length R) (Z.to_nat e)) as [Hle|Hgt].
    + assert (Hd : Forall isDigitUnit ([D] ++ R ++
                     Str.repeat 48 (Z.to_nat e - List.length R))).
      { apply Forall_app; split; [constructor; [assumption|constructor]|].
        apply Forall_app; split; [assumption|apply zeros_digits]. }
      split; [|intros _ _; now apply digits_no_dot].
      split; [now apply digits_digitOrDot|].
      split; [simpl; eauto|].
      intros Hin. now apply digits_no_dot in Hin.
    + split; [|intros _ Hc; lia].
      unfold Str.slice, Str.sliceFrom. rewrite Nat.sub_0_r. simpl skipn.
      split; [|split].
      * apply Forall_app; split; [constructor; [now left|constructor]|].
        apply Forall_app; split.
        -- apply digits_digitOrDot. now apply Forall_firstn_units.
        -- apply Forall_app; split; [constructor; [now right|constructor]|].
           apply digits_digitOrDot. now apply Forall_skipn_units.
      * simpl. eauto.
      * intros _.
        rewrite last_app_nonempty
          by (destruct (firstn (Z.to_nat e) R); discriminate).
        rewrite last_app_nonempty
          by (destruct (firstn (Z.to_nat e) R); discriminate).
        change ([46] ++ skipn (Z.to_nat e) R)
          with (([46] : jsString) ++ skipn (Z.to_nat e) R).
        rewrite last_app_nonempty by now apply skipn_nonempty.
        rewrite last_skipn by assumption.
        destruct R; [simpl in Hgt; lia|reflexivity].
  - split; [|intros Hc; lia].
    assert (Habs : (1 <= Z.to_nat (Z.abs e))%nat) by lia.
    change ([D] ++ R) with (D :: R).
    destruct (Nat.leb_spec (List.length (D :: R)) (Z.to_nat (Z.abs e)))
      as [Hle|Hgt].
    + change (js "0.") with [48; 46].
      split; [|split].
      * constructor; [left; unfold isDigitUnit; lia|].
        constructor; [now right|].
        apply Forall_app; split; apply digits_digitOrDot;
          [apply zeros_digits|assumption].
      * simpl. exists 48. eexists. split; [reflexivity|].
        unfold isDigitUnit. lia.
      * intros _.
        change ([48; 46] ++ Str.repeat 48
                  (Z.to_nat (Z.abs e) - List.length (D :: R)) ++ D :: R)
          with (([48; 46] ++ Str.repeat 48
                  (Z.to_nat (Z.abs e) - List.length (D :: R))) ++ D :: R).
        rewrite <- app_assoc.
        rewrite last_app_nonempty; [|now destruct (Str.repeat _ _)].
        now rewrite last_app_nonempty by discriminate.
    + unfold Str.slice, Str.sliceFrom. rewrite Nat.sub_0_r. simpl skipn at 1.
      set (i := (List.length (D :: R) - Z.to_nat (Z.abs e))%nat).
      assert (Hi : (1 <= i < List.length (D :: R))%nat) by (unfold i; lia).
      split; [|split].
      * apply Forall_app; split.
        -- apply digits_digitOrDot. now apply Forall_firstn_units.
        -- apply Forall_app; split; [constructor; [now right|constructor]|].
           apply digits_digitOrDot. now apply Forall_skipn_units.
      * destruct i as [|i']; [lia|]. simpl. eauto.
      * intros _.
        rewrite last_app_nonempty by discriminate.
        change ([46] ++ skipn i (D :: R))
          with (([46] : jsString) ++ skipn i (D :: R)).
        rewrite last_app_nonempty by (apply skipn_nonempty; lia).
        apply last_skipn. lia.
Qed.

(** ** [toString] and [normalizeFloat] *)

Ltac zcases :=
  repeat match goal with
         | |- context [Z.leb ?a ?b] => destruct (Z.leb_spec a b)
         | |- context [Z.ltb ?a ?b] => destruct (Z.ltb_spec a b)
         end;
  cbn [andb]; try lia.

Lemma wfDigits_cons :
  forall ds, wfDigits ds ->
    exists d rest, ds = d :: rest /\ isDigitUnit (48 + d) /\
                   Forall isDigitUnit (digitUnits rest).
Proof.
  intros ds (Hne & Hall & _ & _).
  destruct ds as [|d rest]; [contradiction|].
  inversion Hall; subst. exists d, rest. split; [reflexivity|].
  split; [unfold isDigitUnit; lia|now apply digitUnits_digits].
Qed.

Lemma wfDigits_last :
  forall ds, wfDigits ds -> 48 + last ds 0 <> 48 /\ 48 + last ds 0 <> 46.
Proof. intros ds (_ & _ & _ & Hl). lia. Qed.

Lemma toStringPos_integral :
  forall ds n,
    (Z.of_nat (List.length ds) <= n <= 21)%Z ->
    toStringPos ds n =
    digitUnits ds ++ Str.repeat 48 (Z.to_nat (n - Z.of_nat (List.length ds))).
Proof. intros ds n Hn. unfold toStringPos. zcases; reflexivity. Qed.

Lemma toStringPos_fraction :
  forall ds n,
    (0 < n <= 21)%Z -> (n < Z.of_nat (List.length ds))%Z ->
    toStringPos ds n =
    firstn (Z.to_nat n) (digitUnits ds) ++ [46]
      ++ skipn (Z.to_nat n) (digitUnits ds).
Proof. intros ds n Hn Hk. unfold toStringPos. zcases; reflexivity. Qed.

Lemma toStringPos_small :
  forall ds n,
    (-6 < n <= 0)%Z -> ds <> [] ->
    toStringPos ds n =
    [48; 46] ++ Str.repeat 48 (Z.to_nat (- n)) ++ digitUnits ds.
Proof.
  intros ds n Hn Hne. unfold toStringPos.
  destruct ds as [|d ds]; [contradiction|].
  simpl List.length. zcases; reflexivity.
Qed.

Lemma toStringPos_plain :
  forall ds n,
    wfDigits ds -> (-6 < n <= 21)%Z ->
    plainShape (48 + last ds 0) (toStringPos ds n) /\
    ((Z.of_nat (List.length ds) <= n)%Z -> ~ In 46 (toStringPos ds n)).
Proof.
  intros ds n Hwf Hn.
  destruct (wfDigits_cons ds Hwf) as (d & rest & -> & Hd & Hrest).
  assert (Hall : Forall isDigitUnit (digitUnits (d :: rest)))
    by (now constructor).
  assert (Hlen : List.length (digitUnits (d :: rest))
                 = List.length (d :: rest))
    by (unfold digitUnits; apply length_map).
  assert (Hlast : last (digitUnits (d :: rest)) 0 = 48 + last (d :: rest) 0)
    by (apply last_digitUnits; discriminate).
  destruct (Z.le_gt_cases (Z.of_nat (List.length (d :: rest))) n) as [Hk|Hk];
    [|destruct (Z.lt_ge_cases 0 n) as [Hp|Hp]].
  - (* digits, then zeros *)
    rewrite toStringPos_integral by lia.
    assert (Hz : Forall isDigitUnit
                   (digitUnits (d :: rest) ++
                    Str.repeat 48
                      (Z.to_nat (n - Z.of_nat (List.length (d :: rest)))))).
    { apply Forall_app; split; [assumption|apply zeros_digits]. }
    split; [|intros _; now apply digits_no_dot].
    split; [now apply digits_digitOrDot|].
    split; [simpl; eauto|].
    intros Hin. now apply digits_no_dot in Hin.
  - (* the point inside the digits *)
    rewrite toStringPos_fraction by lia.
    split; [|intros Hc; lia].
    assert (Hi : (1 <= Z.to_nat n < List.length (digitUnits (d :: rest)))%nat)
      by (rewrite Hlen; lia).
    split; [|split].
    + apply Forall_app; split.
      * apply digits_digitOrDot. now apply Forall_firstn_units.
      * apply Forall_app; split; [constructor; [now right|constructor]|].
        apply digits_digitOrDot. now apply Forall_skipn_units.
    + destruct (Z.to_nat n) as [|i]; [lia|]. simpl. eauto.
    + intros _.
      rewrite last_app_nonempty by discriminate.
      change ([46] ++ skipn (Z.to_nat n) (digitUnits (d :: rest)))
        with (([46] : jsString) ++ skipn (Z.to_nat n) (digitUnits (d :: rest))).
      rewrite last_app_nonempty by (apply skipn_nonempty; lia).
      rewrite last_skipn by lia. exact Hlast.
  - (* zeros between the point and the digits *)
    rewrite toStringPos_small by (try lia; discriminate).
    split; [|intros Hc; simpl in Hc; lia].
    split; [|split].
    + constructor; [left; unfold isDigitUnit; lia|].
      constructor; [now right|].
      apply Forall_app; split; apply digits_digitOrDot;
        [apply zeros_digits|assumption].
    + exists 48. eexists. split; [reflexivity|]. unfold isDigitUnit. lia.
    + intros _.
      change ([48; 46] ++ Str.repeat 48 (Z.to_nat (- n))
                ++ digitUnits (d :: rest))
        with (([48; 46] ++ Str.repeat 48 (Z.to_nat (- n)))
                ++ digitUnits (d :: rest)).
      now rewrite last_app_nonempty by discriminate.
Qed.

Lemma toStringPos_exponent :
  forall ds n,
    wfDigits ds -> (21 < n \/ n <= -6)%Z ->
    toStringPos ds n = mantissaOf ds ++ 101 :: exponentPart n.
Proof.
  intros ds n Hwf Hn.
  destruct (wfDigits_cons ds Hwf) as (d & rest & -> & _ & _).
  unfold toStringPos, mantissaOf, exponentPart. zcases;
    destruct rest as [|d' rest]; simpl; try reflexivity;
    now rewrite <- app_assoc.
Qed.

Lemma parseInt_exponentPart :
  forall n, parseInt (exponentPart n) = Some (n - 1)%Z.
Proof.
  intros n. unfold exponentPart.
  destruct (Z.ltb_spec (n - 1) 0).
  - rewrite parseInt_minus. f_equal. lia.
  - rewrite parseInt_plus. f_equal. lia.
Qed.

Lemma exponentPart_units :
  forall n, Forall (fun c => isDigitUnit c \/ c = 43 \/ c = 45) (exponentPart n).
Proof.
  intros n. unfold exponentPart. constructor.
  - destruct (n - 1 <? 0)%Z; auto.
  - eapply Forall_impl; [|apply uint_units_digits]. intros c Hc. now left.
Qed.

Lemma mantissaOf_shape :
  forall d rest,
    mantissaOf (d :: rest) =
    (48 + d) :: match rest with [] => [] | _ => 46 :: digitUnits rest end.
Proof. intros d [|d' rest]; reflexivity. Qed.

Lemma toString_finite :
  forall neg ds n,
    toString (Finite neg ds n) = signPrefix neg ++ toStringPos ds n.
Proof. intros [|] ds n; reflexivity. Qed.

Lemma plainShape_no_unit :
  forall u body neg c,
    plainShape u body -> c <> 45 -> c <> 46 -> ~ isDigitUnit c ->
    ~ In c (signPrefix neg ++ body).
Proof.
  intros u body neg c (Hall & _ & _) H45 H46 Hd Hin.
  apply in_app_or in Hin as [Hin|Hin].
  - destruct neg; simpl in Hin; [|contradiction].
    destruct Hin as [Hin|[]]. congruence.
  - rewrite Forall_forall in Hall. destruct (Hall _ Hin) as [H|H]; auto.
Qed.

Lemma plainShape_strip :
  forall u body neg,
    plainShape u body -> u <> 48 ->
    (if Str.includes (signPrefix neg ++ body) (js ".")
     then stripTrailingZeros (signPrefix neg ++ body)
     else signPrefix neg ++ body) = signPrefix neg ++ body.
Proof.
  intros u body neg (Hall & (c & rest & -> & Hc) & Hlast) Hu.
  change (js ".") with [46].
  destruct (Str.includes (signPrefix neg ++ c :: rest) [46]) eqn:E;
    [|reflexivity].
  apply stripTrailingZeros_id.
  rewrite last_app_nonempty by discriminate.
  assert (Hin : In 46 (c :: rest)).
  { destruct (in_dec N.eq_dec 46 (signPrefix neg ++ c :: rest)) as [Hin|Hnin].
    - apply in_app_or in Hin as [Hin|Hin]; [|exact Hin].
      destruct neg; simpl in Hin; [|contradiction].
      destruct Hin as [Hin|[]]. discriminate.
    - apply includes_unit_false in Hnin. congruence. }
  rewrite (Hlast Hin). exact Hu.
Qed.

Lemma expandExponent_toString :
  forall neg ds n,
    wfDigits ds -> (21 < n \/ n <= -6)%Z ->
    expandExponent (Finite neg ds n) (toString (Finite neg ds n)) =
    signPrefix neg
      ++ shiftPoint [48 + hd 0 ds] (digitUnits (tl ds)) (Some (n - 1)%Z).
Proof.
  intros neg ds n Hwf Hn.
  destruct (wfDigits_cons ds Hwf) as (d & rest & -> & Hd & Hrest).
  rewrite toString_finite, toStringPos_exponent by assumption.
  rewrite mantissaOf_shape. simpl hd. simpl tl.
  set (D := 48 + d) in *. set (R := digitUnits rest) in *.
  set (tailM := match rest with [] => [] | _ :: _ => 46 :: R end).
  assert (HtailM : Forall digitOrDot tailM).
  { unfold tailM. destruct rest; constructor; [now right|].
    now apply digits_digitOrDot. }
  assert (Hmant : Forall (fun c => digitOrDot c \/ c = 45)
                    (signPrefix neg ++ D :: tailM)).
  { apply Forall_app; split.
    - destruct neg; simpl; [constructor; [now right|constructor]|constructor].
    - constructor; [left; now left|].
      eapply Forall_impl; [|exact HtailM]. intros c Hc. now left. }
  assert (Hno101 : ~ In 101 (signPrefix neg ++ D :: tailM)).
  { intros Hin. rewrite Forall_forall in Hmant.
    destruct (Hmant _ Hin) as [[H|H]|H]; unfold isDigitUnit in *; lia. }
  assert (Hexp101 : ~ In 101 (exponentPart n)).
  { intros Hin. pose proof (exponentPart_units n) as Hu.
    rewrite Forall_forall in Hu.
    destruct (Hu _ Hin) as [H|[H|H]]; unfold isDigitUnit in *; lia. }
  unfold expandExponent.
  rewrite toLowerCase_id.
  2:{ apply Forall_app; split.
      - destruct neg; simpl; [constructor; [lia|constructor]|constructor].
      - constructor; [unfold isDigitUnit in Hd; fold D in Hd; lia|].
        apply Forall_app; split.
        + eapply Forall_impl; [|exact HtailM].
          intros c [Hc|Hc]; unfold isDigitUnit in *; lia.
        + constructor; [lia|].
          eapply Forall_impl; [|apply exponentPart_units].
          intros c [Hc|[Hc|Hc]]; unfold isDigitUnit in *; lia. }
  change (signPrefix neg ++ (D :: tailM) ++ 101 :: exponentPart n)
    with (signPrefix neg ++ ((D :: tailM) ++ 101 :: exponentPart n)).
  rewrite app_assoc, split_at by exact Hno101.
  rewrite (split_none 101 (exponentPart n)) by exact Hexp101.
  cbn [nth nth_error]. rewrite parseInt_exponentPart.
  assert (Hparts :
            Str.split 46 (signPrefix neg ++ D :: tailM)
            = (signPrefix neg ++ [D])
                :: match rest with [] => [] | _ :: _ => [R] end).
  { assert (HnoD : ~ In 46 (signPrefix neg ++ [D])).
    { intros Hin. apply in_app_or in Hin as [Hin|Hin].
      - destruct neg; simpl in Hin; [|contradiction].
        destruct Hin as [Hin|[]]. discriminate.
      - destruct Hin as [Hin|[]]. unfold isDigitUnit in Hd. fold D in Hd. lia. }
    unfold tailM. destruct rest as [|d' rest'].
    - now apply split_none.
    - change (signPrefix neg ++ D :: 46 :: R)
        with (signPrefix neg ++ [D] ++ 46 :: R).
      rewrite app_assoc, split_at by exact HnoD.
      rewrite split_none; [reflexivity|].
      now apply digits_no_dot. }
  rewrite Hparts. cbn [nth].
  assert (Hint : Str.removeFirst 45 (signPrefix neg ++ [D]) = [D]).
  { destruct neg; simpl; [reflexivity|].
    destruct (N.eqb_spec D 45) as [E|_]; [|reflexivity].
    unfold isDigitUnit in Hd. fold D in Hd. lia. }
  rewrite Hint.
  match goal with
  | |- context [shiftPoint _ ?fracPart _] =>
      assert (Hfrac : fracPart = R) by (unfold R; now destruct rest);
      rewrite Hfrac
  end.
  destruct (shiftPoint_shape D R (n - 1)%Z Hd Hrest ltac:(lia))
    as [(_ & (c & body & Hbody & Hc) & _) _].
  rewrite Hbody. change (js "-") with [45]. cbn [Str.startsWith].
  destruct (N.eqb_spec c 45) as [E|_];
    [unfold isDigitUnit in Hc; lia|].
  destruct neg; reflexivity.
Qed.

Lemma normalizeFloat_shape :
  forall neg ds n,
    wfDigits ds ->
    exists body,
      normalizeFloat (Finite neg ds n) = Ok (signPrefix neg ++ body) /\
      plainShape (48 + last ds 0) body /\
      ((Z.of_nat (List.length ds) <= n)%Z -> ~ In 46 body).
Proof.
  intros neg ds n Hwf.
  pose proof (wfDigits_last ds Hwf) as [Hl48 Hl46].
  unfold normalizeFloat. cbn [isNaN isFinite isZero negb].
  change (js "e") with [101]. change (js "E") with [69].
  destruct (Z.lt_ge_cases (-6) n) as [Hlo|Hlo];
    [destruct (Z.le_gt_cases n 21) as [Hhi|Hhi]|].
  - (* no exponent in [toString] *)
    destruct (toStringPos_plain ds n Hwf ltac:(lia)) as [Hshape Hint].
    exists (toStringPos ds n). rewrite toString_finite.
    rewrite (includes_unit_false 101), (includes_unit_false 69);
      try (apply (plainShape_no_unit _ _ _ _ Hshape);
           unfold isDigitUnit; lia).
    cbn [orb]. rewrite (plainShape_strip _ _ _ Hshape Hl48). auto.
  - (* exponent form, large *)
    destruct (wfDigits_cons ds Hwf) as (d & rest & Eds & Hd & Hrest).
    destruct (shiftPoint_shape (48 + d) (digitUnits rest) (n - 1)%Z Hd Hrest
                ltac:(lia)) as [Hshape Hint].
    exists (shiftPoint [48 + d] (digitUnits rest) (Some (n - 1)%Z)).
    rewrite includes_unit_true.
    2:{ rewrite toString_finite, toStringPos_exponent by (auto; lia).
        apply in_or_app. right. apply in_or_app. right. now left. }
    cbn [orb]. rewrite expandExponent_toString by (auto; lia).
    subst ds. cbn [hd tl].
    change (last ((48 + d) :: digitUnits rest) 0)
      with (last (digitUnits (d :: rest)) 0) in Hshape.
    rewrite last_digitUnits in Hshape by discriminate.
    rewrite (plainShape_strip _ _ _ Hshape Hl48).
    split; [reflexivity|]. split; [exact Hshape|].
    intros Hk. apply Hint; [lia|].
    simpl List.length in Hk. unfold digitUnits. rewrite length_map. lia.
  - (* exponent form, small *)
    destruct (wfDigits_cons ds Hwf) as (d & rest & Eds & Hd & Hrest).
    destruct (shiftPoint_shape (48 + d) (digitUnits rest) (n - 1)%Z Hd Hrest
                ltac:(lia)) as [Hshape Hint].
    exists (shiftPoint [48 + d] (digitUnits rest) (Some (n - 1)%Z)).
    rewrite includes_unit_true.
    2:{ rewrite toString_finite, toStringPos_exponent by (auto; lia).
        apply in_or_app. right. apply in_or_app. right. now left. }
    cbn [orb]. rewrite expandExponent_toString by (auto; lia).
    subst ds. cbn [hd tl].
    change (last ((48 + d) :: digitUnits rest) 0)
      with (last (digitUnits (d :: rest)) 0) in Hshape.
    rewrite last_digitUnits in Hshape by discriminate.
    rewrite (plainShape_strip _ _ _ Hshape Hl48).
    split; [reflexivity|]. split; [exact Hshape|].
    intros Hk. simpl List.length in Hk. lia.
Qed.

(* ========================================================================= *)
(** * The canonicalizer *)

(** What [normalizeFloat] itself does with a non-finite number: it throws. *)
Lemma normalizeFloat_non_finite_throws :
  normalizeFloat NaN
    = Throw (CanonicalizeError (js "NaN is not allowed in canonical JSON")) /\
  forall neg,
    normalizeFloat (Infinity neg)
    = Throw (CanonicalizeError
               (js "Infinity is not allowed in canonical JSON")).
Proof. split; [reflexivity|intros neg; reflexivity]. Qed.

(** C1.  The claim is that [canonicalize] of a non-finite number (NaN,
    Infinity, -Infinity, also nested in a sequence or a mapping) raises a
    CanonicalizeError.  The code does not: the deep copy that [canonicalize]
    takes first, [JSON.parse(JSON.stringify(obj))], writes every non-finite
    number as [null], so [normalizeFloat] never sees one and the result is
    the string with [null] in its place. *)
Theorem canonicalize_non_finite_gives_null :
  canonicalize (JNum NaN) = Ok (js "null") /\
  canonicalize (JNum (Infinity false)) = Ok (js "null") /\
  canonicalize (JNum (Infinity true)) = Ok (js "null") /\
  canonicalize (JArr [JNum NaN; JNum (Infinity false)]) = Ok (js "[null,null]") /\
  canonicalize (JObj [(js "a", JNum (Infinity true))])
    = Ok (js "{" ++ serializeString (js "a") ++ js ":null}").
Proof. repeat split; reflexivity. Qed.

(** C7.  For every finite number (given by well-formed [toString] data),
    [canonicalize] returns a string with no exponent marker ([e] or [E]);
    if the string has a decimal point, it ends neither in a zero nor in the
    point; and if the value is an integer, it has no decimal point.
    Concretely 1000.0 and 1e3 (the same number) give "1000", 1.50 gives "1.5"
    and 0.0001 gives "0.0001". *)
Theorem canonicalize_number_form :
  (forall x, wfNumber x -> isFinite x = true ->
     exists s, canonicalize (JNum x) = Ok s /\
       ~ In 101 s /\ ~ In 69 s /\
       (In 46 s -> last s 0 <> 48 /\ last s 0 <> 46) /\
       (isIntegral x = true -> ~ In 46 s)) /\
  canonicalize (JNum (Finite false [1] 4)) = Ok (js "1000") /\
  canonicalize (JNum (Finite false [1; 5] 1)) = Ok (js "1.5") /\
  canonicalize (JNum (Finite false [1] (-3))) = Ok (js "0.0001").
Proof.
  split; [|repeat split; reflexivity].
  intros x Hwf Hfin.
  destruct x as [ | neg | neg | neg ds n ]; try discriminate.
  - exists (js "0"). split; [reflexivity|].
    assert (Hno : forall c, c <> 48 -> ~ In c (js "0")).
    { intros c Hc Hin. simpl in Hin. destruct Hin as [Hin|[]]. congruence. }
    split; [apply Hno; discriminate|].
    split; [apply Hno; discriminate|].
    split; [intros Hin; exfalso; revert Hin; apply Hno; discriminate|].
    intros _. apply Hno. discriminate.
  - destruct (normalizeFloat_shape neg ds n Hwf) as (body & Hnf & Hshape & Hint).
    pose proof (wfDigits_last ds Hwf) as [Hl48 Hl46].
    exists (signPrefix neg ++ body).
    split; [exact Hnf|].
    assert (Hdot : In 46 (signPrefix neg ++ body) -> In 46 body).
    { intros Hin. apply in_app_or in Hin as [Hin|Hin]; [|exact Hin].
      destruct neg; simpl in Hin; [|contradiction].
      destruct Hin as [Hin|[]]. discriminate. }
    split; [|split; [|split]].
    + apply (plainShape_no_unit _ _ _ _ Hshape); unfold isDigitUnit; lia.
    + apply (plainShape_no_unit _ _ _ _ Hshape); unfold isDigitUnit; lia.
    + intros Hin. apply Hdot in Hin.
      destruct Hshape as (_ & (c & rest & -> & _) & Hlast).
      rewrite last_app_nonempty by discriminate.
      rewrite (Hlast Hin). auto.
    + intros Hk Hin. simpl in Hk. apply Z.leb_le in Hk.
      exact (Hint Hk (Hdot Hin)).
Qed.

Lemma canonicalize_number_form_witness :
  exists s, canonicalize (JNum (Finite true [1; 5] (-6))) = Ok s /\
    ~ In 101 s /\ ~ In 69 s /\
    (In 46 s -> last s 0 <> 48 /\ last s 0 <> 46) /\
    (isIntegral (Finite true [1; 5] (-6)) = true -> ~ In 46 s).
Proof.
  apply (proj1 canonicalize_number_form).
  - simpl. unfold wfDigits. repeat split.
    + discriminate.
    + repeat constructor.
    + simpl. discriminate.
    + simpl. discriminate.
  - reflexivity.
Defined.




(* ========================================================================= *)
(** * The request hash *)

Section RequestHash.

Variable sha256 : list N -> jsString.

(** C3.  For every payload (an object, so its keys are distinct),
    [computeRequestHash] is [computeHash] of the payload without the fields
    of the fixed exclusion set and without the underscore-prefixed fields;
    in particular, setting any such field to any value does not change the
    hash. *)
Theorem computeRequestHash_strips_ephemeral :
  forall payload,
    NoDup (keys payload) ->
    computeRequestHash sha256 payload
      = computeHash sha256 (JObj (stripEphemeral payload)) /\
    forall key value,
      isEphemeralField key || isUnderscoreField key = true ->
      computeRequestHash sha256 (objSet payload key value)
        = computeRequestHash sha256 payload.
Proof.
  intros payload Hnd.
  assert (Hhash : forall p, NoDup (keys p) ->
            computeRequestHash sha256 p
            = computeHash sha256 (JObj (stripEphemeral p))).
  { intros p Hp. unfold computeRequestHash, canonicalizeActionPayload, computeHash.
    now rewrite cleanPayload_strips. }
  split; [now apply Hhash|].
  intros key value Hex.
  rewrite !Hhash by (try apply objSet_keys_nodup; assumption).
  now rewrite stripEphemeral_objSet.
Qed.

End RequestHash.

(** The names of the exclusion set, and an underscore-prefixed one. *)
Lemma excluded_field_names :
  Forall (fun name => isEphemeralField (js name) = true)
    [ "id"; "approval_token"; "created_at"; "updated_at"; "tenant_id";
      "project_id"; "version"; "decision"; "status"; "reason"; "risk_level";
      "policy_version"; "policy_hash"; "runtime_version"; "profile_id";
      "profile_version"; "profile_hash"; "provenance_id"; "outcome";
      "reason_code"; "reason_details"; "request_hash" ]%string /\
  isUnderscoreField (js "_internal") = true /\
  Forall (fun name => isEphemeralField (js name) || isUnderscoreField (js name)
                      = false)
    [ "agent_id"; "tool"; "operation"; "params"; "context" ]%string.
Proof. repeat split; repeat constructor. Qed.

Lemma computeRequestHash_strips_ephemeral_witness :
  computeRequestHash (fun bytes => bytes)
    [ (js "agent_id", JStr (js "test")); (js "id", JStr (js "42"));
      (js "_trace", JBool true); (js "tool", JStr (js "http")) ]
  = computeHash (fun bytes => bytes)
      (JObj [ (js "agent_id", JStr (js "test"));
              (js "tool", JStr (js "http")) ]) /\
  computeRequestHash (fun bytes => bytes)
    (objSet [ (js "agent_id", JStr (js "test")) ] (js "status")
       (JStr (js "denied")))
  = computeRequestHash (fun bytes => bytes)
      [ (js "agent_id", JStr (js "test")) ].
Proof.
  split.
  - apply (proj1 (computeRequestHash_strips_ephemeral (fun bytes => bytes)
                    [ (js "agent_id", JStr (js "test"));
                      (js "id", JStr (js "42"));
                      (js "_trace", JBool true);
                      (js "tool", JStr (js "http")) ]
                    ltac:(repeat constructor; simpl; intuition discriminate))).
  - apply (proj2 (computeRequestHash_strips_ephemeral (fun bytes => bytes)
                    [ (js "agent_id", JStr (js "test")) ]
                    ltac:(repeat constructor; simpl; intuition discriminate))).
    reflexivity.
Defined.

(* ========================================================================= *)
(** * The transport executor *)

Lemma sleepsOf_app :
  forall l1 l2, sleepsOf (l1 ++ l2) = sleepsOf l1 ++ sleepsOf l2.
Proof. intros. unfold sleepsOf. apply flat_map_app. Qed.

Lemma requestsOf_app :
  forall l1 l2, requestsOf (l1 ++ l2) = requestsOf l1 ++ requestsOf l2.
Proof. intros. unfold requestsOf. apply flat_map_app. Qed.

Section ExecutorFacts.

Variable transport : nat -> Outcome.
Variable clock : nat -> Z.

Variable config : ClientConfig.
Variable method : Method.
Variable path fullUrl url : jsString.
Variable startTime : Z.
Variable data params : JsValue.

Lemma sameRun_refl : forall w, sameRun w w.
Proof. intros w. now repeat split. Qed.

Lemma sameRun_trans :
  forall w1 w2 w3, sameRun w1 w2 -> sameRun w2 w3 -> sameRun w1 w3.
Proof.
  intros w1 w2 w3 (A1 & A2 & A3) (B1 & B2 & B3).
  repeat split; congruence.
Qed.

Lemma notify_sameRun :
  forall cb ev w,
    (forall c, sleepsOf [ev c] = []) ->
    exists w', notify cb ev w = (Ok tt, w') /\ sameRun w w'.
Proof.
  intros cb ev w Hev. destruct cb as [c|]; simpl.
  - eexists. split; [reflexivity|].
    repeat split; simpl. now rewrite sleepsOf_app, Hev, app_nil_r.
  - exists w. split; [reflexivity|apply sameRun_refl].
Qed.

Lemma now_sameRun :
  forall w, exists w', now clock w = (Ok (clock (clockReads w)), w') /\
                       sameRun w w'.
Proof. intros w. eexists. split; [reflexivity|]. now repeat split. Qed.


(** The response branch of an attempt: anything but a policy denial is
    returned. *)
Lemma onResponse_returns :
  forall status responseData w,
    isPolicyDenial method path responseData = false ->
    exists w',
      onResponse clock config method path fullUrl startTime status responseData w
      = (Ok responseData, w') /\ sameRun w w'.
Proof.
  intros status rd w Hden. unfold onResponse, bind.
  destruct (now_sameRun w) as (w1 & -> & H1).
  unfold isPolicyDenial in Hden.
  destruct (notify_sameRun (onRequestEnd config)
              (fun cb => EvRequestEnd cb method fullUrl status
                           (clock (clockReads w) - startTime)%Z) w1)
    as (w2 & Hn & H2); [reflexivity|].
  destruct (methodEqb method POST && Str.eqb path (js "/v1/actions")
            && truthy rd && typeofObject rd) eqn:Eguard.
  - simpl in Hden. apply orb_false_iff in Hden as [Hd1 Hd2].
    rewrite Hd1, Hd2. rewrite Hn.
    exists w2. split; [reflexivity|]. eapply sameRun_trans; eassumption.
  - rewrite Hn.
    exists w2. split; [reflexivity|]. eapply sameRun_trans; eassumption.
Qed.


(** The [catch] clause on a 5xx response while attempts are left: wait, then
    go on. *)
Lemma onCatch_retry :
  forall attempt s d code message w,
    500 <= s -> retriesLeft config attempt = true ->
    exists w',
      onCatch clock config method path fullUrl startTime attempt
        (AxiosError (Some (s, d)) code message) w
      = (Ok (Some (AxiosError (Some (s, d)) code message)), w') /\
      globalConfig w' = globalConfig w /\ attempts w' = attempts w /\
      sleepsOf (log w') = sleepsOf (log w) ++ [waitTime config attempt].
Proof.
  intros attempt s d code message w Hs Hleft. unfold onCatch, bind.
  destruct (now_sameRun w) as (w1 & -> & (A1 & A2 & A3)).
  unfold statusIs, responseStatus. cbn [option_map fst].
  destruct (N.eqb_spec s 401); [lia|].
  destruct (N.eqb_spec s 404); [lia|].
  destruct (N.eqb_spec s 422); [lia|].
  rewrite Hleft. destruct (N.leb_spec 500 s); [|lia]. cbn [andb].
  match goal with
  | |- context [notify ?cb ?ev w1] =>
      destruct (notify_sameRun cb ev w1) as (w2 & -> & (B1 & B2 & B3));
        [reflexivity|]
  end.
  unfold sleep, emit. eexists. split; [reflexivity|].
  cbn [globalConfig attempts log]. rewrite sleepsOf_app.
  repeat split; try congruence.
  rewrite B3, A3. reflexivity.
Qed.

(** The [catch] clause on any failure that is neither terminal, nor a 5xx
    with attempts left, nor read as a timeout: the generic error, at once. *)
Lemma onCatch_request_failed :
  forall attempt response code message w,
    statusIs response 401 = false -> statusIs response 404 = false ->
    statusIs response 422 = false ->
    (retriesLeft config attempt = false \/ response = None) ->
    looksLikeTimeout code message = false ->
    exists w',
      onCatch clock config method path fullUrl startTime attempt
        (AxiosError response code message) w
      = (Throw (requestFailed response message), w') /\ sameRun w w'.
Proof.
  intros attempt response code message w H401 H404 H422 Hleft Htimeout.
  unfold onCatch, bind.
  destruct (now_sameRun w) as (w1 & -> & H1).
  rewrite H401, H404, H422.
  assert (Hretry : retriesLeft config attempt
                   && match responseStatus response with
                      | Some s => 500 <=? s
                      | None => false
                      end = false).
  { destruct Hleft as [Hl|Hl]; [now rewrite Hl|].
    subst response. simpl. apply andb_false_r. }
  rewrite Hretry. unfold looksLikeTimeout in Htimeout. rewrite Htimeout.
  unfold throw, requestFailed, responseStatus.
  exists w1. split; [|exact H1].
  destruct response as [[s d]|]; reflexivity.
Qed.

Lemma sameRun_ranWith : forall w w', sameRun w w' <-> ranWith 0 [] w w'.
Proof.
  intros w w'. unfold sameRun, ranWith.
  rewrite Nat.add_0_r, app_nil_r. tauto.
Qed.

Lemma ranWith_trans :
  forall n1 n2 s1 s2 w1 w2 w3,
    ranWith n1 s1 w1 w2 -> ranWith n2 s2 w2 w3 ->
    ranWith (n1 + n2) (s1 ++ s2) w1 w3.
Proof.
  intros n1 n2 s1 s2 w1 w2 w3 (A1 & A2 & A3) (B1 & B2 & B3).
  repeat split.
  - congruence.
  - rewrite B2, A2. lia.
  - rewrite B3, A3. now rewrite app_assoc.
Qed.

Lemma request_step :
  forall w,
    exists w',
      request transport method url data params w
      = (outcomeResult (transport (attempts w)), w') /\ ranWith 1 [] w w'.
Proof.
  intros w. unfold request.
  eexists. split.
  - destruct (transport (attempts w)); reflexivity.
  - repeat split; cbn [globalConfig attempts log].
    + lia.
    + rewrite sleepsOf_app. reflexivity.
Qed.

Lemma iteration_retry :
  forall attempt s d code message w,
    transport (attempts w) = RejectedAxios (Some (s, d)) code message ->
    500 <= s -> retriesLeft config attempt = true ->
    exists w',
      iteration transport clock config method path fullUrl startTime data
        params url attempt w
      = (Ok (Next (Some (AxiosError (Some (s, d)) code message))), w') /\
      ranWith 1 [waitTime config attempt] w w'.
Proof.
  intros attempt s d code message w Ht Hs Hleft.
  unfold iteration, tryCatch, bind.
  destruct (request_step w) as (w1 & -> & H1). rewrite Ht.
  cbn [outcomeResult].
  destruct (onCatch_retry attempt s d code message w1 Hs Hleft)
    as (w2 & -> & B1 & B2 & B3).
  exists w2. split; [reflexivity|].
  apply (ranWith_trans 1 0 [] [waitTime config attempt] w w1 w2 H1).
  repeat split; [assumption|lia|assumption].
Qed.


Lemma iteration_request_failed :
  forall attempt response code message w,
    transport (attempts w) = RejectedAxios response code message ->
    statusIs response 401 = false -> statusIs response 404 = false ->
    statusIs response 422 = false ->
    (retriesLeft config attempt = false \/ response = None) ->
    looksLikeTimeout code message = false ->
    exists w',
      iteration transport clock config method path fullUrl startTime data
        params url attempt w
      = (Throw (requestFailed response message), w') /\ ranWith 1 [] w w'.
Proof.
  intros attempt response code message w Ht H401 H404 H422 Hleft Htimeout.
  unfold iteration, tryCatch, bind.
  destruct (request_step w) as (w1 & -> & H1). rewrite Ht.
  cbn [outcomeResult].
  destruct (onCatch_request_failed attempt response code message w1
              H401 H404 H422 Hleft Htimeout) as (w2 & -> & H2).
  exists w2. split; [reflexivity|].
  apply sameRun_ranWith in H2.
  exact (ranWith_trans 1 0 [] [] w w1 w2 H1 H2).
Qed.

Lemma iteration_done :
  forall attempt s d w,
    transport (attempts w) = Resolved s d ->
    isPolicyDenial method path d = false ->
    exists w',
      iteration transport clock config method path fullUrl startTime data
        params url attempt w
      = (Ok (Done d), w') /\ ranWith 1 [] w w'.
Proof.
  intros attempt s d w Ht Hden.
  unfold iteration, tryCatch, bind.
  destruct (request_step w) as (w1 & -> & H1). rewrite Ht.
  cbn [outcomeResult fst snd].
  destruct (onResponse_returns s d w1 Hden) as (w2 & -> & H2).
  exists w2. split; [reflexivity|].
  apply sameRun_ranWith in H2.
  exact (ranWith_trans 1 0 [] [] w w1 w2 H1 H2).
Qed.

(** [k] server errors in a row, with attempts left after each: the loop has
    waited [k] times and is at attempt [attempt + k]. *)
Lemma attemptLoop_retries :
  forall k remaining attempt lastError w,
    (k <= remaining)%nat ->
    (forall i, (i < k)%nat -> isServerError (transport (attempts w + i)%nat)) ->
    (forall i, (i < k)%nat -> retriesLeft config (attempt + i) = true) ->
    exists w' lastError',
      attemptLoop transport clock config method path fullUrl startTime data
        params url remaining attempt lastError w
      = attemptLoop transport clock config method path fullUrl startTime data
          params url (remaining - k) (attempt + k) lastError' w' /\
      ranWith k (map (waitTime config) (seq attempt k)) w w'.
Proof.
  induction k as [|k IH]; intros remaining attempt lastError w Hk H5xx Hleft.
  - exists w, lastError. rewrite Nat.sub_0_r, Nat.add_0_r.
    split; [reflexivity|]. apply sameRun_ranWith, sameRun_refl.
  - destruct remaining as [|remaining]; [lia|].
    destruct (H5xx 0%nat ltac:(lia)) as (s & d & code & message & Ht & Hs).
    rewrite Nat.add_0_r in Ht.
    pose proof (Hleft 0%nat ltac:(lia)) as Hl0. rewrite Nat.add_0_r in Hl0.
    destruct (iteration_retry attempt s d code message w Ht Hs Hl0)
      as (w1 & Hit & H1).
    destruct (IH remaining (S attempt)
                (Some (AxiosError (Some (s, d)) code message)) w1)
      as (w2 & le & Hloop & H2).
    + lia.
    + intros i Hi. destruct H1 as (_ & H1a & _). rewrite H1a.
      replace (attempts w + 1 + i)%nat with (attempts w + S i)%nat by lia.
      apply H5xx. lia.
    + intros i Hi.
      replace (S attempt + i)%nat with (attempt + S i)%nat by lia.
      apply Hleft. lia.
    + exists w2, le. split.
      * cbn [attemptLoop]. unfold bind at 1. rewrite Hit.
        rewrite Hloop. f_equal. lia.
      * exact (ranWith_trans 1 k [waitTime config attempt]
                 (map (waitTime config) (seq (S attempt) k)) w w1 w2 H1 H2).
Qed.

End ExecutorFacts.

Section MakeRequestFacts.

Variable env : Env.
Variable parseFloat : jsString -> option Q.
Variable transport : nat -> Outcome.
Variable clock : nat -> Z.

Lemma makeRequest_enters_loop :
  forall method path data params w config,
    globalConfig w = Some config ->
    exists w0 startTime fullUrl url,
      makeRequest env parseFloat transport clock method path data params w
      = attemptLoop transport clock config method path fullUrl startTime data
          params url (attemptBound config) 0 None w0 /\
      sameRun w w0.
Proof.
  intros method path data params w config Hcfg.
  unfold makeRequest, bind, getConfig. rewrite Hcfg.
  match goal with
  | |- context [notify ?cb ?ev w] =>
      destruct (notify_sameRun cb ev w) as (w1 & -> & H1); [reflexivity|]
  end.
  destruct (now_sameRun clock w1) as (w2 & -> & H2).
  do 4 eexists. split; [reflexivity|].
  eapply sameRun_trans; eassumption.
Qed.

Lemma retriesLeft_below :
  forall config m i,
    maxRetries config = Some (Z.of_nat m) -> (i < m)%nat ->
    retriesLeft config i = true.
Proof.
  intros config m i Hm Hi. unfold retriesLeft. rewrite Hm.
  apply Z.ltb_lt. lia.
Qed.

Lemma retriesLeft_at_bound :
  forall config m,
    maxRetries config = Some (Z.of_nat m) -> retriesLeft config m = false.
Proof.
  intros config m Hm. unfold retriesLeft. rewrite Hm.
  apply Z.ltb_ge. lia.
Qed.

Lemma attemptBound_succ :
  forall config m,
    maxRetries config = Some (Z.of_nat m) -> attemptBound config = S m.
Proof. intros config m Hm. unfold attemptBound. rewrite Hm. lia. Qed.

Lemma waitTime_backoff :
  forall config factor,
    retryBackoffFactor config = Some factor ->
    forall a k, map (waitTime config) (seq a k) = map (backoffMs factor) (seq a k).
Proof.
  intros config factor Hf a k. apply map_ext. intros i.
  unfold waitTime, backoffMs. now rewrite Hf.
Qed.

(** After [k <= maxRetries] server errors, [makeRequest] is at its attempt
    number [k], having slept the [k] backoff waits. *)
Lemma makeRequest_after_retries :
  forall method path data params w config m k,
    globalConfig w = Some config ->
    maxRetries config = Some (Z.of_nat m) ->
    (k <= m)%nat ->
    (forall i, (i < k)%nat -> isServerError (transport (attempts w + i)%nat)) ->
    exists wk startTime fullUrl url lastError,
      makeRequest env parseFloat transport clock method path data params w
      = attemptLoop transport clock config method path fullUrl startTime data
          params url (S (m - k)) k lastError wk /\
      ranWith k (map (waitTime config) (seq 0 k)) w wk.
Proof.
  intros method path data params w config m k Hcfg Hm Hk H5xx.
  destruct (makeRequest_enters_loop method path data params w config Hcfg)
    as (w0 & startTime & fullUrl & url & -> & H0).
  rewrite (attemptBound_succ config m Hm).
  destruct (attemptLoop_retries transport clock config method path fullUrl url
              startTime data params k (S m) 0 None w0)
    as (wk & le & Hloop & Hrun).
  - lia.
  - intros i Hi. destruct H0 as (_ & -> & _). now apply H5xx.
  - intros i Hi. apply (retriesLeft_below config m); [assumption|lia].
  - exists wk, startTime, fullUrl, url, le. split.
    + rewrite Hloop. f_equal. lia.
    + apply sameRun_ranWith in H0.
      exact (ranWith_trans 0 k [] _ w w0 wk H0 Hrun).
Qed.


(** A request whose first attempt succeeds. *)
Lemma makeRequest_resolved :
  forall method path data params w config m s d,
    globalConfig w = Some config ->
    maxRetries config = Some (Z.of_nat m) ->
    transport (attempts w) = Resolved s d ->
    isPolicyDenial method path d = false ->
    exists w',
      makeRequest env parseFloat transport clock method path data params w
      = (Ok d, w') /\ ranWith 1 [] w w'.
Proof.
  intros method path data params w config m s d Hcfg Hm Ht Hden.
  destruct (makeRequest_after_retries method path data params w config m 0
              Hcfg Hm ltac:(lia) ltac:(intros i Hi; lia))
    as (w0 & startTime & fullUrl & url & le & Hrun & H0).
  destruct (iteration_done transport clock config method path fullUrl url
              startTime data params 0 s d w0)
    as (w' & Hit & Hw'); [|assumption|].
  { destruct H0 as (_ & -> & _). now rewrite Nat.add_0_r. }
  exists w'. split.
  - rewrite Hrun. cbn [attemptLoop]. unfold bind. now rewrite Hit.
  - exact (ranWith_trans 0 1 [] [] w w0 w' H0 Hw').
Qed.

(** A request whose first attempt cannot connect: no response, and nothing
    that reads as a timeout.  It is not retried. *)
Lemma makeRequest_connection_failure :
  forall method path data params w config m code message,
    globalConfig w = Some config ->
    maxRetries config = Some (Z.of_nat m) ->
    transport (attempts w) = RejectedAxios None code message ->
    looksLikeTimeout code message = false ->
    exists w',
      makeRequest env parseFloat transport clock method path data params w
      = (Throw (Faramesh FarameshError (js "Request failed: " ++ message)
                  (Some 0)), w') /\
      ranWith 1 [] w w'.
Proof.
  intros method path data params w config m code message Hcfg Hm Ht Htimeout.
  destruct (makeRequest_after_retries method path data params w config m 0
              Hcfg Hm ltac:(lia) ltac:(intros i Hi; lia))
    as (w0 & startTime & fullUrl & url & le & Hrun & H0).
  destruct (iteration_request_failed transport clock config method path
              fullUrl url startTime data params 0 None code message w0)
    as (w' & Hit & Hw'); try reflexivity; try assumption.
  { destruct H0 as (_ & -> & _). now rewrite Nat.add_0_r. }
  { now right. }
  exists w'. split.
  - rewrite Hrun. cbn [attemptLoop]. unfold bind. now rewrite Hit.
  - exact (ranWith_trans 0 1 [] [] w w0 w' H0 Hw').
Qed.

End MakeRequestFacts.


(** C4.  The claim is that a connection failure (connection refused, DNS
    failure) is retried with the backoff of 5xx responses, up to maxRetries
    more attempts.  The code does not retry it: with three retries
    configured, the first refused connection (and likewise the first failed
    name lookup) is surfaced at once, as the generic request error with
    status code 0, after one attempt and no wait.  The branch for
    ECONNREFUSED, ENOTFOUND and ETIMEDOUT builds a FarameshConnectionError
    and drops it. *)
Theorem makeRequest_connection_failure_not_retried :
  maxRetries defaultConfig = Some 3%Z /\
  fst (makeRequest noEnv parseHalf refusedTransport stoppedClock GET
         (js "/v1/actions/a1") JUndefined JUndefined readyWorld)
  = Throw (Faramesh FarameshError
             (js "Request failed: connect ECONNREFUSED 127.0.0.1:8000")
             (Some 0)) /\
  attempts (snd (makeRequest noEnv parseHalf refusedTransport stoppedClock GET
                   (js "/v1/actions/a1") JUndefined JUndefined readyWorld))
  = 1%nat /\
  sleepsOf (log (snd (makeRequest noEnv parseHalf refusedTransport
                        stoppedClock GET (js "/v1/actions/a1") JUndefined
                        JUndefined readyWorld))) = [] /\
  fst (makeRequest noEnv parseHalf unresolvedTransport stoppedClock GET
         (js "/v1/actions/a1") JUndefined JUndefined readyWorld)
  = Throw (Faramesh FarameshError
             (js "Request failed: getaddrinfo ENOTFOUND faramesh.invalid")
             (Some 0)) /\
  attempts (snd (makeRequest noEnv parseHalf unresolvedTransport stoppedClock
                   GET (js "/v1/actions/a1") JUndefined JUndefined readyWorld))
  = 1%nat.
Proof. vm_compute. repeat split; reflexivity. Qed.

(* ========================================================================= *)
(** * The global configuration *)

(** C10.  Every call of [configure] installs a new configuration.  Its
    baseUrl, token, timeoutMs, maxRetries and retryBackoffFactor are the same
    whatever was configured before (they come from the options, the
    environment and the defaults alone).  Each of the three callbacks is the
    one given in the options, and when the options omit it, the one that was
    configured before.  So [configure({})] after [configure({token: t})],
    with no token in the environment, leaves no token but keeps the
    callbacks that were installed. *)
Theorem configure_rebuilds_configuration :
  forall env parseFloat options w,
    let previous := globalConfig w in
    exists c,
      globalConfig (snd (configure env parseFloat options w)) = Some c /\
      (baseUrl c = baseUrl (configured env parseFloat options None) /\
       token c = token (configured env parseFloat options None) /\
       timeoutMs c = timeoutMs (configured env parseFloat options None) /\
       maxRetries c = maxRetries (configured env parseFloat options None) /\
       retryBackoffFactor c
       = retryBackoffFactor (configured env parseFloat options None)) /\
      (onRequestStart c
       = match onRequestStart options, previous with
         | Some cb, _ => Some cb
         | None, Some p => onRequestStart p
         | None, None => None
         end /\
       onRequestEnd c
       = match onRequestEnd options, previous with
         | Some cb, _ => Some cb
         | None, Some p => onRequestEnd p
         | None, None => None
         end /\
       onError c
       = match onError options, previous with
         | Some cb, _ => Some cb
         | None, Some p => onError p
         | None, None => None
         end) /\
      (forall t rest cb1 cb2 cb3,
          strOr (FARAMESH_TOKEN env) (FARA_AUTH_TOKEN env) = None ->
          options = {| baseUrl := None; token := Some (t :: rest);
                       timeoutMs := None; maxRetries := None;
                       retryBackoffFactor := None;
                       onRequestStart := Some cb1; onRequestEnd := Some cb2;
                       onError := Some cb3 |} ->
          token c = Some (t :: rest) /\
          exists c',
            globalConfig
              (snd (configure env parseFloat noOptions
                      (snd (configure env parseFloat options w)))) = Some c' /\
            token c' = None /\
            onRequestStart c' = Some cb1 /\ onRequestEnd c' = Some cb2 /\
            onError c' = Some cb3).
Proof.
  intros env parseFloat options w previous.
  exists (configured env parseFloat options previous).
  split; [reflexivity|].
  split; [repeat split|].
  split.
  - unfold configured, cbOr; cbn [onRequestStart onRequestEnd onError].
    repeat split;
      [destruct (onRequestStart options)
      |destruct (onRequestEnd options)
      |destruct (onError options)];
      destruct previous; reflexivity.
  - intros t rest cb1 cb2 cb3 Henv ->.
    split; [reflexivity|].
    eexists. split; [reflexivity|].
    cbn. rewrite Henv. repeat split.
Qed.

Lemma configure_rebuilds_configuration_witness :
  exists c',
    globalConfig
      (snd (configure noEnv parseHalf noOptions
              (snd (configure noEnv parseHalf
                      {| baseUrl := None; token := Some (js "secret");
                         timeoutMs := None; maxRetries := None;
                         retryBackoffFactor := None;
                         onRequestStart := Some (CallbackId 1);
                         onRequestEnd := Some (CallbackId 2);
                         onError := Some (CallbackId 3) |} freshWorld))))
    = Some c' /\
    token c' = None /\
    onRequestStart c' = Some (CallbackId 1) /\
    onRequestEnd c' = Some (CallbackId 2) /\
    onError c' = Some (CallbackId 3).
Proof.
  destruct (configure_rebuilds_configuration noEnv parseHalf
              {| baseUrl := None; token := Some (js "secret");
                 timeoutMs := None; maxRetries := None;
                 retryBackoffFactor := None;
                 onRequestStart := Some (CallbackId 1);
                 onRequestEnd := Some (CallbackId 2);
                 onError := Some (CallbackId 3) |} freshWorld)
    as (c & _ & _ & _ & Hex).
  destruct (Hex 115 (js "ecret") (CallbackId 1) (CallbackId 2) (CallbackId 3)
              eq_refl eq_refl) as (_ & Hc').
  exact Hc'.
Defined.

(* ========================================================================= *)
(** * Further properties of the canonicalizer *)

(** X1.  [canonicalize] returns a string for every value but a top-level
    [undefined], for which [JSON.parse] throws a SyntaxError; no input makes
    it throw a CanonicalizeError. *)
Theorem canonicalize_returns_or_syntax_error :
  forall v,
    match v with
    | JUndefined => canonicalize v = Throw SyntaxError
    | _ => exists s, canonicalize v = Ok s
    end.
Proof.
  intros v.
  destruct v; try reflexivity; apply canonicalize_total; discriminate.
Qed.

Lemma readStringBody_plain :
  forall c t,
    c <> 34 -> c <> 92 ->
    readStringBody (c :: t) = option_map (cons c) (readStringBody t).
Proof.
  intros c t H34 H92.
  destruct c as [|p]; [reflexivity|].
  do 7 (try (destruct p as [p|p|]; try reflexivity));
    exfalso; (now apply H34) || (now apply H92).
Qed.

Lemma readStringBody_escapeUnit :
  forall c t,
    readStringBody (escapeUnit c ++ t) = option_map (cons c) (readStringBody t).
Proof.
  intros c t. unfold escapeUnit.
  destruct (N.eqb_spec c 34) as [->|H34]; [reflexivity|].
  destruct (N.eqb_spec c 92) as [->|H92]; [reflexivity|].
  destruct (N.eqb_spec c 8) as [->|H8]; [reflexivity|].
  destruct (N.eqb_spec c 12) as [->|H12]; [reflexivity|].
  destruct (N.eqb_spec c 10) as [->|H10]; [reflexivity|].
  destruct (N.eqb_spec c 13) as [->|H13]; [reflexivity|].
  destruct (N.eqb_spec c 9) as [->|H9]; [reflexivity|].
  destruct (N.ltb_spec c 32) as [Hlt|Hge].
  - destruct c as [|p]; [reflexivity|].
    do 5 (try (destruct p as [p|p|]; try reflexivity)); exfalso; lia.
  - now apply readStringBody_plain.
Qed.

Lemma readStringBody_escaped :
  forall s, readStringBody (flat_map escapeUnit s ++ [34]) = Some s.
Proof.
  induction s as [|c s IH]; [reflexivity|].
  simpl flat_map. rewrite <- app_assoc, readStringBody_escapeUnit, IH.
  reflexivity.
Qed.

(** X2.  Reading a serialized string back gives the string: the escapes of
    [serializeString] are decoded without loss, so two different strings
    never serialize to the same text. *)
Theorem serializeString_round_trip :
  (forall s, readString (serializeString s) = Some s) /\
  (forall s t, serializeString s = serializeString t -> s = t).
Proof.
  assert (Hread : forall s, readString (serializeString s) = Some s).
  { intros s. unfold serializeString. simpl. apply readStringBody_escaped. }
  split; [exact Hread|].
  intros s t Heq.
  pose proof (Hread s) as Hs. rewrite Heq, Hread in Hs. now injection Hs.
Qed.

Lemma escapeUnit_printable :
  forall c, Forall (fun u => 32 <= u) (escapeUnit c).
Proof.
  intros c. unfold escapeUnit.
  repeat match goal with
         | |- context [N.eqb ?a ?b] => destruct (N.eqb_spec a b)
         end;
    try (repeat constructor; lia).
  destruct (N.ltb_spec c 32) as [Hlt|Hge].
  - destruct c as [|p]; [repeat constructor; lia|].
    do 5 (try (destruct p as [p|p|]; try (repeat constructor; lia)));
      exfalso; lia.
  - repeat constructor. exact Hge.
Qed.

Lemma flat_map_escapeUnit_plain :
  forall s, Forall isPlainUnit s -> flat_map escapeUnit s = s.
Proof.
  intros s H. induction H as [|c s (H32 & H34 & H92) _ IH]; [reflexivity|].
  simpl. rewrite IH. unfold escapeUnit.
  repeat match goal with
         | |- context [N.eqb ?a ?b] => destruct (N.eqb_spec a b); [lia|]
         end.
  destruct (N.ltb_spec c 32); [lia|reflexivity].
Qed.

(** X3.  The text that [serializeString] writes starts and ends with a quote,
    holds no control character (no code unit below 0x20), and keeps every
    code unit other than the quote, the backslash and the control characters
    as it is: a string of such units, non-ASCII ones included, is only
    wrapped in quotes. *)
Theorem serializeString_units :
  forall s,
    Forall (fun u => 32 <= u) (serializeString s) /\
    hd 0 (serializeString s) = 34 /\
    last (serializeString s) 0 = 34 /\
    (Forall isPlainUnit s -> serializeString s = [34] ++ s ++ [34]).
Proof.
  intros s. unfold serializeString. split; [|split; [|split]].
  - apply Forall_app; split; [repeat constructor; lia|].
    apply Forall_app; split; [|repeat constructor; lia].
    rewrite Forall_flat_map. apply Forall_forall.
    intros c _. apply escapeUnit_printable.
  - reflexivity.
  - rewrite app_assoc. apply last_last.
  - intros Hplain. now rewrite flat_map_escapeUnit_plain.
Qed.

Lemma copyProps_defined :
  forall props,
    copyProps (filter (fun entry => negb (isUndefined (snd entry))) props)
    = copyProps props.
Proof.
  intros props. unfold copyProps.
  induction props as [|[k v] props IH]; [reflexivity|].
  destruct v; cbn [flat_map filter snd fst negb isUndefined app];
    rewrite IH; reflexivity.
Qed.

(** X4.  A property whose value is [undefined] does not count: a mapping
    canonicalizes like the mapping without such properties.  In a sequence,
    [undefined] counts as [null]. *)
Theorem canonicalize_ignores_undefined :
  (forall props,
      canonicalize (JObj props)
      = canonicalize
          (JObj (filter (fun entry => negb (isUndefined (snd entry))) props))) /\
  (forall items,
      canonicalize (JArr items)
      = canonicalize
          (JArr (map (fun v => if isUndefined v then JNull else v) items))).
Proof.
  split.
  - intros props. unfold canonicalize, jsonRoundTrip, bindR.
    now rewrite !jsonCopy_obj, copyProps_defined.
  - intros items. unfold canonicalize, jsonRoundTrip, bindR.
    simpl jsonCopy. rewrite map_map. do 2 f_equal.
    apply map_ext. intros v. now destruct v.
Qed.

Lemma normalizeFloat_plain :
  forall neg ds n,
    wfDigits ds -> (-6 < n <= 21)%Z ->
    normalizeFloat (Finite neg ds n) = Ok (signPrefix neg ++ toStringPos ds n).
Proof.
  intros neg ds n Hwf Hn.
  pose proof (wfDigits_last ds Hwf) as [Hl48 _].
  destruct (toStringPos_plain ds n Hwf Hn) as [Hshape _].
  unfold normalizeFloat. cbn [isNaN isFinite isZero negb].
  change (js "e") with [101]. change (js "E") with [69].
  rewrite toString_finite.
  rewrite (includes_unit_false 101), (includes_unit_false 69);
    try (apply (plainShape_no_unit _ _ _ _ Hshape); unfold isDigitUnit; lia).
  cbn [orb]. now rewrite (plainShape_strip _ _ _ Hshape Hl48).
Qed.

Lemma normalizeFloat_exponent :
  forall neg d rest n,
    wfDigits (d :: rest) -> (21 < n \/ n <= -6)%Z ->
    normalizeFloat (Finite neg (d :: rest) n)
    = Ok (signPrefix neg
            ++ shiftPoint [48 + d] (digitUnits rest) (Some (n - 1)%Z)).
Proof.
  intros neg d rest n Hwf Hn.
  pose proof (wfDigits_last _ Hwf) as [Hl48 _].
  destruct (wfDigits_cons _ Hwf) as (d' & rest' & Eds & Hd & Hrest).
  injection Eds as <- <-.
  destruct (shiftPoint_shape (48 + d) (digitUnits rest) (n - 1)%Z Hd Hrest
              ltac:(lia)) as [Hshape _].
  unfold normalizeFloat. cbn [isNaN isFinite isZero negb].
  change (js "e") with [101]. change (js "E") with [69].
  rewrite includes_unit_true.
  2:{ rewrite toString_finite, toStringPos_exponent by assumption.
      apply in_or_app. right. apply in_or_app. right. now left. }
  cbn [orb]. rewrite expandExponent_toString by assumption.
  cbn [hd tl].
  change (last ((48 + d) :: digitUnits rest) 0)
    with (last (digitUnits (d :: rest)) 0) in Hshape.
  rewrite last_digitUnits in Hshape by discriminate.
  now rewrite (plainShape_strip _ _ _ Hshape Hl48).
Qed.

(** X5.  A number whose value is an integer is written as all of its digits
    followed by the zeros that bring it to its magnitude, with a minus sign
    in front when negative, whatever its size: also at and above 1e21, where
    [toString] itself switches to exponent notation. *)
Theorem normalizeFloat_integral :
  forall neg ds n,
    wfDigits ds -> (Z.of_nat (List.length ds) <= n)%Z ->
    normalizeFloat (Finite neg ds n)
    = Ok (signPrefix neg ++ digitUnits ds
            ++ Str.repeat 48 (Z.to_nat (n - Z.of_nat (List.length ds)))).
Proof.
  intros neg ds n Hwf Hk.
  destruct (wfDigits_cons ds Hwf) as (d & rest & -> & _ & _).
  destruct (Z.le_gt_cases n 21) as [Hn|Hn].
  - rewrite normalizeFloat_plain by (simpl in Hk; auto; lia).
    now rewrite toStringPos_integral by lia.
  - rewrite normalizeFloat_exponent by (auto; lia).
    do 2 f_equal. unfold shiftPoint.
    destruct (Z.ltb_spec 0 (n - 1)); [|lia].
    assert (Hlen : List.length (digitUnits rest) = List.length rest)
      by (unfold digitUnits; apply length_map).
    simpl List.length in Hk.
    destruct (Nat.leb_spec (List.length (digitUnits rest)) (Z.to_nat (n - 1)));
      [|lia].
    change (digitUnits (d :: rest)) with ([48 + d] ++ digitUnits rest).
    rewrite <- app_assoc. do 3 f_equal.
    rewrite Hlen. simpl List.length. lia.
Qed.

Lemma normalizeFloat_integral_witness :
  normalizeFloat (Finite true [1; 2] 23)
  = Ok (js "-12000000000000000000000").
Proof.
  assert (Hwf : wfDigits [1; 2]).
  { unfold wfDigits. repeat split; try discriminate. repeat constructor. }
  exact (normalizeFloat_integral true [1; 2] 23 Hwf ltac:(simpl; lia)).
Defined.



(** ** Further properties of the request hash *)

Lemma filter_keys_in :
  forall (f : jsString * JsValue -> bool) p k,
    In k (keys (filter f p)) -> In k (keys p).
Proof.
  intros f p k Hin. unfold keys in *. apply in_map_iff in Hin as ((k', v) & <- & Hin).
  apply filter_In in Hin as [Hin _]. apply in_map_iff. now exists (k', v).
Qed.

Lemma filter_keys_nodup :
  forall (f : jsString * JsValue -> bool) p,
    NoDup (keys p) -> NoDup (keys (filter f p)).
Proof.
  intros f p. induction p as [|[k v] p IH]; intros Hnd; [constructor|].
  inversion Hnd as [|? ? Hnin Hnd']; subst. simpl.
  destruct (f (k, v)); [|now apply IH].
  simpl. constructor; [|now apply IH].
  intros Hin. apply Hnin. now apply filter_keys_in in Hin.
Qed.

Lemma filter_permutation :
  forall (f : jsString * JsValue -> bool) p1 p2,
    Permutation p1 p2 -> Permutation (filter f p1) (filter f p2).
Proof.
  intros f p1 p2 HP. induction HP; simpl.
  - constructor.
  - destruct (f x); [now constructor|assumption].
  - destruct (f x); destruct (f y); try reflexivity. apply perm_swap.
  - etransitivity; eassumption.
Qed.

Section RequestHashFacts.

Variable sha256 : list N -> jsString.

Lemma computeRequestHash_stripped :
  forall payload,
    NoDup (keys payload) ->
    computeRequestHash sha256 payload
    = bindR (canonicalize (JObj (stripEphemeral payload)))
        (fun canonicalStr => Ok (sha256 (utf8 canonicalStr))).
Proof.
  intros payload Hnd.
  unfold computeRequestHash, canonicalizeActionPayload.
  now rewrite cleanPayload_strips.
Qed.

(** X7.  [computeRequestHash] returns a digest for every payload object (no
    payload makes it throw), and the digest does not depend on the order in
    which the payload's fields were inserted. *)
Theorem computeRequestHash_order_independent :
  forall p1 p2,
    NoDup (keys p1) -> Permutation p1 p2 ->
    (exists h, computeRequestHash sha256 p1 = Ok h) /\
    computeRequestHash sha256 p1 = computeRequestHash sha256 p2.
Proof.
  intros p1 p2 Hnd HP.
  assert (Hnd2 : NoDup (keys p2)).
  { eapply Permutation_NoDup; [|exact Hnd]. now apply Permutation_map. }
  rewrite !computeRequestHash_stripped by assumption.
  split.
  - destruct (canonicalize_total (JObj (stripEphemeral p1)) ltac:(discriminate))
      as [s ->].
    simpl. eauto.
  - rewrite (canonicalize_permutation (stripEphemeral p1) (stripEphemeral p2));
      [reflexivity| |].
    + now apply filter_keys_nodup.
    + now apply filter_permutation.
Qed.

(** X8.  [verifyRequestHash] never throws on a payload object: it answers
    [true] exactly when the expected hash is the payload's request hash, and
    its answer does not change when an ephemeral or underscore-prefixed field
    is set on the payload (so an Action as the server returns it verifies
    like the request it came from). *)
Theorem verifyRequestHash_decides :
  forall payload,
    NoDup (keys payload) ->
    exists h,
      computeRequestHash sha256 payload = Ok h /\
      (forall expected,
          verifyRequestHash sha256 payload expected = Ok (Str.eqb h expected) /\
          (verifyRequestHash sha256 payload expected = Ok true
           <-> expected = h)) /\
      (forall key value expected,
          isEphemeralField key || isUnderscoreField key = true ->
          verifyRequestHash sha256 (objSet payload key value) expected
          = verifyRequestHash sha256 payload expected).
Proof.
  intros payload Hnd.
  destruct (computeRequestHash_order_independent payload payload Hnd
              (Permutation_refl _)) as [[h Hh] _].
  exists h. split; [exact Hh|]. split.
  - intros expected. unfold verifyRequestHash. rewrite Hh. simpl.
    split; [reflexivity|]. split.
    + intros H. injection H as H. apply str_eqb_eq in H. congruence.
    + intros ->. now rewrite str_eqb_refl.
  - intros key value expected Hex. unfold verifyRequestHash.
    rewrite !computeRequestHash_stripped
      by (try apply objSet_keys_nodup; assumption).
    now rewrite stripEphemeral_objSet.
Qed.

End RequestHashFacts.

Lemma computeRequestHash_order_independent_witness :
  computeRequestHash (fun bytes => bytes)
    [ (js "tool", JStr (js "http")); (js "agent_id", JStr (js "a")) ]
  = computeRequestHash (fun bytes => bytes)
      [ (js "agent_id", JStr (js "a")); (js "tool", JStr (js "http")) ].
Proof.
  apply (proj2 (computeRequestHash_order_independent (fun bytes => bytes)
                  [ (js "tool", JStr (js "http")); (js "agent_id", JStr (js "a")) ]
                  [ (js "agent_id", JStr (js "a")); (js "tool", JStr (js "http")) ]
                  ltac:(repeat constructor; simpl; intuition discriminate)
                  (perm_swap _ _ _))).
Defined.

Lemma verifyRequestHash_decides_witness :
  exists h,
    computeRequestHash (fun bytes => bytes) [ (js "tool", JStr (js "http")) ]
    = Ok h /\
    verifyRequestHash (fun bytes => bytes)
      (objSet [ (js "tool", JStr (js "http")) ] (js "status") (JStr (js "allowed")))
      h
    = Ok true.
Proof.
  destruct (verifyRequestHash_decides (fun bytes => bytes)
              [ (js "tool", JStr (js "http")) ]
              ltac:(repeat constructor; simpl; intuition discriminate))
    as (h & Hh & Hdec & Heph).
  exists h. split; [exact Hh|].
  rewrite (Heph (js "status") (JStr (js "allowed")) h eq_refl).
  now apply (proj2 (Hdec h)).
Defined.

(* ========================================================================= *)
(** * Further properties of the transport executor *)

Section ExecutorMore.

Variable transport : nat -> Outcome.
Variable clock : nat -> Z.
Variable config : ClientConfig.
Variable method : Method.
Variable path fullUrl url : jsString.
Variable startTime : Z.
Variable data params : JsValue.


(** The [catch] clause on an error that is not an AxiosError. *)
Lemma onCatch_unknown :
  forall attempt message w,
    exists w',
      onCatch clock config method path fullUrl startTime attempt
        (OtherError message) w
      = (Ok (Some (OtherError message)), w') /\
      ranWith 0 (if retriesLeft config attempt
                 then [waitTime config attempt] else []) w w'.
Proof.
  intros attempt message w. unfold onCatch, bind, retryUnknown.
  destruct (now_sameRun clock w) as (w1 & -> & (A1 & A2 & A3)).
  destruct (retriesLeft config attempt).
  - unfold bind, sleep, emit, ret. eexists. split; [reflexivity|].
    repeat split; cbn [globalConfig attempts log].
    + exact A1.
    + lia.
    + now rewrite sleepsOf_app, A3.
  - unfold ret. exists w1. split; [reflexivity|].
    repeat split; [exact A1|lia|]. now rewrite A3, app_nil_r.
Qed.

(** The [catch] clause rethrows a policy error. *)
Lemma onCatch_policy :
  forall attempt message statusCode w,
    exists w',
      onCatch clock config method path fullUrl startTime attempt
        (Faramesh FarameshPolicyError message statusCode) w
      = (Throw (Faramesh FarameshPolicyError message statusCode), w') /\
      sameRun w w'.
Proof.
  intros attempt message statusCode w. unfold onCatch, bind.
  destruct (now_sameRun clock w) as (w1 & -> & H1).
  exists w1. split; [reflexivity|exact H1].
Qed.

Lemma denyByPolicy_throws :
  forall status durationMs responseData w,
    exists w',
      denyByPolicy config method fullUrl status durationMs responseData w
      = (Throw (policyError responseData), w') /\ sameRun w w'.
Proof.
  intros status durationMs responseData w. unfold denyByPolicy, bind.
  match goal with
  | |- context [notify ?cb ?ev w] =>
      destruct (notify_sameRun cb ev w) as (w1 & -> & H1); [reflexivity|]
  end.
  match goal with
  | |- context [notify ?cb ?ev w1] =>
      destruct (notify_sameRun cb ev w1) as (w2 & -> & H2); [reflexivity|]
  end.
  exists w2. split; [reflexivity|eapply sameRun_trans; eassumption].
Qed.

Lemma onResponse_denied :
  forall status responseData w,
    isPolicyDenial method path responseData = true ->
    exists w',
      onResponse clock config method path fullUrl startTime status
        responseData w
      = (Throw (policyError responseData), w') /\ sameRun w w'.
Proof.
  intros status rd w Hden. unfold onResponse, bind.
  destruct (now_sameRun clock w) as (w1 & -> & H1).
  unfold isPolicyDenial in Hden.
  apply andb_true_iff in Hden as [Hguard Hden]. rewrite Hguard.
  destruct (denyByPolicy_throws status (clock (clockReads w) - startTime)%Z
              rd w1) as (w2 & Hdeny & H2).
  destruct (strictEq (prop rd "status") (JStr (js "denied"))).
  - rewrite Hdeny. exists w2.
    split; [reflexivity|eapply sameRun_trans; eassumption].
  - simpl in Hden. rewrite Hden, Hdeny. exists w2.
    split; [reflexivity|eapply sameRun_trans; eassumption].
Qed.


Lemma iteration_denied :
  forall attempt s d w,
    transport (attempts w) = Resolved s d ->
    isPolicyDenial method path d = true ->
    exists w',
      iteration transport clock config method path fullUrl startTime data
        params url attempt w
      = (Throw (policyError d), w') /\ ranWith 1 [] w w'.
Proof.
  intros attempt s d w Ht Hden.
  unfold iteration, tryCatch, bind.
  destruct (request_step transport method url data params w)
    as (w1 & -> & H1).
  rewrite Ht. cbn [outcomeResult fst snd].
  destruct (onResponse_denied s d w1 Hden) as (w2 & -> & H2).
  unfold policyError.
  destruct (onCatch_policy attempt
              (toStr (orElse (prop d "reason")
                        (JStr (js "Action denied by policy")))) None w2)
    as (w3 & -> & H3).
  exists w3. split; [reflexivity|].
  apply sameRun_ranWith in H2. apply sameRun_ranWith in H3.
  pose proof (ranWith_trans 0 0 [] [] w1 w2 w3 H2 H3) as H23.
  exact (ranWith_trans 1 0 [] [] w w1 w3 H1 H23).
Qed.

Lemma iteration_unknown :
  forall attempt message w,
    transport (attempts w) = RejectedOther message ->
    exists w',
      iteration transport clock config method path fullUrl startTime data
        params url attempt w
      = (Ok (Next (Some (OtherError message))), w') /\
      ranWith 1 (if retriesLeft config attempt
                 then [waitTime config attempt] else []) w w'.
Proof.
  intros attempt message w Ht.
  unfold iteration, tryCatch, bind.
  destruct (request_step transport method url data params w)
    as (w1 & -> & H1).
  rewrite Ht. cbn [outcomeResult].
  destruct (onCatch_unknown attempt message w1) as (w2 & -> & H2).
  exists w2. split; [reflexivity|].
  exact (ranWith_trans 1 0 [] _ w w1 w2 H1 H2).
Qed.

(** [k] transient failures in a row, with attempts left after each. *)
Lemma attemptLoop_transients :
  forall k remaining attempt lastError w,
    (k <= remaining)%nat ->
    (forall i, (i < k)%nat -> isTransient (transport (attempts w + i)%nat)) ->
    (forall i, (i < k)%nat -> retriesLeft config (attempt + i) = true) ->
    exists w' lastError',
      attemptLoop transport clock config method path fullUrl startTime data
        params url remaining attempt lastError w
      = attemptLoop transport clock config method path fullUrl startTime data
          params url (remaining - k) (attempt + k) lastError' w' /\
      ranWith k (map (waitTime config) (seq attempt k)) w w'.
Proof.
  induction k as [|k IH]; intros remaining attempt lastError w Hk Htr Hleft.
  - exists w, lastError. rewrite Nat.sub_0_r, Nat.add_0_r.
    split; [reflexivity|]. apply sameRun_ranWith, sameRun_refl.
  - destruct remaining as [|remaining]; [lia|].
    pose proof (Hleft 0%nat ltac:(lia)) as Hl0. rewrite Nat.add_0_r in Hl0.
    assert (Hstep :
              exists w1 le1,
                iteration transport clock config method path fullUrl
                  startTime data params url attempt w
                = (Ok (Next le1), w1) /\
                ranWith 1 [waitTime config attempt] w w1).
    { destruct (Htr 0%nat ltac:(lia)) as [Hs|[message Ht]];
        rewrite Nat.add_0_r in *.
      - destruct Hs as (s & d & code & message & Ht & Hs).
        destruct (iteration_retry transport clock config method path fullUrl
                    url startTime data params attempt s d code message w
                    Ht Hs Hl0) as (w1 & Hit & H1).
        eauto.
      - destruct (iteration_unknown attempt message w Ht) as (w1 & Hit & H1).
        rewrite Hl0 in H1. eauto. }
    destruct Hstep as (w1 & le1 & Hit & H1).
    destruct (IH remaining (S attempt) le1 w1) as (w2 & le & Hloop & H2).
    + lia.
    + intros i Hi. destruct H1 as (_ & H1a & _). rewrite H1a.
      replace (attempts w + 1 + i)%nat with (attempts w + S i)%nat by lia.
      apply Htr. lia.
    + intros i Hi.
      replace (S attempt + i)%nat with (attempt + S i)%nat by lia.
      apply Hleft. lia.
    + exists w2, le. split.
      * cbn [attemptLoop]. unfold bind at 1. rewrite Hit.
        rewrite Hloop. f_equal. lia.
      * exact (ranWith_trans 1 k [waitTime config attempt]
                 (map (waitTime config) (seq (S attempt) k)) w w1 w2 H1 H2).
Qed.

End ExecutorMore.

Section MakeRequestMore.

Variable env : Env.
Variable parseFloat : jsString -> option Q.
Variable transport : nat -> Outcome.
Variable clock : nat -> Z.

Lemma makeRequest_enters_loop_at :
  forall method path data params w config,
    globalConfig w = Some config ->
    exists w0 startTime,
      makeRequest env parseFloat transport clock method path data params w
      = attemptLoop transport clock config method path (fullUrlOf config path)
          startTime data params (urlOf path) (attemptBound config) 0 None w0 /\
      sameRun w w0.
Proof.
  intros method path data params w config Hcfg.
  unfold makeRequest, bind, getConfig. rewrite Hcfg.
  match goal with
  | |- context [notify ?cb ?ev w] =>
      destruct (notify_sameRun cb ev w) as (w1 & -> & H1); [reflexivity|]
  end.
  destruct (now_sameRun clock w1) as (w2 & -> & H2).
  do 2 eexists. split; [reflexivity|].
  eapply sameRun_trans; eassumption.
Qed.

(** After [k <= maxRetries] transient failures, [makeRequest] is at its
    attempt number [k], having slept the [k] backoff waits. *)
Lemma makeRequest_after_transients :
  forall method path data params w config m k,
    globalConfig w = Some config ->
    maxRetries config = Some (Z.of_nat m) ->
    (k <= m)%nat ->
    (forall i, (i < k)%nat -> isTransient (transport (attempts w + i)%nat)) ->
    exists wk startTime lastError,
      makeRequest env parseFloat transport clock method path data params w
      = attemptLoop transport clock config method path (fullUrlOf config path)
          startTime data params (urlOf path) (S (m - k)) k lastError wk /\
      ranWith k (map (waitTime config) (seq 0 k)) w wk.
Proof.
  intros method path data params w config m k Hcfg Hm Hk Htr.
  destruct (makeRequest_enters_loop_at method path data params w config Hcfg)
    as (w0 & startTime & -> & H0).
  rewrite (attemptBound_succ config m Hm).
  destruct (attemptLoop_transients transport clock config method path
              (fullUrlOf config path) (urlOf path) startTime data params
              k (S m) 0 None w0)
    as (wk & le & Hloop & Hrun).
  - lia.
  - intros i Hi. destruct H0 as (_ & -> & _). now apply Htr.
  - intros i Hi. apply (retriesLeft_below config m); [assumption|lia].
  - exists wk, startTime, le. split.
    + rewrite Hloop. f_equal. lia.
    + apply sameRun_ranWith in H0.
      exact (ranWith_trans 0 k [] _ w w0 wk H0 Hrun).
Qed.

(** How a run ends when the attempt after [k] transient failures throws. *)
Lemma makeRequest_ends_with_throw :
  forall method path data params w config m factor k e,
    globalConfig w = Some config ->
    maxRetries config = Some (Z.of_nat m) ->
    retryBackoffFactor config = Some factor ->
    (k <= m)%nat ->
    (forall i, (i < k)%nat -> isTransient (transport (attempts w + i)%nat)) ->
    (forall startTime wk,
        attempts wk = (attempts w + k)%nat ->
        exists w',
          iteration transport clock config method path (fullUrlOf config path)
            startTime data params (urlOf path) k wk = (Throw e, w') /\
          ranWith 1 [] wk w') ->
    let run :=
      makeRequest env parseFloat transport clock method path data params w in
    fst run = Throw e /\
    attempts (snd run) = (attempts w + k + 1)%nat /\
    sleepsOf (log (snd run))
    = sleepsOf (log w) ++ map (backoffMs factor) (seq 0 k).
Proof.
  intros method path data params w config m factor k e Hcfg Hm Hf Hk Htr Hit
         run.
  destruct (makeRequest_after_transients method path data params w config m k
              Hcfg Hm Hk Htr)
    as (wk & startTime & le & Hrun & Hk1 & Hk2 & Hk3).
  rewrite (waitTime_backoff config factor Hf) in Hk3.
  destruct (Hit startTime wk Hk2) as (w' & Hiter & (A1 & A2 & A3)).
  subst run. rewrite Hrun. cbn [attemptLoop]. unfold bind. rewrite Hiter.
  cbn [fst snd]. repeat split; [lia|].
  rewrite A3, Hk3. now rewrite app_nil_r.
Qed.


(** X12.  A successful response of the submission endpoint (POST
    /v1/actions) whose status is "denied", or whose decision is "deny" while
    its status is not "pending_approval", is raised as the policy error with
    the response's reason (or "Action denied by policy"); it is not retried,
    whatever attempts are left. *)
Theorem makeRequest_policy_denial :
  forall method path data params w config m factor k s d,
    globalConfig w = Some config ->
    maxRetries config = Some (Z.of_nat m) ->
    retryBackoffFactor config = Some factor ->
    (k <= m)%nat ->
    (forall i, (i < k)%nat -> isTransient (transport (attempts w + i)%nat)) ->
    transport (attempts w + k)%nat = Resolved s d ->
    isPolicyDenial method path d = true ->
    let run :=
      makeRequest env parseFloat transport clock method path data params w in
    fst run = Throw (policyError d) /\
    attempts (snd run) = (attempts w + k + 1)%nat /\
    sleepsOf (log (snd run))
    = sleepsOf (log w) ++ map (backoffMs factor) (seq 0 k).
Proof.
  intros method path data params w config m factor k s d
         Hcfg Hm Hf Hk Htr Ht Hden.
  apply (makeRequest_ends_with_throw method path data params w config m factor
           k (policyError d) Hcfg Hm Hf Hk Htr).
  intros startTime wk Hwk.
  apply (iteration_denied transport clock config method path
           (fullUrlOf config path) (urlOf path) startTime data params k s d
           wk); [now rewrite Hwk|assumption].
Qed.

(** X13.  An error of the transport that is not an AxiosError is retried
    like a 5xx response.  When all [maxRetries + 1] attempts fail
    transiently and the last one with such an error, the request fails with
    the generic error "Request failed after N attempts: " and the last
    error's message, carrying no status code, after [maxRetries] waits. *)
Theorem makeRequest_unknown_errors_exhausted :
  forall method path data params w config m factor message,
    globalConfig w = Some config ->
    maxRetries config = Some (Z.of_nat m) ->
    retryBackoffFactor config = Some factor ->
    (forall i, (i < m)%nat -> isTransient (transport (attempts w + i)%nat)) ->
    transport (attempts w + m)%nat = RejectedOther message ->
    let run :=
      makeRequest env parseFloat transport clock method path data params w in
    fst run
    = Throw (Faramesh FarameshError
               (js "Request failed after " ++ decimalOfZ (Z.of_nat m + 1)
                  ++ js " attempts: " ++ message) None) /\
    attempts (snd run) = (attempts w + m + 1)%nat /\
    sleepsOf (log (snd run))
    = sleepsOf (log w) ++ map (backoffMs factor) (seq 0 m).
Proof.
  intros method path data params w config m factor message
         Hcfg Hm Hf Htr Ht run.
  destruct (makeRequest_after_transients method path data params w config m m
              Hcfg Hm (le_n m) Htr)
    as (wk & startTime & le & Hrun & Hk1 & Hk2 & Hk3).
  rewrite (waitTime_backoff config factor Hf) in Hk3.
  destruct (iteration_unknown transport clock config method path
              (fullUrlOf config path) (urlOf path) startTime data params m
              message wk) as (w' & Hiter & (A1 & A2 & A3));
    [now rewrite Hk2|].
  rewrite (retriesLeft_at_bound config m Hm) in A3.
  subst run. rewrite Hrun. rewrite Nat.sub_diag.
  cbn [attemptLoop]. unfold bind. rewrite Hiter.
  cbn [afterLoop throw fst snd exnMessage].
  rewrite Hm. cbn [option_map numStr].
  replace (Z.succ (Z.of_nat m)) with (Z.of_nat m + 1)%Z by lia.
  repeat split; [lia|].
  rewrite A3, Hk3. now rewrite !app_nil_r.
Qed.

End MakeRequestMore.

Lemma makeRequest_connection_failure_witness :
  exists w',
    makeRequest noEnv parseHalf refusedTransport stoppedClock GET
      (js "/v1/actions/a1") JUndefined JUndefined readyWorld
    = (Throw (Faramesh FarameshError
                (js "Request failed: "
                   ++ js "connect ECONNREFUSED 127.0.0.1:8000") (Some 0)), w') /\
    ranWith 1 [] readyWorld w'.
Proof.
  exact (makeRequest_connection_failure noEnv parseHalf refusedTransport
           stoppedClock GET (js "/v1/actions/a1") JUndefined JUndefined
           readyWorld defaultConfig 3 (Some (js "ECONNREFUSED"))
           (js "connect ECONNREFUSED 127.0.0.1:8000")
           eq_refl eq_refl eq_refl eq_refl).
Defined.


Lemma makeRequest_policy_denial_witness :
  fst (makeRequest noEnv parseHalf denyingTransport stoppedClock POST
         (js "/v1/actions") (JObj []) JUndefined readyWorld)
  = Throw (Faramesh FarameshPolicyError (js "too risky") None) /\
  attempts (snd (makeRequest noEnv parseHalf denyingTransport stoppedClock
                   POST (js "/v1/actions") (JObj []) JUndefined readyWorld))
  = 1%nat /\
  sleepsOf (log (snd (makeRequest noEnv parseHalf denyingTransport
                        stoppedClock POST (js "/v1/actions") (JObj [])
                        JUndefined readyWorld))) = [].
Proof.
  exact (makeRequest_policy_denial noEnv parseHalf denyingTransport
           stoppedClock POST (js "/v1/actions") (JObj []) JUndefined
           readyWorld defaultConfig 3 (1 # 2)%Q 0 200
           (JObj [ (js "id", JStr (js "a1")); (js "status", JStr (js "denied"));
                   (js "reason", JStr (js "too risky")) ])
           eq_refl eq_refl eq_refl (Nat.le_0_l 3)
           (fun i (Hi : (i < 0)%nat) =>
              False_ind _ (Nat.nlt_0_r i Hi))
           eq_refl eq_refl).
Defined.

Lemma makeRequest_unknown_errors_exhausted_witness :
  fst (makeRequest noEnv parseHalf brokenTransport stoppedClock GET
         (js "/v1/actions/a1") JUndefined JUndefined readyWorld)
  = Throw (Faramesh FarameshError
             (js "Request failed after 4 attempts: socket hang up") None) /\
  attempts (snd (makeRequest noEnv parseHalf brokenTransport stoppedClock GET
                   (js "/v1/actions/a1") JUndefined JUndefined readyWorld))
  = 4%nat /\
  sleepsOf (log (snd (makeRequest noEnv parseHalf brokenTransport stoppedClock
                        GET (js "/v1/actions/a1") JUndefined JUndefined
                        readyWorld)))
  = [backoffMs (1 # 2) 0; backoffMs (1 # 2) 1; backoffMs (1 # 2) 2].
Proof.
  exact (makeRequest_unknown_errors_exhausted noEnv parseHalf brokenTransport
           stoppedClock GET (js "/v1/actions/a1") JUndefined JUndefined
           readyWorld defaultConfig 3 (1 # 2)%Q (js "socket hang up")
           eq_refl eq_refl eq_refl
           (fun i _ => or_intror (ex_intro _ (js "socket hang up") eq_refl))
           eq_refl).
Defined.

Section ExecutorBounds.

Variable transport : nat -> Outcome.
Variable clock : nat -> Z.
Variable config : ClientConfig.
Variable method : Method.
Variable path fullUrl url : jsString.
Variable startTime : Z.
Variable data params : JsValue.

Ltac run_client :=
  unfold surface, retryUnknown, denyByPolicy, bind, now, notify, sleep, emit,
    throw, ret;
  repeat match goal with
         | |- context [match onError config with _ => _ end] =>
             destruct (onError config)
         | |- context [match onRequestEnd config with _ => _ end] =>
             destruct (onRequestEnd config)
         end;
  cbn [fst snd globalConfig attempts clockReads log isFarameshExn];
  repeat split;
  cbn [fst snd globalConfig attempts clockReads log];
  rewrite ?sleepsOf_app, ?requestsOf_app;
  cbn [sleepsOf requestsOf flat_map app];
  rewrite ?app_nil_r; auto.

Lemma onCatch_handled :
  forall attempt error w,
    handled config attempt
      (fst (onCatch clock config method path fullUrl startTime attempt error w))
      w
      (snd (onCatch clock config method path fullUrl startTime attempt error w)).
Proof.
  intros attempt error w. unfold handled, onCatch, retryUnknown.
  destruct error as [m| | |m|cls m sc|resp code m].
  - destruct (retriesLeft config attempt) eqn:El; run_client.
  - destruct (retriesLeft config attempt) eqn:El; run_client.
  - destruct (retriesLeft config attempt) eqn:El; run_client.
  - destruct (retriesLeft config attempt) eqn:El; run_client.
  - destruct cls; destruct (retriesLeft config attempt) eqn:El; run_client.
  - destruct (statusIs resp 401); [run_client|].
    destruct (statusIs resp 404); [run_client|].
    destruct (statusIs resp 422); [run_client|].
    destruct (retriesLeft config attempt) eqn:El.
    + destruct (match responseStatus resp with
                | Some s => 500 <=? s
                | None => false
                end); cbn [andb].
      * run_client.
      * destruct (codeIs code "ECONNABORTED" || Str.includes m (js "timeout"));
          run_client.
    + cbn [andb].
      destruct (codeIs code "ECONNABORTED" || Str.includes m (js "timeout"));
        run_client.
Qed.

Lemma onResponse_quiet :
  forall status rd w,
    globalConfig
      (snd (onResponse clock config method path fullUrl startTime status rd w))
    = globalConfig w /\
    attempts
      (snd (onResponse clock config method path fullUrl startTime status rd w))
    = attempts w /\
    requestsOf
      (log (snd (onResponse clock config method path fullUrl startTime status
                   rd w)))
    = requestsOf (log w) /\
    sleepsOf
      (log (snd (onResponse clock config method path fullUrl startTime status
                   rd w)))
    = sleepsOf (log w).
Proof.
  intros status rd w. unfold onResponse.
  destruct (methodEqb method POST && Str.eqb path (js "/v1/actions")
            && truthy rd && typeofObject rd).
  - destruct (strictEq (prop rd "status") (JStr (js "denied")));
      [run_client|].
    destruct (strictEq (prop rd "decision") (JStr (js "deny"))
              && negb (strictEq (prop rd "status")
                         (JStr (js "pending_approval"))));
      run_client.
  - run_client.
Qed.

Lemma iteration_unfold :
  forall attempt w,
    let w1 := {| globalConfig := globalConfig w; attempts := S (attempts w);
                 clockReads := clockReads w;
                 log := log w ++ [EvRequest method url data params] |} in
    let caught e w2 :=
      match onCatch clock config method path fullUrl startTime attempt e w2 with
      | (Ok lastError, w3) => (Ok (Next lastError), w3)
      | (Throw e', w3) => (Throw e', w3)
      end in
    iteration transport clock config method path fullUrl startTime data params
      url attempt w
    = match transport (attempts w) with
      | Resolved status d =>
          match onResponse clock config method path fullUrl startTime status d
                  w1 with
          | (Ok d', w2) => (Ok (Done d'), w2)
          | (Throw e, w2) => caught e w2
          end
      | RejectedAxios response code message =>
          caught (AxiosError response code message) w1
      | RejectedOther message => caught (OtherError message) w1
      end.
Proof.
  intros attempt w w1 caught. subst w1 caught.
  unfold iteration, tryCatch, bind, request, ret.
  destruct (transport (attempts w)) as [status d|resp code message|message];
    cbn [fst snd].
  - destruct (onResponse clock config method path fullUrl startTime status d _)
      as [[d'|e] w2]; reflexivity.
  - reflexivity.
  - reflexivity.
Qed.

(** One iteration of the attempt loop: one physical request, and afterwards
    either an SDK error, or the response, or the wait of a retry. *)
Lemma iteration_bounded :
  forall attempt w,
    let r := iteration transport clock config method path fullUrl startTime
               data params url attempt w in
    globalConfig (snd r) = globalConfig w /\
    attempts (snd r) = S (attempts w) /\
    requestsOf (log (snd r)) = requestsOf (log w) ++ [(method, url, data)] /\
    match fst r with
    | Throw e => isFarameshExn e /\ sleepsOf (log (snd r)) = sleepsOf (log w)
    | Ok (Done _) => sleepsOf (log (snd r)) = sleepsOf (log w)
    | Ok (Next _) =>
        sleepsOf (log (snd r))
        = sleepsOf (log w)
            ++ (if retriesLeft config attempt then [waitTime config attempt]
                else [])
    end.
Proof.
  intros attempt w r. subst r. rewrite iteration_unfold. cbv zeta.
  set (w1 := {| globalConfig := globalConfig w; attempts := S (attempts w);
                clockReads := clockReads w;
                log := log w ++ [EvRequest method url data params] |}).
  assert (Hw1 : globalConfig w1 = globalConfig w /\
                attempts w1 = S (attempts w) /\
                requestsOf (log w1) = requestsOf (log w) ++ [(method, url, data)]
                /\ sleepsOf (log w1) = sleepsOf (log w)).
  { subst w1. cbn [globalConfig attempts log].
    rewrite sleepsOf_app, requestsOf_app. cbn. rewrite app_nil_r. auto. }
  destruct Hw1 as (C1 & C2 & C3 & C4).
  assert (Hcatch :
            forall e w2,
              globalConfig w2 = globalConfig w -> attempts w2 = S (attempts w) ->
              requestsOf (log w2) = requestsOf (log w) ++ [(method, url, data)] ->
              sleepsOf (log w2) = sleepsOf (log w) ->
              let r :=
                match onCatch clock config method path fullUrl startTime
                        attempt e w2 with
                | (Ok lastError, w3) => (Ok (Next lastError), w3)
                | (Throw e', w3) => (Throw e', w3)
                end in
              globalConfig (snd r) = globalConfig w /\
              attempts (snd r) = S (attempts w) /\
              requestsOf (log (snd r))
              = requestsOf (log w) ++ [(method, url, data)] /\
              match fst r with
              | Throw e => isFarameshExn e /\
                           sleepsOf (log (snd r)) = sleepsOf (log w)
              | Ok (Done _) => sleepsOf (log (snd r)) = sleepsOf (log w)
              | Ok (Next _) =>
                  sleepsOf (log (snd r))
                  = sleepsOf (log w)
                      ++ (if retriesLeft config attempt
                          then [waitTime config attempt] else [])
              end).
  { intros e w2 D1 D2 D3 D4 r. subst r.
    pose proof (onCatch_handled attempt e w2) as (E1 & E2 & E3 & E4).
    destruct (onCatch clock config method path fullUrl startTime attempt e w2)
      as [[le|e'] w3]; cbn [fst snd] in *.
    - repeat split; try congruence; now rewrite E4, D4.
    - destruct E4 as [E4 E5]. repeat split; try congruence. }
  destruct (transport (attempts w)) as [status d|resp code message|message].
  - pose proof (onResponse_quiet status d w1) as (D1 & D2 & D3 & D4).
    destruct (onResponse clock config method path fullUrl startTime status d w1)
      as [[d'|e] w2]; cbn [fst snd] in *.
    + repeat split; congruence.
    + apply Hcatch; congruence.
  - apply Hcatch; assumption.
  - apply Hcatch; assumption.
Qed.

Lemma afterLoop_throws :
  forall lastError w,
    let r := afterLoop clock config method path fullUrl startTime lastError w in
    globalConfig (snd r) = globalConfig w /\
    attempts (snd r) = attempts w /\
    requestsOf (log (snd r)) = requestsOf (log w) /\
    sleepsOf (log (snd r)) = sleepsOf (log w) /\
    exists e, fst r = Throw e /\ isFarameshExn e.
Proof.
  intros lastError w r. subst r. unfold afterLoop.
  destruct lastError as [e|]; run_client; eexists; split;
    try reflexivity; exact I.
Qed.

(** The attempt loop under [m] retries, entered with the iterations that
    reach attempt [m]. *)
Lemma attemptLoop_bounded :
  forall m remaining attempt lastError w,
    maxRetries config = Some (Z.of_nat m) ->
    (m + 1 <= attempt + remaining)%nat ->
    let r := attemptLoop transport clock config method path fullUrl startTime
               data params url remaining attempt lastError w in
    globalConfig (snd r) = globalConfig w /\
    (forall e, fst r = Throw e -> isFarameshExn e) /\
    exists n j,
      (n <= remaining)%nat /\ ((1 <= remaining)%nat -> (1 <= n)%nat) /\
      (j <= m - attempt)%nat /\ (j <= Nat.pred n)%nat /\
      attempts (snd r) = (attempts w + n)%nat /\
      requestsOf (log (snd r))
      = requestsOf (log w) ++ List.repeat (method, url, data) n /\
      sleepsOf (log (snd r))
      = sleepsOf (log w) ++ map (waitTime config) (seq attempt j).
Proof.
  intros m remaining.
  induction remaining as [|remaining IH]; intros attempt lastError w Hm Hrem r;
    subst r.
  - cbn [attemptLoop].
    pose proof (afterLoop_throws lastError w) as (A1 & A2 & A3 & A4 & e & A5 & A6).
    cbv zeta in *. split; [exact A1|]. split.
    + intros e' He'. rewrite A5 in He'. injection He' as <-. exact A6.
    + exists 0%nat, 0%nat. cbn [List.repeat seq map].
      rewrite !app_nil_r. repeat split; auto; lia.
  - cbn [attemptLoop]. unfold bind.
    pose proof (iteration_bounded attempt w) as (B1 & B2 & B3 & B4).
    cbv zeta in *.
    destruct (iteration transport clock config method path fullUrl startTime
                data params url attempt w) as [[[d|le]|e] w1];
      cbn [fst snd ret] in *.
    + split; [exact B1|]. split; [discriminate|].
      exists 1%nat, 0%nat. cbn [List.repeat seq map]. rewrite app_nil_r.
      repeat split; auto; lia.
    + specialize (IH (S attempt) le w1 Hm ltac:(lia)).
      cbv zeta in IH.
      destruct IH as (I1 & I2 & n & j & I3 & I4 & I5 & I6 & I7 & I8 & I9).
      split; [congruence|]. split; [exact I2|].
      destruct (retriesLeft config attempt) eqn:El.
      * assert (Hlt : (attempt < m)%nat).
        { unfold retriesLeft in El. rewrite Hm in El.
          apply Z.ltb_lt in El. lia. }
        exists (S n), (S j).
        assert (1 <= n)%nat by (apply I4; lia).
        repeat split; try lia.
        -- rewrite I8, B3, <- app_assoc. reflexivity.
        -- rewrite I9, B4, <- app_assoc. reflexivity.
      * assert (Hge : (m <= attempt)%nat).
        { unfold retriesLeft in El. rewrite Hm in El.
          apply Z.ltb_ge in El. lia. }
        assert (j = 0)%nat by lia. subst j.
        exists (S n), 0%nat.
        repeat split; try lia.
        -- rewrite I8, B3, <- app_assoc. reflexivity.
        -- rewrite I9, B4. cbn [seq map]. now rewrite !app_nil_r.
    + destruct B4 as [B4 B5].
      split; [exact B1|]. split.
      * intros e' He'. injection He' as <-. exact B4.
      * exists 1%nat, 0%nat. cbn [List.repeat seq map]. rewrite app_nil_r.
        repeat split; auto; lia.
Qed.

End ExecutorBounds.

Section MakeRequestBounds.

Variable env : Env.
Variable parseFloat : jsString -> option Q.
Variable transport : nat -> Outcome.
Variable clock : nat -> Z.

(** The envelope of every run of [makeRequest]. *)
Lemma makeRequest_envelope :
  forall method path data params w config m,
    globalConfig w = Some config ->
    maxRetries config = Some (Z.of_nat m) ->
    withinBounds config m (method, urlOf path, data) w
      (snd (makeRequest env parseFloat transport clock method path data
              params w)) /\
    globalConfig
      (snd (makeRequest env parseFloat transport clock method path data
              params w))
    = Some config /\
    (forall e,
        fst (makeRequest env parseFloat transport clock method path data
               params w) = Throw e ->
        isFarameshExn e).
Proof.
  intros method path data params w config m Hcfg Hm.
  unfold makeRequest, bind, getConfig. rewrite Hcfg.
  fold (urlOf path).
  set (w0 := snd (now clock
                    (snd (notify (onRequestStart config)
                            (fun cb => EvRequestStart cb method
                                         (fullUrlOf config path)) w)))).
  set (startTime := clock (clockReads w)).
  assert (Hw0 : globalConfig w0 = globalConfig w /\ attempts w0 = attempts w /\
                requestsOf (log w0) = requestsOf (log w) /\
                sleepsOf (log w0) = sleepsOf (log w)).
  { subst w0. unfold now, notify, emit.
    destruct (onRequestStart config); cbn [fst snd globalConfig attempts log];
      rewrite ?sleepsOf_app, ?requestsOf_app; cbn; rewrite ?app_nil_r; auto. }
  destruct Hw0 as (A1 & A2 & A3 & A4).
  assert (Hrun :
            (let (r, w') :=
               notify (onRequestStart config)
                 (fun cb => EvRequestStart cb method
                              (match baseUrl config with
                               | Some b => b
                               | None => js "undefined"
                               end ++ urlOf path)) w in
             match r with
             | Ok _ =>
                 let (r0, w'0) := now clock w' in
                 match r0 with
                 | Ok a0 =>
                     attemptLoop transport clock config method path
                       (match baseUrl config with
                        | Some b => b
                        | None => js "undefined"
                        end ++ urlOf path) a0 data params (urlOf path)
                       (attemptBound config) 0 None w'0
                 | Throw e => (Throw e, w'0)
                 end
             | Throw e => (Throw e, w')
             end)
            = attemptLoop transport clock config method path
                (fullUrlOf config path) startTime data params (urlOf path)
                (attemptBound config) 0 None w0).
  { subst w0 startTime. unfold now, notify, emit, fullUrlOf.
    destruct (onRequestStart config); reflexivity. }
  rewrite Hrun. clear Hrun.
  pose proof (attemptLoop_bounded transport clock config method path
                (fullUrlOf config path) (urlOf path) startTime data params
                m (attemptBound config) 0 None w0 Hm) as Hb.
  rewrite (attemptBound_succ config m Hm) in *.
  specialize (Hb ltac:(lia)). cbv zeta in Hb.
  destruct Hb as (B1 & B2 & n & j & B3 & B4 & B5 & B6 & B7 & B8 & B9).
  split; [|split].
  - exists n, j. specialize (B4 ltac:(lia)).
    repeat split; try lia; congruence.
  - congruence.
  - exact B2.
Qed.

(** X14.  Whatever the transport answers, a call of [makeRequest] under a
    configuration with [maxRetries = m] sends between one and [m + 1]
    physical requests, all of them the same method, URL and body; it sleeps
    only the first [j] backoff waits, in order, for some [j <= m] below the
    number of requests; it leaves the configuration alone; and an error it
    throws is always one of the SDK's own error classes, never a raw
    transport error. *)
Theorem makeRequest_within_bounds :
  forall method path data params w config m,
    globalConfig w = Some config ->
    maxRetries config = Some (Z.of_nat m) ->
    withinBounds config m (method, urlOf path, data) w
      (snd (makeRequest env parseFloat transport clock method path data
              params w)) /\
    globalConfig
      (snd (makeRequest env parseFloat transport clock method path data
              params w))
    = Some config /\
    (forall e,
        fst (makeRequest env parseFloat transport clock method path data
               params w) = Throw e ->
        isFarameshExn e).
Proof.
  intros method path data params w config m Hcfg Hm.
  exact (makeRequest_envelope method path data params w config m Hcfg Hm).
Qed.

End MakeRequestBounds.

Lemma makeRequest_within_bounds_witness :
  withinBounds defaultConfig 3 (GET, js "/v1/actions/a1", JUndefined) readyWorld
    (snd (makeRequest noEnv parseHalf brokenTransport stoppedClock GET
            (js "v1/actions/a1") JUndefined JUndefined readyWorld)) /\
  globalConfig
    (snd (makeRequest noEnv parseHalf brokenTransport stoppedClock GET
            (js "v1/actions/a1") JUndefined JUndefined readyWorld))
  = Some defaultConfig /\
  (forall e,
      fst (makeRequest noEnv parseHalf brokenTransport stoppedClock GET
             (js "v1/actions/a1") JUndefined JUndefined readyWorld) = Throw e ->
      isFarameshExn e).
Proof.
  exact (makeRequest_within_bounds noEnv parseHalf brokenTransport stoppedClock
           GET (js "v1/actions/a1") JUndefined JUndefined readyWorld
           defaultConfig 3 eq_refl eq_refl).
Defined.

(* ========================================================================= *)
(** * Options that [configure] does not see *)


(* ========================================================================= *)
(** * Requests that are answered at once *)

Section Exchanges.

Variable env : Env.
Variable parseFloat : jsString -> option Q.
Variable transport : nat -> Outcome.
Variable clock : nat -> Z.

Lemma makeRequest_first_attempt :
  forall method path data params w config m,
    globalConfig w = Some config ->
    maxRetries config = Some (Z.of_nat m) ->
    exists w0,
      globalConfig w0 = globalConfig w /\ attempts w0 = attempts w /\
      clockReads w0 = S (clockReads w) /\
      requestsOf (log w0) = requestsOf (log w) /\
      sleepsOf (log w0) = sleepsOf (log w) /\
      makeRequest env parseFloat transport clock method path data params w
      = bind (iteration transport clock config method path
                (fullUrlOf config path) (clock (clockReads w)) data params
                (urlOf path) 0)
          (fun step =>
             match step with
             | Done d => ret d
             | Next lastError =>
                 attemptLoop transport clock config method path
                   (fullUrlOf config path) (clock (clockReads w)) data params
                   (urlOf path) m 1 lastError
             end) w0.
Proof.
  intros method path data params w config m Hcfg Hm.
  unfold makeRequest, bind at 1, getConfig. rewrite Hcfg.
  rewrite (attemptBound_succ config m Hm).
  fold (urlOf path). fold (fullUrlOf config path).
  unfold bind at 1, notify.
  destruct (onRequestStart config) as [cb|].
  - unfold emit, bind at 1, now. cbn [clockReads globalConfig attempts log].
    exists {| globalConfig := globalConfig w; attempts := attempts w;
              clockReads := S (clockReads w);
              log := log w
                       ++ [EvRequestStart cb method (fullUrlOf config path)] |}.
    cbn [globalConfig attempts clockReads log attemptLoop].
    rewrite requestsOf_app, sleepsOf_app. cbn [requestsOf sleepsOf flat_map].
    rewrite !app_nil_r. repeat split; try reflexivity; exact Hcfg.
  - unfold ret, bind at 1, now.
    exists {| globalConfig := globalConfig w; attempts := attempts w;
              clockReads := S (clockReads w); log := log w |}.
    cbn [globalConfig attempts clockReads log attemptLoop].
    repeat split; try reflexivity; exact Hcfg.
Qed.

Lemma onResponse_answer :
  forall config method path fullUrl startTime status d w,
    isPolicyDenial method path d = false ->
    exists w',
      onResponse clock config method path fullUrl startTime status d w
      = (Ok d, w') /\
      globalConfig w' = globalConfig w /\ attempts w' = attempts w /\
      clockReads w' = S (clockReads w) /\
      requestsOf (log w') = requestsOf (log w) /\
      sleepsOf (log w') = sleepsOf (log w).
Proof.
  intros config method path fullUrl startTime status d w Hden.
  unfold isPolicyDenial in Hden. unfold onResponse.
  destruct (methodEqb method POST && Str.eqb path (js "/v1/actions")
            && truthy d && typeofObject d).
  - cbn [andb] in Hden. apply orb_false_iff in Hden as [-> ->].
    unfold bind, now, notify, emit, ret.
    destruct (onRequestEnd config); eexists; (split; [reflexivity|]);
      cbn [globalConfig attempts clockReads log];
      rewrite ?requestsOf_app, ?sleepsOf_app; cbn; rewrite ?app_nil_r;
        repeat split.
  - unfold bind, now, notify, emit, ret.
    destruct (onRequestEnd config); eexists; (split; [reflexivity|]);
      cbn [globalConfig attempts clockReads log];
      rewrite ?requestsOf_app, ?sleepsOf_app; cbn; rewrite ?app_nil_r;
        repeat split.
Qed.

Lemma onResponse_refusal :
  forall config method path fullUrl startTime status d w,
    isPolicyDenial method path d = true ->
    exists w',
      onResponse clock config method path fullUrl startTime status d w
      = (Throw (policyError d), w') /\
      globalConfig w' = globalConfig w /\ attempts w' = attempts w /\
      clockReads w' = S (clockReads w) /\
      requestsOf (log w') = requestsOf (log w) /\
      sleepsOf (log w') = sleepsOf (log w).
Proof.
  intros config method path fullUrl startTime status d w Hden.
  unfold isPolicyDenial in Hden. unfold onResponse.
  apply andb_true_iff in Hden as [-> Hden].
  assert (Hdeny :
            forall durationMs w1,
              globalConfig w1 = globalConfig w -> attempts w1 = attempts w ->
              clockReads w1 = S (clockReads w) ->
              requestsOf (log w1) = requestsOf (log w) ->
              sleepsOf (log w1) = sleepsOf (log w) ->
              exists w',
                denyByPolicy config method fullUrl status durationMs d w1
                = (Throw (policyError d), w') /\
                globalConfig w' = globalConfig w /\ attempts w' = attempts w /\
                clockReads w' = S (clockReads w) /\
                requestsOf (log w') = requestsOf (log w) /\
                sleepsOf (log w') = sleepsOf (log w)).
  { intros durationMs w1 A1 A2 A3 A4 A5.
    unfold denyByPolicy, policyError, bind, notify, emit, throw, ret.
    destruct (onError config); destruct (onRequestEnd config); eexists;
      (split; [reflexivity|]);
      cbn [globalConfig attempts clockReads log];
      rewrite ?requestsOf_app, ?sleepsOf_app; cbn; rewrite ?app_nil_r;
        repeat split; assumption. }
  unfold bind at 1, now.
  destruct (strictEq (prop d "status") (JStr (js "denied"))).
  - apply Hdeny; reflexivity.
  - cbn [orb] in Hden. rewrite Hden. apply Hdeny; reflexivity.
Qed.

(** A request whose first attempt the server answers. *)
Lemma makeRequest_answered :
  forall method path data params w config m s d,
    globalConfig w = Some config ->
    maxRetries config = Some (Z.of_nat m) ->
    transport (attempts w) = Resolved s d ->
    isPolicyDenial method path d = false ->
    exists w',
      makeRequest env parseFloat transport clock method path data params w
      = (Ok d, w') /\
      answered (method, urlOf path, data) w w'.
Proof.
  intros method path data params w config m s d Hcfg Hm Ht Hden.
  destruct (makeRequest_first_attempt method path data params w config m
              Hcfg Hm) as (w0 & A1 & A2 & A3 & A4 & A5 & ->).
  unfold bind. rewrite iteration_unfold. cbv zeta. rewrite A2, Ht.
  match goal with
  | |- context [onResponse clock config method path ?f ?t s d ?w1] =>
      destruct (onResponse_answer config method path f t s d w1 Hden)
        as (w2 & -> & B1 & B2 & B3 & B4 & B5)
  end.
  exists w2. split; [reflexivity|].
  cbn [globalConfig attempts clockReads log] in *.
  rewrite requestsOf_app, sleepsOf_app in *. cbn in B4, B5.
  rewrite app_nil_r in B5.
  unfold answered. repeat split; try congruence.
  rewrite B3, A3. lia.
Qed.

(** A submission that the server answers with a denial. *)
Lemma makeRequest_refused :
  forall method path data params w config m s d,
    globalConfig w = Some config ->
    maxRetries config = Some (Z.of_nat m) ->
    transport (attempts w) = Resolved s d ->
    isPolicyDenial method path d = true ->
    exists w',
      makeRequest env parseFloat transport clock method path data params w
      = (Throw (policyError d), w') /\
      globalConfig w' = globalConfig w /\ attempts w' = S (attempts w) /\
      requestsOf (log w') = requestsOf (log w) ++ [(method, urlOf path, data)] /\
      sleepsOf (log w') = sleepsOf (log w).
Proof.
  intros method path data params w config m s d Hcfg Hm Ht Hden.
  destruct (makeRequest_first_attempt method path data params w config m
              Hcfg Hm) as (w0 & A1 & A2 & A3 & A4 & A5 & ->).
  unfold bind. rewrite iteration_unfold. cbv zeta. rewrite A2, Ht.
  match goal with
  | |- context [onResponse clock config method path ?f ?t s d ?w1] =>
      destruct (onResponse_refusal config method path f t s d w1 Hden)
        as (w2 & -> & B1 & B2 & B3 & B4 & B5)
  end.
  unfold policyError, onCatch, bind, now, throw.
  eexists. split; [reflexivity|].
  cbn [globalConfig attempts clockReads log] in *.
  rewrite requestsOf_app, sleepsOf_app in *. cbn in B4, B5.
  rewrite app_nil_r in B5.
  repeat split; congruence.
Qed.

End Exchanges.

(* ========================================================================= *)
(** * Approving and denying *)

Section ApprovalFacts.

Variable env : Env.
Variable parseFloat : jsString -> option Q.
Variable transport : nat -> Outcome.
Variable clock : nat -> Z.

Lemma urlOf_actions :
  forall rest, urlOf (js "/v1/actions/" ++ rest) = js "/v1/actions/" ++ rest.
Proof. reflexivity. Qed.

(** X16.  Called with a token, [approveAction] and [denyAction] never fetch
    the action: whatever the transport answers, every request they send is
    the POST of the approval (token, the verdict, and the reason when one is
    given) to the approval path of the action, between one and
    [maxRetries + 1] times, and an error they throw is one of the SDK's. *)
Theorem approval_with_token :
  forall actionId token reason w config m,
    globalConfig w = Some config ->
    maxRetries config = Some (Z.of_nat m) ->
    truthy token = true ->
    (withinBounds config m
       (POST, js "/v1/actions/" ++ actionId ++ js "/approval",
        approvalPayload token true reason) w
       (snd (approveAction env parseFloat transport clock actionId token
               reason w)) /\
     forall e,
       fst (approveAction env parseFloat transport clock actionId token
              reason w) = Throw e ->
       isFarameshExn e) /\
    (withinBounds config m
       (POST, js "/v1/actions/" ++ actionId ++ js "/approval",
        approvalPayload token false reason) w
       (snd (denyAction env parseFloat transport clock actionId token
               reason w)) /\
     forall e,
       fst (denyAction env parseFloat transport clock actionId token
              reason w) = Throw e ->
       isFarameshExn e).
Proof.
  intros actionId token reason w config m Hcfg Hm Htoken.
  unfold approveAction, denyAction. rewrite Htoken. cbn [negb].
  unfold bind, ret.
  split.
  - destruct (makeRequest_envelope env parseFloat transport clock POST
                (js "/v1/actions/" ++ actionId ++ js "/approval")
                (approvalPayload token true reason) JUndefined w config m
                Hcfg Hm) as (H1 & _ & H3).
    rewrite urlOf_actions in H1. split; assumption.
  - destruct (makeRequest_envelope env parseFloat transport clock POST
                (js "/v1/actions/" ++ actionId ++ js "/approval")
                (approvalPayload token false reason) JUndefined w config m
                Hcfg Hm) as (H1 & _ & H3).
    rewrite urlOf_actions in H1. split; assumption.
Qed.

Lemma bind_assoc_run :
  forall (A B C : Type) (m : M A) (f : A -> M B) (g : B -> M C) w,
    bind (bind m f) g w = bind m (fun a => bind (f a) g) w.
Proof.
  intros A B C m f g w. unfold bind.
  destruct (m w) as [[a|e] w1]; reflexivity.
Qed.

Lemma bind_run :
  forall (A B : Type) (m : M A) (k : A -> M B) w a w',
    m w = (Ok a, w') -> bind m k w = k a w'.
Proof. intros A B m k w a w' H. unfold bind. now rewrite H. Qed.

(** X17.  Called without a token (or with an empty one), [approveAction] and
    [denyAction] first fetch the action.  When the server answers the fetch,
    the call fails with a FarameshError unless the action is pending approval
    and carries an approval token, and nothing is posted; otherwise it goes
    on exactly as the call with the fetched token does. *)
Theorem approval_without_token :
  forall actionId token reason w config m s action,
    globalConfig w = Some config ->
    maxRetries config = Some (Z.of_nat m) ->
    truthy token = false ->
    transport (attempts w) = Resolved s action ->
    exists w',
      answered (GET, js "/v1/actions/" ++ actionId, JUndefined) w w' /\
      approveAction env parseFloat transport clock actionId token reason w
      = afterFetch actionId action
          (fun fetched =>
             approveAction env parseFloat transport clock actionId fetched
               reason) w' /\
      denyAction env parseFloat transport clock actionId token reason w
      = afterFetch actionId action
          (fun fetched =>
             denyAction env parseFloat transport clock actionId fetched
               reason) w'.
Proof.
  intros actionId token reason w config m s action Hcfg Hm Htoken Ht.
  destruct (makeRequest_answered env parseFloat transport clock GET
              (js "/v1/actions/" ++ actionId) JUndefined JUndefined w config
              m s action Hcfg Hm Ht eq_refl) as (w' & Hrun & Hw').
  rewrite urlOf_actions in Hw'.
  exists w'. split; [exact Hw'|].
  split.
  - unfold approveAction at 1. unfold getAction. rewrite Htoken. cbn [negb].
    rewrite bind_assoc_run, (bind_run _ _ _ _ _ _ _ Hrun).
    unfold afterFetch.
    destruct action; cbn [getProp lift]; try reflexivity;
      unfold bind at 1 2, lift, throw;
      match goal with
      | |- context [strictEq ?a ?b] => destruct (strictEq a b)
      end; cbn [negb]; try reflexivity;
      unfold bind at 1;
      match goal with
      | |- context [truthy ?a] => destruct (truthy a) eqn:E
      end; cbn [negb]; try reflexivity;
      unfold approveAction; rewrite E; reflexivity.
  - unfold denyAction at 1. unfold getAction. rewrite Htoken. cbn [negb].
    rewrite bind_assoc_run, (bind_run _ _ _ _ _ _ _ Hrun).
    unfold afterFetch.
    destruct action; cbn [getProp lift]; try reflexivity;
      unfold bind at 1 2, lift, throw;
      match goal with
      | |- context [strictEq ?a ?b] => destruct (strictEq a b)
      end; cbn [negb]; try reflexivity;
      unfold bind at 1;
      match goal with
      | |- context [truthy ?a] => destruct (truthy a) eqn:E
      end; cbn [negb]; try reflexivity;
      unfold denyAction; rewrite E; reflexivity.
Qed.

End ApprovalFacts.

Lemma approval_with_token_witness :
  (withinBounds defaultConfig 3
     (POST, js "/v1/actions/" ++ js "a1" ++ js "/approval",
      approvalPayload (JStr (js "tok")) true JUndefined) readyWorld
     (snd (approveAction noEnv parseHalf brokenTransport stoppedClock (js "a1")
             (JStr (js "tok")) JUndefined readyWorld)) /\
   forall e,
     fst (approveAction noEnv parseHalf brokenTransport stoppedClock (js "a1")
            (JStr (js "tok")) JUndefined readyWorld) = Throw e ->
     isFarameshExn e) /\
  (withinBounds defaultConfig 3
     (POST, js "/v1/actions/" ++ js "a1" ++ js "/approval",
      approvalPayload (JStr (js "tok")) false JUndefined) readyWorld
     (snd (denyAction noEnv parseHalf brokenTransport stoppedClock (js "a1")
             (JStr (js "tok")) JUndefined readyWorld)) /\
   forall e,
     fst (denyAction noEnv parseHalf brokenTransport stoppedClock (js "a1")
            (JStr (js "tok")) JUndefined readyWorld) = Throw e ->
     isFarameshExn e).
Proof.
  exact (approval_with_token noEnv parseHalf brokenTransport stoppedClock
           (js "a1") (JStr (js "tok")) JUndefined readyWorld defaultConfig 3
           eq_refl eq_refl eq_refl).
Defined.

Lemma approval_without_token_witness :
  exists w',
    answered (GET, js "/v1/actions/" ++ js "a1", JUndefined) readyWorld w' /\
    approveAction noEnv parseHalf denyingTransport stoppedClock (js "a1")
      (JStr []) JUndefined readyWorld
    = afterFetch (js "a1") (responseOf (denyingTransport 0))
        (fun fetched =>
           approveAction noEnv parseHalf denyingTransport stoppedClock
             (js "a1") fetched JUndefined) w' /\
    denyAction noEnv parseHalf denyingTransport stoppedClock (js "a1")
      (JStr []) JUndefined readyWorld
    = afterFetch (js "a1") (responseOf (denyingTransport 0))
        (fun fetched =>
           denyAction noEnv parseHalf denyingTransport stoppedClock (js "a1")
             fetched JUndefined) w'.
Proof.
  exact (approval_without_token noEnv parseHalf denyingTransport stoppedClock
           (js "a1") (JStr []) JUndefined readyWorld defaultConfig 3 200
           (responseOf (denyingTransport 0)) eq_refl eq_refl eq_refl eq_refl).
Defined.

(* ========================================================================= *)
(** * Waiting for an approval *)

Section BlockFacts.

Variable env : Env.
Variable parseFloat : jsString -> option Q.
Variable transport : nat -> Outcome.
Variable clock : nat -> Z.

Variable config : ClientConfig.
Variable m : nat.
Hypothesis Hm : maxRetries config = Some (Z.of_nat m).

Variable actionId : jsString.
Variable pollIntervalMs timeoutMs startTime : Z.

Lemma decisive_false :
  forall status,
    decisive status = false ->
    strictEq status (JStr (js "approved")) = false /\
    strictEq status (JStr (js "denied")) = false /\
    strictEq status (JStr (js "allowed"))
    || strictEq status (JStr (js "succeeded"))
    || strictEq status (JStr (js "failed")) = false.
Proof.
  intros status H. unfold decisive in H.
  repeat (apply orb_false_iff in H as [H ?]).
  repeat split; try assumption.
  repeat (apply orb_false_iff; split); assumption.
Qed.

(** One round of the loop: a reading of the clock before the deadline, the
    fetch, and what the answer leads to. *)
Lemma blockLoop_round :
  forall fuel w s action,
    globalConfig w = Some config ->
    (clock (clockReads w) - startTime <= timeoutMs)%Z ->
    transport (attempts w) = Resolved s action ->
    exists w',
      globalConfig w' = globalConfig w /\ attempts w' = S (attempts w) /\
      clockReads w' = (clockReads w + 3)%nat /\
      requestsOf (log w') = requestsOf (log w) ++ [fetchOf actionId] /\
      sleepsOf (log w') = sleepsOf (log w) /\
      blockLoop env parseFloat transport clock actionId pollIntervalMs
        timeoutMs startTime (S fuel) w
      = match getProp action "status" with
        | Throw e => (Throw e, w')
        | Ok status =>
            if strictEq status (JStr (js "approved")) then (Ok (Some action), w')
            else if strictEq status (JStr (js "denied"))
            then (Throw (deniedError action), w')
            else if strictEq status (JStr (js "allowed"))
                    || strictEq status (JStr (js "succeeded"))
                    || strictEq status (JStr (js "failed"))
            then (Ok (Some action), w')
            else
              bind (sleep (Some (inject_Z pollIntervalMs)))
                (fun _ =>
                   blockLoop env parseFloat transport clock actionId
                     pollIntervalMs timeoutMs startTime fuel) w'
        end.
Proof.
  intros fuel w s action Hcfg Hclock Ht.
  cbn [blockLoop]. unfold bind at 1, now at 1.
  apply Z.ltb_ge in Hclock. rewrite Hclock.
  set (w1 := {| globalConfig := globalConfig w; attempts := attempts w;
                clockReads := S (clockReads w); log := log w |}).
  destruct (makeRequest_answered env parseFloat transport clock GET
              (js "/v1/actions/" ++ actionId) JUndefined JUndefined w1 config
              m s action Hcfg Hm Ht eq_refl)
    as (w' & Hrun & A1 & A2 & A3 & A4 & A5).
  rewrite urlOf_actions in A4.
  exists w'. subst w1. cbn [globalConfig attempts clockReads log] in *.
  repeat split; try assumption; try lia.
  unfold getAction. rewrite (bind_run _ _ _ _ _ _ _ Hrun).
  unfold deniedError.
  destruct action; cbn [getProp lift]; try reflexivity;
    unfold bind at 1, lift;
    repeat match goal with
           | |- context [if ?b then _ else _] => destruct b
           end; reflexivity.
Qed.

(** [k] polls that find the action undecided, each before the deadline. *)
Lemma blockLoop_polls :
  forall k fuel w,
    globalConfig w = Some config ->
    (forall i, (i < k)%nat -> polledAgain (transport (attempts w + i)%nat)) ->
    (forall i, (i < k)%nat ->
               (clock (clockReads w + 3 * i)%nat - startTime <= timeoutMs)%Z) ->
    exists w',
      globalConfig w' = globalConfig w /\
      attempts w' = (attempts w + k)%nat /\
      clockReads w' = (clockReads w + 3 * k)%nat /\
      requestsOf (log w')
      = requestsOf (log w) ++ List.repeat (fetchOf actionId) k /\
      sleepsOf (log w')
      = sleepsOf (log w) ++ List.repeat (Some (inject_Z pollIntervalMs)) k /\
      blockLoop env parseFloat transport clock actionId pollIntervalMs
        timeoutMs startTime (k + fuel) w
      = blockLoop env parseFloat transport clock actionId pollIntervalMs
          timeoutMs startTime fuel w'.
Proof.
  induction k as [|k IH]; intros fuel w Hcfg Hpoll Hclock.
  - exists w. cbn [List.repeat]. rewrite !app_nil_r.
    repeat split; try lia; reflexivity.
  - destruct (Hpoll 0%nat ltac:(lia)) as (s & action & status & Ht & Hst & Hdec).
    rewrite Nat.add_0_r in Ht.
    pose proof (Hclock 0%nat ltac:(lia)) as Hc0.
    rewrite Nat.mul_0_r, Nat.add_0_r in Hc0.
    destruct (blockLoop_round (k + fuel) w s action Hcfg Hc0 Ht)
      as (w1 & A1 & A2 & A3 & A4 & A5 & Hround).
    rewrite Hst in Hround.
    destruct (decisive_false status Hdec) as (D1 & D2 & D3).
    rewrite D1, D2, D3 in Hround.
    unfold bind, sleep, emit in Hround.
    set (w2 := {| globalConfig := globalConfig w1; attempts := attempts w1;
                  clockReads := clockReads w1;
                  log := log w1 ++ [EvSleep (Some (inject_Z pollIntervalMs))] |})
      in Hround.
    destruct (IH fuel w2) as (w' & B1 & B2 & B3 & B4 & B5 & Hrest).
    + subst w2. cbn [globalConfig]. congruence.
    + intros i Hi. subst w2. cbn [attempts]. rewrite A2.
      replace (S (attempts w) + i)%nat with (attempts w + S i)%nat by lia.
      apply Hpoll. lia.
    + intros i Hi. subst w2. cbn [clockReads]. rewrite A3.
      replace (clockReads w + 3 + 3 * i)%nat
        with (clockReads w + 3 * S i)%nat by lia.
      apply Hclock. lia.
    + exists w'. subst w2.
      cbn [globalConfig attempts clockReads log] in *.
      rewrite requestsOf_app, sleepsOf_app in *.
      cbn [requestsOf sleepsOf flat_map app] in B4, B5.
      rewrite app_nil_r in B4.
      repeat split.
      * congruence.
      * lia.
      * lia.
      * rewrite B4, A4, <- app_assoc. reflexivity.
      * rewrite B5, A5, <- app_assoc. reflexivity.
      * cbn [Nat.add]. rewrite Hround. exact Hrest.
Qed.


Lemma approved_not_denied :
  forall status,
    strictEq status (JStr (js "approved")) = true ->
    strictEq status (JStr (js "denied")) = false.
Proof.
  intros status H. destruct status; try discriminate.
  cbn [strictEq] in *. apply str_eqb_eq in H. subst. reflexivity.
Qed.

End BlockFacts.

Section BlockUntilApproved.

Variable env : Env.
Variable parseFloat : jsString -> option Q.
Variable transport : nat -> Outcome.
Variable clock : nat -> Z.

(** X19.  [blockUntilApproved] fetches the action until its status is one of
    approved, denied, allowed, succeeded and failed, sleeping the poll
    interval (2000 ms when none or 0 is given) between two fetches.  When the
    server answers [k] fetches with another status (pending_approval, or
    executing) and the next one with one of the five, each round starting
    before the deadline, the call ends after [k + 1] fetches and [k] sleeps:
    it throws a FarameshDeniedError with the action's reason for denied, and
    returns the action as fetched otherwise. *)
Theorem blockUntilApproved_settles :
  forall actionId pollIntervalMsOpt timeoutMsOpt fuel w config m k s action
         status,
    let pollIntervalMs :=
      match intOr pollIntervalMsOpt (Some 2000%Z) with
      | Some z => z
      | None => 2000%Z
      end in
    let timeoutMs :=
      match intOr timeoutMsOpt (Some 300000%Z) with
      | Some z => z
      | None => 300000%Z
      end in
    let run :=
      blockUntilApproved env parseFloat transport clock actionId
        pollIntervalMsOpt timeoutMsOpt fuel w in
    globalConfig w = Some config ->
    maxRetries config = Some (Z.of_nat m) ->
    (forall i, (i < k)%nat -> polledAgain (transport (attempts w + i)%nat)) ->
    (forall i, (i <= k)%nat ->
               (clock (clockReads w + 1 + 3 * i)%nat - clock (clockReads w)
                <= timeoutMs)%Z) ->
    transport (attempts w + k)%nat = Resolved s action ->
    getProp action "status" = Ok status ->
    decisive status = true ->
    (k < fuel)%nat ->
    fst run
    = (if strictEq status (JStr (js "denied")) then Throw (deniedError action)
       else Ok (Some action)) /\
    requestsOf (log (snd run))
    = requestsOf (log w) ++ List.repeat (fetchOf actionId) (k + 1) /\
    sleepsOf (log (snd run))
    = sleepsOf (log w) ++ List.repeat (Some (inject_Z pollIntervalMs)) k.
Proof.
  intros actionId pollIntervalMsOpt timeoutMsOpt fuel w config m k s action
    status pollIntervalMs timeoutMs run Hcfg Hm Hpoll Hclock Ht Hst Hdec
    Hfuel.
  subst run. unfold blockUntilApproved.
  fold pollIntervalMs. fold timeoutMs.
  unfold bind, now.
  set (w1 := {| globalConfig := globalConfig w; attempts := attempts w;
                clockReads := S (clockReads w); log := log w |}).
  replace fuel with (k + S (fuel - S k))%nat by lia.
  destruct (blockLoop_polls env parseFloat transport clock config m Hm
              actionId pollIntervalMs timeoutMs (clock (clockReads w)) k
              (S (fuel - S k)) w1)
    as (w2 & A1 & A2 & A3 & A4 & A5 & ->).
  { exact Hcfg. }
  { exact Hpoll. }
  { intros i Hi. subst w1. cbn [clockReads].
    replace (S (clockReads w) + 3 * i)%nat
      with (clockReads w + 1 + 3 * i)%nat by lia.
    apply Hclock. lia. }
  subst w1. cbn [globalConfig attempts clockReads log] in *.
  destruct (blockLoop_round env parseFloat transport clock config m Hm
              actionId pollIntervalMs timeoutMs (clock (clockReads w))
              (fuel - S k) w2 s action)
    as (w3 & B1 & B2 & B3 & B4 & B5 & ->).
  { congruence. }
  { rewrite A3.
    replace (S (clockReads w) + 3 * k)%nat
      with (clockReads w + 1 + 3 * k)%nat by lia.
    apply Hclock. lia. }
  { now rewrite A2. }
  rewrite Hst.
  assert (Hreq : requestsOf (log w3)
                 = requestsOf (log w) ++ List.repeat (fetchOf actionId) (k + 1)).
  { rewrite B4, A4, repeat_app, <- app_assoc. reflexivity. }
  assert (Hsl : sleepsOf (log w3)
                = sleepsOf (log w)
                    ++ List.repeat (Some (inject_Z pollIntervalMs)) k).
  { now rewrite B5. }
  unfold decisive in Hdec.
  destruct (strictEq status (JStr (js "approved"))) eqn:E1.
  - rewrite (approved_not_denied status E1). cbn [fst snd]. auto.
  - destruct (strictEq status (JStr (js "denied"))) eqn:E2.
    + cbn [fst snd]. auto.
    + cbn [orb] in Hdec. rewrite Hdec. cbn [fst snd]. auto.
Qed.


End BlockUntilApproved.

Lemma blockUntilApproved_settles_witness :
  fst (blockUntilApproved noEnv parseHalf approvingTransport tickingClock
         (js "a1") None None 3 readyWorld)
  = Ok (Some (responseOf (approvingTransport 2))) /\
  requestsOf
    (log (snd (blockUntilApproved noEnv parseHalf approvingTransport
                 tickingClock (js "a1") None None 3 readyWorld)))
  = [fetchOf (js "a1"); fetchOf (js "a1"); fetchOf (js "a1")] /\
  sleepsOf
    (log (snd (blockUntilApproved noEnv parseHalf approvingTransport
                 tickingClock (js "a1") None None 3 readyWorld)))
  = [Some (inject_Z 2000); Some (inject_Z 2000)].
Proof.
  refine (blockUntilApproved_settles noEnv parseHalf approvingTransport
            tickingClock (js "a1") None None 3 readyWorld defaultConfig 3 2
            200 (responseOf (approvingTransport 2)) (JStr (js "approved"))
            eq_refl eq_refl _ _ eq_refl eq_refl eq_refl _).
  - intros i Hi.
    exists 200, (responseOf (executingTransport 0)), (JStr (js "executing")).
    destruct i as [|[|i]]; [repeat split; reflexivity ..|lia].
  - intros i Hi. unfold tickingClock. cbn [readyWorld clockReads intOr]. lia.
  - lia.
Defined.


(* ========================================================================= *)
(** * Replaying a decision *)






Section ReplayFacts.

Variable env : Env.
Variable parseFloat : jsString -> option Q.
Variable transport : nat -> Outcome.
Variable clock : nat -> Z.

(** X22.  [replayDecision] by action id, with no provenance id: when the
    server answers the fetch with an action and the decision request with a
    decision, the call returns the comparison of the two, and what it sent
    is the fetch of the action followed by one POST to /v1/gate/decide of the
    action's agent_id, tool, operation, params and context (each of the last
    two replaced by an empty object when it is missing). *)
Theorem replayDecision_by_id :
  forall actionId provenanceId w config m s1 original s2 replayed,
    globalConfig w = Some config ->
    maxRetries config = Some (Z.of_nat m) ->
    strOr (Some actionId) None = Some actionId ->
    strOr provenanceId None = None ->
    transport (attempts w) = Resolved s1 original ->
    transport (S (attempts w)) = Resolved s2 replayed ->
    truthy original = true -> truthy replayed = true ->
    let run :=
      replayDecision env parseFloat transport clock (Some actionId)
        provenanceId w in
    fst run = Ok (compareDecisions original replayed) /\
    requestsOf (log (snd run))
    = requestsOf (log w)
        ++ [ fetchOf actionId;
             (POST, js "/v1/gate/decide",
              JObj [ (js "agent_id", prop original "agent_id");
                     (js "tool", prop original "tool");
                     (js "operation", prop original "operation");
                     (js "params", orElse (prop original "params") (JObj []));
                     (js "context", orElse (prop original "context") (JObj []))
                   ]) ] /\
    sleepsOf (log (snd run)) = sleepsOf (log w).
Proof.
  intros actionId provenanceId w config m s1 original s2 replayed Hcfg Hm Hid
    Hprov Ht1 Ht2 Ho Hr run.
  subst run.
  set (payload :=
         JObj [ (js "agent_id", prop original "agent_id");
                (js "tool", prop original "tool");
                (js "operation", prop original "operation");
                (js "params", orElse (prop original "params") (JObj []));
                (js "context", orElse (prop original "context") (JObj [])) ]).
  destruct (makeRequest_answered env parseFloat transport clock GET
              (js "/v1/actions/" ++ actionId) JUndefined JUndefined w config
              m s1 original Hcfg Hm Ht1 eq_refl)
    as (w1 & Hrun1 & A1 & A2 & A3 & A4 & A5).
  rewrite urlOf_actions in A4.
  destruct (makeRequest_answered env parseFloat transport clock POST
              (js "/v1/gate/decide") payload JUndefined w1 config m s2
              replayed)
    as (w2 & Hrun2 & B1 & B2 & B3 & B4 & B5);
    [congruence|exact Hm|now rewrite A2|reflexivity|].
  assert (Hagent : getProp original "agent_id" = Ok (prop original "agent_id")).
  { destruct original; try reflexivity; discriminate. }
  assert (Hout : getProp replayed "outcome" = Ok (prop replayed "outcome")).
  { destruct replayed; try reflexivity; discriminate. }
  assert (Hrun :
            replayDecision env parseFloat transport clock (Some actionId)
              provenanceId w
            = (Ok (compareDecisions original replayed), w2)).
  { unfold replayDecision. rewrite Hid, Hprov.
    unfold getAction. rewrite (bind_run _ _ _ _ _ _ _ Hrun1).
    rewrite Hagent. unfold bind at 1, lift at 1. unfold gateDecide.
    fold payload. rewrite (bind_run _ _ _ _ _ _ _ Hrun2).
    rewrite Hout. reflexivity. }
  rewrite Hrun. cbn [fst snd].
  split; [reflexivity|split].
  - rewrite B4, A4, <- app_assoc. reflexivity.
  - congruence.
Qed.

End ReplayFacts.

Lemma replayDecision_by_id_witness :
  fst (replayDecision noEnv parseHalf replayTransport stoppedClock
         (Some (js "a1")) None readyWorld)
  = Ok (compareDecisions (responseOf (replayTransport 0))
          (responseOf (replayTransport 1))) /\
  requestsOf
    (log (snd (replayDecision noEnv parseHalf replayTransport stoppedClock
                 (Some (js "a1")) None readyWorld)))
  = requestsOf (log readyWorld)
      ++ [ fetchOf (js "a1");
           (POST, js "/v1/gate/decide",
            JObj [ (js "agent_id", prop (responseOf (replayTransport 0)) "agent_id");
                   (js "tool", prop (responseOf (replayTransport 0)) "tool");
                   (js "operation",
                    prop (responseOf (replayTransport 0)) "operation");
                   (js "params",
                    orElse (prop (responseOf (replayTransport 0)) "params")
                      (JObj []));
                   (js "context",
                    orElse (prop (responseOf (replayTransport 0)) "context")
                      (JObj [])) ]) ] /\
  sleepsOf
    (log (snd (replayDecision noEnv parseHalf replayTransport stoppedClock
                 (Some (js "a1")) None readyWorld)))
  = sleepsOf (log readyWorld).
Proof.
  exact (replayDecision_by_id noEnv parseHalf replayTransport stoppedClock
           (js "a1") None readyWorld defaultConfig 3 200
           (responseOf (replayTransport 0)) 200
           (responseOf (replayTransport 1))
           eq_refl eq_refl eq_refl eq_refl eq_refl eq_refl eq_refl eq_refl).
Defined.

(* ========================================================================= *)
(** * policy.ts: validation *)

Lemma pushIf_app :
  forall condition entry errors,
    pushIf condition entry errors
    = errors ++ (if condition then [entry] else []).
Proof.
  intros [|] entry errors; cbn; [reflexivity|now rewrite app_nil_r].
Qed.

Lemma validateRule_readable :
  forall rule index errors,
    readable rule = true ->
    exists added,
      validateRule rule index errors = Ok (errors ++ added) /\
      (added = [] <-> ruleAccepted rule = true) /\
      (List.length added <= 3)%nat.
Proof.
  intros rule index errors Hr.
  unfold validateRule.
  assert (Hd : getProp rule "description" = Ok (prop rule "description")).
  { destruct rule; try reflexivity; discriminate. }
  rewrite Hd. cbn [bindR]. rewrite !pushIf_app, <- !app_assoc.
  eexists. split; [reflexivity|].
  unfold ruleAccepted.
  destruct (truthy (prop rule "description"));
    destruct (keyCount (orElse (prop rule "match") (JObj [])) =? 0)%nat;
    destruct (isTrue (prop rule "allow"));
    destruct (isTrue (prop rule "deny"));
    destruct (isTrue (prop rule "require_approval"));
    cbn [negb andb filter List.length Nat.eqb app];
    (split; [split; intros H; try reflexivity; discriminate|lia]).
Qed.

Lemma forEachRule_readable :
  forall rules index errors,
    forallb readable rules = true ->
    exists added,
      forEachRule rules index errors = Ok (errors ++ added) /\
      (added = [] <-> forallb ruleAccepted rules = true) /\
      (List.length added <= 3 * List.length rules)%nat.
Proof.
  induction rules as [|rule rest IH]; intros index errors Hr.
  - exists []. cbn. rewrite app_nil_r. repeat split; auto.
  - cbn [forallb] in Hr. apply andb_true_iff in Hr as [Hr1 Hr2].
    destruct (validateRule_readable rule index errors Hr1)
      as (a1 & E1 & I1 & L1).
    cbn [forEachRule]. rewrite E1. cbn [bindR].
    destruct (IH (S index) (errors ++ a1) Hr2) as (a2 & E2 & I2 & L2).
    exists (a1 ++ a2). rewrite E2, app_assoc. split; [reflexivity|].
    split.
    + cbn [forallb]. rewrite andb_true_iff, <- I1, <- I2. split.
      * intros H. apply app_eq_nil in H. exact H.
      * intros [-> ->]. reflexivity.
    + rewrite length_app. cbn [List.length]. lia.
Qed.

(** X23.  [validatePolicy] on a policy whose [rules] is an array of rules
    (none of them [null] or [undefined]) returns the list of its complaints,
    at most one for the policy and three for each rule; the list is empty
    exactly when there is at least one rule and every rule has a description,
    at least one match condition, and exactly one of allow, deny and
    require_approval set to true. *)
Theorem validatePolicy_accepts :
  forall policy rules,
    getProp policy "rules" = Ok (JArr rules) ->
    forallb readable rules = true ->
    exists errors,
      validatePolicy policy = Ok errors /\
      (errors = [] <->
       rules <> [] /\ forallb ruleAccepted rules = true) /\
      (List.length errors <= 1 + 3 * List.length rules)%nat.
Proof.
  intros policy rules Hrules Hr.
  unfold validatePolicy. rewrite Hrules. cbn [bindR truthy negb orb].
  destruct (forEachRule_readable rules 0
              (pushIf (List.length rules =? 0)%nat
                 (js "Policy must have at least one rule") []) Hr)
    as (added & E & I & L).
  rewrite E. eexists. split; [reflexivity|].
  destruct rules as [|rule rest].
  - cbn [List.length Nat.eqb pushIf app]. split.
    + split; [discriminate|]. intros [H _]. now contradiction H.
    + cbn [List.length] in *. lia.
  - cbn [List.length Nat.eqb pushIf app]. split.
    + rewrite I. split.
      * intros H. split; [discriminate|exact H].
      * intros [_ H]. exact H.
    + cbn [List.length] in *. lia.
Qed.

Lemma forEachRule_null :
  forall before after index errors,
    forallb readable before = true ->
    forEachRule (before ++ JNull :: after) index errors = Throw TypeError.
Proof.
  induction before as [|rule rest IH]; intros after index errors Hr.
  - reflexivity.
  - cbn [forallb] in Hr. apply andb_true_iff in Hr as [Hr1 Hr2].
    destruct (validateRule_readable rule index errors Hr1) as (a1 & E1 & _).
    cbn [app forEachRule]. rewrite E1. cbn [bindR].
    now apply IH.
Qed.

(** X24.  [validatePolicy] complains about a policy without rules only when
    [rules] is an empty array: then it returns the one complaint "Policy must
    have at least one rule".  When [rules] is missing, or anything else that
    is not an array, it throws a TypeError instead of returning the
    complaint; so does a rule that is [null]. *)
Theorem validatePolicy_without_rules :
  (forall policy,
      getProp policy "rules" = Ok (JArr []) ->
      validatePolicy policy = Ok [js "Policy must have at least one rule"]) /\
  (forall policy rules,
      getProp policy "rules" = Ok rules ->
      (forall items, rules <> JArr items) ->
      validatePolicy policy = Throw TypeError) /\
  (forall policy before after,
      getProp policy "rules" = Ok (JArr (before ++ JNull :: after)) ->
      forallb readable before = true ->
      validatePolicy policy = Throw TypeError).
Proof.
  split; [|split].
  - intros policy H. unfold validatePolicy. rewrite H. reflexivity.
  - intros policy rules H Hno. unfold validatePolicy. rewrite H.
    cbn [bindR]. destruct rules as [| |b|x|t|items|props]; try reflexivity.
    now contradiction (Hno items).
  - intros policy before after H Hr. unfold validatePolicy. rewrite H.
    cbn [bindR].
    now apply forEachRule_null.
Qed.
